(** * RedditClone engine: a shallow embedding and its verified properties

    The engine of the repository (the methods of [RedditEngine], the
    comment-tree helpers, [sortPosts] and the two statistics walks) is
    embedded as executable functions over an explicit engine state.

    Conventions of the embedding:
    - Go's [int] is the 64-bit signed integer; arithmetic on it is written
      with its wrap-around ([GoInt.add], [GoInt.neg]).
    - [time.Now()] is an input: every operation that reads the clock takes
      the instants it reads as arguments (one per call of [time.Now]).
    - Ranging over a Go map enumerates it in an unspecified order: every
      operation that ranges over a map takes the enumeration as a list
      argument, and the theorems assume only that it is a permutation of
      the map's entries.
    - [*Post] values are shared between [RedditEngine.posts] and
      [Subreddit.Posts]; they are addresses into [heap].  Users,
      subreddits, comments and direct messages have a single owner and are
      stored by value (a pointer into a comment tree is a path).
    - Locks are not modelled: each operation runs atomically.  Output
      written with [fmt.Printf] is not modelled. *)

From stdpp Require Import gmap strings list fin_maps sorting pretty.
From Stdlib Require Import ZArith Lia.

Set Warnings "-register-all,-clear-no-such-hyp".
Open Scope Z_scope.

(** ** Machine integers *)

Module GoInt.
Definition int_min : Z := - 2 ^ 63.
Definition int_max : Z := 2 ^ 63 - 1.
Definition in_range (z : Z) : Prop := int_min <= z <= int_max.
Definition wrap (z : Z) : Z := (z + 2 ^ 63) mod 2 ^ 64 - 2 ^ 63.
Definition add (a b : Z) : Z := wrap (a + b).
Definition neg (a : Z) : Z := wrap (- a).
(** [len(x)] of a slice or map *)
Definition len {A} (l : list A) : Z := Z.of_nat (length l).
End GoInt.

(** ** Time *)

(** An instant, in nanoseconds since the Unix epoch. *)
Definition Time := Z.
Definition Before (t u : Time) : bool := bool_decide (t < u).
Definition UnixNano (t : Time) : Z := t.

(** [fmt.Sprintf(prefix + "%d", n)] *)
Definition Sprintf_d (prefix : string) (n : Z) : string := prefix +:+ pretty n.

(** ** Data models *)

Module User.
Record t := mk {
  Username : string;
  Password : string;
  Karma : Z;
  CreatedAt : Time;
  Subreddits : gset string
}.
Definition add_Karma (value : Z) (u : t) : t :=
  mk (Username u) (Password u) (GoInt.add (Karma u) value) (CreatedAt u) (Subreddits u).
Definition set_Subreddits (s : gset string) (u : t) : t :=
  mk (Username u) (Password u) (Karma u) (CreatedAt u) s.
End User.

Module Comment.
Inductive t := mk {
  ID : string;
  Content : string;
  Author : string;
  ParentID : string;
  CreatedAt : Time;
  Votes : Z;
  Children : list t
}.
Definition set_Children (cs : list t) (c : t) : t :=
  mk (ID c) (Content c) (Author c) (ParentID c) (CreatedAt c) (Votes c) cs.
(** [c.Children = append(c.Children, child)] *)
Definition append_child (child : t) (c : t) : t :=
  set_Children (Children c ++ [child]) c.
End Comment.

Module Post.
Record t := mk {
  ID : string;
  Title : string;
  Content : string;
  Author : string;
  Subreddit : string;
  CreatedAt : Time;
  Votes : Z;
  Comments : list Comment.t
}.
Definition set_Votes (v : Z) (p : t) : t :=
  mk (ID p) (Title p) (Content p) (Author p) (Subreddit p) (CreatedAt p) v (Comments p).
Definition set_Comments (cs : list Comment.t) (p : t) : t :=
  mk (ID p) (Title p) (Content p) (Author p) (Subreddit p) (CreatedAt p) (Votes p) cs.
End Post.

(** A [*Post]: an address into the engine's [heap]. *)
Abbreviation ptr := nat.

Module Subreddit.
Record t := mk {
  Name : string;
  Description : string;
  Creator : string;
  CreatedAt : Time;
  Posts : list ptr;
  Members : gset string
}.
Definition set_Posts (ps : list ptr) (s : t) : t :=
  mk (Name s) (Description s) (Creator s) (CreatedAt s) ps (Members s).
Definition set_Members (m : gset string) (s : t) : t :=
  mk (Name s) (Description s) (Creator s) (CreatedAt s) (Posts s) m.
End Subreddit.

Module DirectMessage.
Inductive t := mk {
  ID : string;
  From : string;
  To : string;
  Content : string;
  CreatedAt : Time;
  Replies : list t
}.
(** [dm.Replies = append(dm.Replies, reply)] *)
Definition append_reply (reply : t) (dm : t) : t :=
  mk (ID dm) (From dm) (To dm) (Content dm) (CreatedAt dm) (Replies dm ++ [reply]).
End DirectMessage.

(** ** The engine state *)

Record RedditEngine := mkEngine {
  users : gmap string User.t;
  subreddits : gmap string Subreddit.t;
  posts : gmap string ptr;
  directMessages : gmap string (list DirectMessage.t);
  heap : list Post.t
}.

Definition set_users (u : gmap string User.t) (e : RedditEngine) : RedditEngine :=
  mkEngine u (subreddits e) (posts e) (directMessages e) (heap e).
Definition set_subreddits (s : gmap string Subreddit.t) (e : RedditEngine) : RedditEngine :=
  mkEngine (users e) s (posts e) (directMessages e) (heap e).
Definition set_posts (p : gmap string ptr) (e : RedditEngine) : RedditEngine :=
  mkEngine (users e) (subreddits e) p (directMessages e) (heap e).
Definition set_directMessages (d : gmap string (list DirectMessage.t)) (e : RedditEngine)
  : RedditEngine :=
  mkEngine (users e) (subreddits e) (posts e) d (heap e).
Definition set_heap (h : list Post.t) (e : RedditEngine) : RedditEngine :=
  mkEngine (users e) (subreddits e) (posts e) (directMessages e) h.

(** ** Results and errors *)

(** What a call yields: a value, an [error] (its message text), or a
    run-time panic (a dereference of a nil or invalid pointer). *)
Inductive result (A : Type) : Type :=
| Ok (a : A)
| Err (msg : string)
| Panic.
Arguments Ok {A} a.
Arguments Err {A} msg.
Arguments Panic {A}.

(** The error kinds of the specification, as the messages the code builds
    with [fmt.Errorf]. *)
Definition NotFound (what : string) : string := what +:+ " not found".
Definition AlreadyExists (what : string) : string := what +:+ " already exists".

Definition is_NotFound {A} (r : result A) : Prop := ∃ what, r = Err (NotFound what).

(** ** Engine operations *)

Definition NewRedditEngine : RedditEngine := mkEngine ∅ ∅ ∅ ∅ [].

Definition RegisterUser (username password : string) (now : Time) (e : RedditEngine)
  : RedditEngine * result unit :=
  match users e !! username with
  | Some _ => (e, Err "user already exists")
  | None =>
      (set_users (<[username := User.mk username password 0 now ∅]> (users e)) e, Ok ())
  end.

Definition CreateSubreddit (name description creator : string) (now : Time) (e : RedditEngine)
  : RedditEngine * result unit :=
  match subreddits e !! name with
  | Some _ => (e, Err "subreddit already exists")
  | None =>
      (set_subreddits (<[name := Subreddit.mk name description creator now [] ∅]> (subreddits e)) e,
       Ok ())
  end.

Definition JoinSubreddit (username subredditName : string) (e : RedditEngine)
  : RedditEngine * result unit :=
  match users e !! username with
  | None => (e, Err "user not found")
  | Some user =>
      match subreddits e !! subredditName with
      | None => (e, Err "subreddit not found")
      | Some subreddit =>
          let user' := User.set_Subreddits ({[subredditName]} ∪ User.Subreddits user) user in
          let subreddit' :=
            Subreddit.set_Members ({[username]} ∪ Subreddit.Members subreddit) subreddit in
          (set_subreddits (<[subredditName := subreddit']> (subreddits e))
             (set_users (<[username := user']> (users e)) e), Ok ())
      end
  end.

Definition LeaveSubreddit (username subredditName : string) (e : RedditEngine)
  : RedditEngine * result unit :=
  match users e !! username with
  | None => (e, Err "user not found")
  | Some user =>
      match subreddits e !! subredditName with
      | None => (e, Err "subreddit not found")
      | Some subreddit =>
          let user' := User.set_Subreddits (User.Subreddits user ∖ {[subredditName]}) user in
          let subreddit' :=
            Subreddit.set_Members (Subreddit.Members subreddit ∖ {[username]}) subreddit in
          (set_subreddits (<[subredditName := subreddit']> (subreddits e))
             (set_users (<[username := user']> (users e)) e), Ok ())
      end
  end.

Definition GetComments (postID : string) (e : RedditEngine) : result (list Comment.t) :=
  match posts e !! postID with
  | None => Err "post not found"
  | Some a =>
      match heap e !! a with
      | None => Panic
      | Some post => Ok (Post.Comments post)
      end
  end.

Definition CreatePost (title content author subredditName : string) (tid now : Time)
    (e : RedditEngine) : RedditEngine * result ptr :=
  match subreddits e !! subredditName with
  | None => (e, Err "subreddit not found")
  | Some subreddit =>
      let post := Post.mk (Sprintf_d "post_" (UnixNano tid)) title content author
                    subredditName now 0 [] in
      let a := length (heap e) in
      let subreddit' := Subreddit.set_Posts (Subreddit.Posts subreddit ++ [a]) subreddit in
      (set_subreddits (<[subredditName := subreddit']> (subreddits e))
         (set_posts (<[Post.ID post := a]> (posts e))
            (set_heap (heap e ++ [post]) e)), Ok a)
  end.

(** *** Comment tree *)

(** A [*Comment] inside a post's tree: the child indices leading to the
    node, starting in the post's top-level sequence. *)
Definition path := list nat.

(** The node that a path starting at node [c] designates. *)
Fixpoint node_at (c : Comment.t) (p : path) : option Comment.t :=
  match p with
  | [] => Some c
  | i :: q =>
      match Comment.Children c !! i with
      | Some c' => node_at c' q
      | None => None
      end
  end.

(** Dereference of a [*Comment] in the sequence [comments]. *)
Definition comment_at (comments : list Comment.t) (p : path) : option Comment.t :=
  match p with
  | [] => None
  | i :: q =>
      match comments !! i with
      | Some c => node_at c q
      | None => None
      end
  end.

(** Mutation through a [*Comment]. *)
Fixpoint alter_node (f : Comment.t → Comment.t) (p : path) (c : Comment.t) : Comment.t :=
  match p with
  | [] => f c
  | i :: q => Comment.set_Children (alter (alter_node f q) i (Comment.Children c)) c
  end.

Definition alter_at (f : Comment.t → Comment.t) (p : path) (comments : list Comment.t)
  : list Comment.t :=
  match p with
  | [] => comments
  | i :: q => alter (alter_node f q) i comments
  end.

(** One iteration of the loop of [findComment] on the element [c]: [c]
    itself if its id matches, otherwise the search of [c.Children]. *)
Fixpoint findComment_in (c : Comment.t) (commentID : string) : option path :=
  if decide (Comment.ID c = commentID) then Some []
  else
    (fix children (cs : list Comment.t) (i : nat) {struct cs} : option path :=
       match cs with
       | [] => None
       | c' :: cs' =>
           match findComment_in c' commentID with
           | Some p => Some (i :: p)
           | None => children cs' (S i)
           end
       end) (Comment.Children c) 0%nat.

(** The loop of [findComment], from the element of index [i] on. *)
Fixpoint findComment_from (comments : list Comment.t) (commentID : string) (i : nat)
  : option path :=
  match comments with
  | [] => None
  | c :: rest =>
      match findComment_in c commentID with
      | Some p => Some (i :: p)
      | None => findComment_from rest commentID (S i)
      end
  end.

Definition findComment (comments : list Comment.t) (commentID : string) : option path :=
  findComment_from comments commentID 0%nat.

Definition AddComment (content author postID parentCommentID : string) (tid now : Time)
    (e : RedditEngine) : RedditEngine * result Comment.t :=
  match posts e !! postID with
  | None => (e, Err "post not found")
  | Some a =>
      match heap e !! a with
      | None => (e, Panic)
      | Some post =>
          let comment := Comment.mk (Sprintf_d "comment_" (UnixNano tid)) content author
                           parentCommentID now 0 [] in
          if decide (parentCommentID = "") then
            (set_heap (<[a := Post.set_Comments (Post.Comments post ++ [comment]) post]> (heap e)) e,
             Ok comment)
          else
            match findComment (Post.Comments post) parentCommentID with
            | None => (e, Err "parent comment not found")
            | Some parent =>
                (set_heap
                   (<[a := Post.set_Comments
                             (alter_at (Comment.append_child comment) parent (Post.Comments post))
                             post]> (heap e)) e,
                 Ok comment)
            end
      end
  end.

(** *** Voting and karma *)

Definition updateKarma (username : string) (value : Z) (e : RedditEngine) : RedditEngine :=
  match users e !! username with
  | Some user => set_users (<[username := User.add_Karma value user]> (users e)) e
  | None => e
  end.

Definition VotePost (postID : string) (upvote : bool) (e : RedditEngine)
  : RedditEngine * result unit :=
  match posts e !! postID with
  | None => (e, Err "post not found")
  | Some a =>
      match heap e !! a with
      | None => (e, Panic)
      | Some post =>
          if upvote then
            (updateKarma (Post.Author post) 1
               (set_heap (<[a := Post.set_Votes (GoInt.add (Post.Votes post) 2) post]> (heap e)) e),
             Ok ())
          else
            (updateKarma (Post.Author post) (-1)
               (set_heap (<[a := Post.set_Votes (GoInt.add (Post.Votes post) (-1)) post]> (heap e)) e),
             Ok ())
      end
  end.

(** A sequence of votes on one post, stopping at the first failure. *)
Fixpoint vote_seq (postID : string) (votes : list bool) (e : RedditEngine)
  : RedditEngine * result unit :=
  match votes with
  | [] => (e, Ok ())
  | v :: vs =>
      match VotePost postID v e with
      | (e', Ok _) => vote_seq postID vs e'
      | r => r
      end
  end.

(** *** Feed generation *)

Section SortPosts.
(** A slice element: in [GetUserFeed] a [*Post] resolved to its object. *)
Context {A : Type} (CreatedAt : A → Time).

(** The inner loop of [sortPosts], for [j], [j+1], ..., [j+count-1]. *)
Fixpoint sortPosts_inner (count j : nat) (posts : list A) : list A :=
  match count with
  | O => posts
  | S count' =>
      match posts !! j, posts !! S j with
      | Some x, Some y =>
          sortPosts_inner count' (S j)
            (if Before (CreatedAt x) (CreatedAt y)
             then <[j := y]> (<[S j := x]> posts)
             else posts)
      | _, _ => posts (* index out of range; not reached, as j+1 < n *)
      end
  end.

(** The outer loop, for [i], [i+1], ..., [i+count-1]. *)
Fixpoint sortPosts_outer (count i : nat) (posts : list A) : list A :=
  match count with
  | O => posts
  | S count' =>
      sortPosts_outer count' (S i) (sortPosts_inner (length posts - i - 1) 0 posts)
  end.

Definition sortPosts (posts : list A) : list A :=
  sortPosts_outer (length posts - 1) 0 posts.

(** The same pass written on the list structure: the element carried
    along is [posts[j]]. *)
Fixpoint bubble (count : nat) (l : list A) : list A :=
  match count, l with
  | S count', x :: y :: r =>
      if Before (CreatedAt x) (CreatedAt y)
      then y :: bubble count' (x :: r)
      else x :: bubble count' (y :: r)
  | _, _ => l
  end.
End SortPosts.

(** The loop of [GetUserFeed] over [user.Subreddits], enumerated as
    [order]; [None] is the dereference of the nil [*Subreddit] that the
    unchecked lookup yields for a missing name. *)
Fixpoint gather_feed (e : RedditEngine) (order : list string) (feed : list ptr)
  : option (list ptr) :=
  match order with
  | [] => Some feed
  | subredditName :: rest =>
      match subreddits e !! subredditName with
      | None => None
      | Some subreddit => gather_feed e rest (feed ++ Subreddit.Posts subreddit)
      end
  end.

(** The objects behind a slice of [*Post]. *)
Definition resolve (h : list Post.t) (feed : list ptr) : option (list (ptr * Post.t)) :=
  mapM (λ a, (λ p, (a, p)) <$> h !! a) feed.

(** [order] is the enumeration of [user.Subreddits] that [range] produces. *)
Definition GetUserFeed (username : string) (order : list string) (e : RedditEngine)
  : result (list ptr) :=
  match users e !! username with
  | None => Err "user not found"
  | Some user =>
      match gather_feed e order [] with
      | None => Panic
      | Some feed =>
          match resolve (heap e) feed with
          | None => Panic
          | Some objs => Ok ((sortPosts (λ x, Post.CreatedAt x.2) objs).*1)
          end
      end
  end.

(** *** Direct messages *)

Definition inbox (e : RedditEngine) (username : string) : list DirectMessage.t :=
  default [] (directMessages e !! username).

Definition SendDirectMessage (from to content : string) (tid now : Time) (e : RedditEngine)
  : RedditEngine * result DirectMessage.t :=
  match users e !! from with
  | None => (e, Err "sender not found")
  | Some _ =>
      match users e !! to with
      | None => (e, Err "recipient not found")
      | Some _ =>
          let dm := DirectMessage.mk (Sprintf_d "dm_" (UnixNano tid)) from to content now [] in
          (set_directMessages (<[to := inbox e to ++ [dm]]> (directMessages e)) e, Ok dm)
      end
  end.

(** The inner loop of [ReplyToDirectMessage]: the first message of the
    inbox with the wanted id, with its index. *)
Fixpoint find_dm (messages : list DirectMessage.t) (originalMsgID : string) (i : nat)
  : option (nat * DirectMessage.t) :=
  match messages with
  | [] => None
  | dm :: rest =>
      if decide (DirectMessage.ID dm = originalMsgID) then Some (i, dm)
      else find_dm rest originalMsgID (S i)
  end.

(** The outer loop, over the inboxes enumerated as [order]: [break] leaves
    only the inner loop, so a later inbox with a match replaces the
    earlier find.  A [*DirectMessage] is the inbox's key and an index. *)
Fixpoint scan_inboxes (e : RedditEngine) (order : list string) (originalMsgID : string)
    (originalDM : option (string * nat * DirectMessage.t))
  : option (string * nat * DirectMessage.t) :=
  match order with
  | [] => originalDM
  | k :: rest =>
      scan_inboxes e rest originalMsgID
        (match find_dm (inbox e k) originalMsgID 0%nat with
         | Some (i, dm) => Some (k, i, dm)
         | None => originalDM
         end)
  end.

(** [order] is the enumeration of the keys of [e.directMessages]. *)
Definition ReplyToDirectMessage (originalMsgID from content : string) (order : list string)
    (tid now : Time) (e : RedditEngine) : RedditEngine * result DirectMessage.t :=
  match scan_inboxes e order originalMsgID None with
  | None => (e, Err "original message not found")
  | Some (k, i, originalDM) =>
      let reply := DirectMessage.mk (Sprintf_d "dm_" (UnixNano tid)) from
                     (DirectMessage.From originalDM) content now [] in
      (set_directMessages
         (alter (alter (DirectMessage.append_reply reply) i) k (directMessages e)) e,
       Ok reply)
  end.

Definition GetDirectMessages (username : string) (e : RedditEngine)
  : result (list DirectMessage.t) :=
  match users e !! username with
  | None => Err "user not found"
  | Some _ => Ok (inbox e username)
  end.

(** ** Statistics *)

Module UserKarma.
Record t := mk { Username : string; Karma : Z }.
End UserKarma.

(** The actor's [StatsResponse]; the handler's local type of the same name
    has the same fields under the names [TotalUsers], [TotalSubreddits],
    [TotalPosts] and [TotalComments]. *)
Record StatsResponse := mkStats {
  Users : Z;
  Subreddits : Z;
  Posts : Z;
  Comments : Z;
  DirectMessages : Z;
  TotalUpvotes : Z;
  TotalDownvotes : Z;
  TopUsers : list UserKarma.t
}.

(** [countComments(c.Children)], the recursive call of [countComments]. *)
Fixpoint countComments_in (c : Comment.t) : Z :=
  (fix loop (cs : list Comment.t) (count : Z) {struct cs} : Z :=
     match cs with
     | [] => count
     | c' :: cs' => loop cs' (GoInt.add count (countComments_in c'))
     end) (Comment.Children c) (GoInt.len (Comment.Children c)).

Fixpoint countComments_loop (comments : list Comment.t) (count : Z) : Z :=
  match comments with
  | [] => count
  | comment :: rest => countComments_loop rest (GoInt.add count (countComments_in comment))
  end.

Definition countComments (comments : list Comment.t) : Z :=
  countComments_loop comments (GoInt.len comments).

(** The comparison both callers hand to [sort.Slice]. *)
Definition karma_less (a b : UserKarma.t) : bool :=
  bool_decide (UserKarma.Karma b < UserKarma.Karma a).

(** The walk over [engine.posts] of the actor's [GetStatsMessage] case;
    the accumulator is (totalComments, totalUpvotes, totalDownvotes). *)
Fixpoint actor_posts_loop (h : list Post.t) (ps : list (string * ptr)) (acc : Z * Z * Z)
  : option (Z * Z * Z) :=
  match ps with
  | [] => Some acc
  | (_, a) :: rest =>
      match h !! a with
      | None => None
      | Some post =>
          let '(totalComments, totalUpvotes, totalDownvotes) := acc in
          let totalComments := GoInt.add totalComments (countComments (Post.Comments post)) in
          if bool_decide (0 < Post.Votes post) then
            actor_posts_loop h rest
              (totalComments, GoInt.add totalUpvotes (Post.Votes post), totalDownvotes)
          else
            actor_posts_loop h rest
              (totalComments, totalUpvotes,
               GoInt.add totalDownvotes (GoInt.neg (Post.Votes post)))
      end
  end.

(** The same walk in [handleGetStats]: votes first, comments second. *)
Fixpoint http_posts_loop (h : list Post.t) (ps : list (string * ptr)) (acc : Z * Z * Z)
  : option (Z * Z * Z) :=
  match ps with
  | [] => Some acc
  | (_, a) :: rest =>
      match h !! a with
      | None => None
      | Some post =>
          let '(totalComments, totalUpvotes, totalDownvotes) := acc in
          let '(totalUpvotes, totalDownvotes) :=
            if bool_decide (0 < Post.Votes post)
            then (GoInt.add totalUpvotes (Post.Votes post), totalDownvotes)
            else (totalUpvotes, GoInt.add totalDownvotes (GoInt.neg (Post.Votes post))) in
          http_posts_loop h rest
            (GoInt.add totalComments (countComments (Post.Comments post)),
             totalUpvotes, totalDownvotes)
      end
  end.

(** The walk over [engine.users], appending one entry per user. *)
Fixpoint users_loop (us : list (string * User.t)) (acc : list UserKarma.t) : list UserKarma.t :=
  match us with
  | [] => acc
  | (username, user) :: rest =>
      users_loop rest (acc ++ [UserKarma.mk username (User.Karma user)])
  end.

(** The walk over [engine.directMessages]. *)
Fixpoint dms_loop (ds : list (string * list DirectMessage.t)) (totalDMs : Z) : Z :=
  match ds with
  | [] => totalDMs
  | (_, messages) :: rest => dms_loop rest (GoInt.add totalDMs (GoInt.len messages))
  end.

(** [for i := 0; i < len(userKarmas) && i < 5; i++], with [count] the
    iterations left before [i] reaches the bound. *)
Fixpoint top_loop (count i : nat) (userKarmas topUsers : list UserKarma.t)
  : list UserKarma.t :=
  match count with
  | O => topUsers
  | S count' =>
      match userKarmas !! i with
      | Some x => top_loop count' (S i) userKarmas (topUsers ++ [x])
      | None => topUsers
      end
  end.

Section Stats.
(** [sort.Slice] of the Go standard library, on the slice and the
    element comparison induced by its [less] argument. *)
Variable sort_Slice : list UserKarma.t → (UserKarma.t → UserKarma.t → bool) → list UserKarma.t.

(** [ps], [us] and [ds] enumerate [engine.posts], [engine.users] and
    [engine.directMessages]. *)
Definition actor_GetStats (ps : list (string * ptr)) (us : list (string * User.t))
    (ds : list (string * list DirectMessage.t)) (e : RedditEngine) : result StatsResponse :=
  match actor_posts_loop (heap e) ps (0, 0, 0) with
  | None => Panic
  | Some (totalComments, totalUpvotes, totalDownvotes) =>
      let topUsers := users_loop us [] in
      let topUsers := sort_Slice topUsers karma_less in
      let topUsers :=
        if bool_decide (10 < GoInt.len topUsers) then take 10 topUsers else topUsers in
      let totalDMs := dms_loop ds 0 in
      Ok (mkStats (Z.of_nat (size (users e))) (Z.of_nat (size (subreddits e)))
            (Z.of_nat (size (posts e))) totalComments totalDMs totalUpvotes totalDownvotes
            topUsers)
  end.

Definition handleGetStats (ps : list (string * ptr)) (us : list (string * User.t))
    (ds : list (string * list DirectMessage.t)) (e : RedditEngine) : result StatsResponse :=
  match http_posts_loop (heap e) ps (0, 0, 0) with
  | None => Panic
  | Some (totalComments, totalUpvotes, totalDownvotes) =>
      let userKarmas := users_loop us [] in
      let userKarmas := sort_Slice userKarmas karma_less in
      let topUsers := top_loop 5 0 userKarmas [] in
      let totalDMs := dms_loop ds 0 in
      Ok (mkStats (Z.of_nat (size (users e))) (Z.of_nat (size (subreddits e)))
            (Z.of_nat (size (posts e))) totalComments totalDMs totalUpvotes totalDownvotes
            topUsers)
  end.
End Stats.

(** ** Runs of the engine *)

Inductive Op :=
| OpRegisterUser (username password : string) (now : Time)
| OpCreateSubreddit (name description creator : string) (now : Time)
| OpJoinSubreddit (username subreddit : string)
| OpLeaveSubreddit (username subreddit : string)
| OpGetComments (postID : string)
| OpCreatePost (title content author subreddit : string) (tid now : Time)
| OpAddComment (content author postID parentCommentID : string) (tid now : Time)
| OpVotePost (postID : string) (upvote : bool)
| OpGetUserFeed (username : string) (order : list string)
| OpSendDirectMessage (from to content : string) (tid now : Time)
| OpReplyToDirectMessage (originalMsgID from content : string) (order : list string)
    (tid now : Time)
| OpGetDirectMessages (username : string).

(** The state an operation leaves. *)
Definition exec (op : Op) (e : RedditEngine) : RedditEngine :=
  match op with
  | OpRegisterUser u p now => (RegisterUser u p now e).1
  | OpCreateSubreddit n d c now => (CreateSubreddit n d c now e).1
  | OpJoinSubreddit u s => (JoinSubreddit u s e).1
  | OpLeaveSubreddit u s => (LeaveSubreddit u s e).1
  | OpGetComments _ => e
  | OpCreatePost t c a s tid now => (CreatePost t c a s tid now e).1
  | OpAddComment c a p parent tid now => (AddComment c a p parent tid now e).1
  | OpVotePost p up => (VotePost p up e).1
  | OpGetUserFeed _ _ => e
  | OpSendDirectMessage f t c tid now => (SendDirectMessage f t c tid now e).1
  | OpReplyToDirectMessage o f c order tid now => (ReplyToDirectMessage o f c order tid now e).1
  | OpGetDirectMessages _ => e
  end.

Definition run (ops : list Op) (e : RedditEngine) : RedditEngine :=
  foldl (λ e op, exec op e) e ops.

Inductive reachable : RedditEngine → Prop :=
| reachable_new : reachable NewRedditEngine
| reachable_exec op e : reachable e → reachable (exec op e).

(** The operation is a [SendDirectMessage] addressed to [u]. *)
Definition sends_to (u : string) (op : Op) : Prop :=
  match op with
  | OpSendDirectMessage _ to _ _ _ => to = u
  | _ => False
  end.

(** ** Properties of states *)

(** Every joined subreddit name is a key of the subreddit map. *)
Definition joined_exist (e : RedditEngine) : Prop :=
  ∀ u user s, users e !! u = Some user → s ∈ User.Subreddits user →
    is_Some (subreddits e !! s).

(** Every [*Post] held by the engine points into the heap. *)
Definition ptrs_valid (e : RedditEngine) : Prop :=
  (∀ id a, posts e !! id = Some a → (a < length (heap e))%nat) ∧
  (∀ s sub a, subreddits e !! s = Some sub → a ∈ Subreddit.Posts sub →
     (a < length (heap e))%nat).

(** A [*Post] occurs once, in one subreddit's post sequence. *)
Definition posts_owned_once (e : RedditEngine) : Prop :=
  ∀ s1 s2 sub1 sub2 i j a,
    subreddits e !! s1 = Some sub1 → subreddits e !! s2 = Some sub2 →
    Subreddit.Posts sub1 !! i = Some a → Subreddit.Posts sub2 !! j = Some a →
    s1 = s2 ∧ i = j.

(** ** Reference notions for the statements *)

Definition sum_Z (l : list Z) : Z := foldr Z.add 0 l.

(** Number of nodes of a comment tree, and of a forest. *)
Fixpoint tree_size (c : Comment.t) : nat :=
  S (foldr (λ c' n, (tree_size c' + n)%nat) O (Comment.Children c)).
Definition forest_size (cs : list Comment.t) : nat :=
  foldr (λ c n, (tree_size c + n)%nat) O cs.

(** Numbers of upvotes and downvotes in a sequence of votes. *)
Definition upvotes (votes : list bool) : Z :=
  Z.of_nat (length (filter (λ v, v = true) votes)).
Definition downvotes (votes : list bool) : Z :=
  Z.of_nat (length (filter (λ v, v = false) votes)).

(** Descending by creation time: the later element is not more recent. *)
Definition desc {A} (CreatedAt : A → Time) (x y : A) : Prop := CreatedAt y <= CreatedAt x.

(** Pre-order of the nodes of a tree, on their paths: an ancestor comes
    before its descendants, an earlier sibling's subtree before a later
    one's. *)
Fixpoint path_le (p q : path) : Prop :=
  match p, q with
  | [], _ => True
  | _ :: _, [] => False
  | i :: p', j :: q' => (i < j)%nat ∨ (i = j ∧ path_le p' q')
  end.

(** ** Vocabulary of the proofs and example stores *)

(** A store with user "bob" and subreddit "science", "bob" not a member. *)
Definition e_bob_science : RedditEngine :=
  (CreateSubreddit "science" "d" "alice" 2 (RegisterUser "bob" "pw" 1 NewRedditEngine).1).1.

(** The same after "bob" has joined "science". *)
Definition e_bob_member : RedditEngine := (JoinSubreddit "bob" "science" e_bob_science).1.

(** What one vote adds to the post's counter and to the author's karma. *)
Definition vote_delta (upvote : bool) : Z := if upvote then 2 else -1.

Definition karma_delta (upvote : bool) : Z := if upvote then 1 else -1.

(** "alice" posts in "science"; the post is fresh. *)
Definition e_alice_post : RedditEngine :=
  (CreatePost "H" "C" "alice" "science" 5 5
     (CreateSubreddit "science" "d" "alice" 2
        (RegisterUser "bob" "pw" 1 (RegisterUser "alice" "pw" 0 NewRedditEngine).1).1).1).1.

(** A post by "carol", who never registered. *)
Definition e_carol_post : RedditEngine :=
  (CreatePost "H" "C" "carol" "science" 5 5
     (CreateSubreddit "science" "d" "alice" 2 NewRedditEngine).1).1.

(** "alice" has sent "hi" to "bob". *)
Definition e_alice_dm_bob : RedditEngine :=
  (SendDirectMessage "alice" "bob" "hi" 9 9
     (RegisterUser "bob" "pw" 1 (RegisterUser "alice" "pw" 0 NewRedditEngine).1).1).1.

(** What the search of the subtree rooted at [c] returns. *)
Definition found_in (X : string) (c : Comment.t) : Prop :=
  match findComment_in c X with
  | Some p =>
      ∃ n, node_at c p = Some n ∧ Comment.ID n = X ∧
           ∀ q m, node_at c q = Some m → Comment.ID m = X → path_le p q
  | None => ∀ q m, node_at c q = Some m → Comment.ID m ≠ X
  end.

(** A post with comment "comment_6", itself answered by "comment_7". *)
Definition e_thread : RedditEngine :=
  (AddComment "second" "bob" "post_5" "comment_6" 7 7
     (AddComment "first" "bob" "post_5" "" 6 6 e_alice_post).1).1.

(** The post sequence of a subreddit, by name. *)
Definition sub_posts (e : RedditEngine) (s : string) : option (list ptr) :=
  Subreddit.Posts <$> subreddits e !! s.

(** The operation neither allocates a post nor changes a post sequence. *)
Definition same_post_refs (e e' : RedditEngine) : Prop :=
  (∀ s, sub_posts e' s = sub_posts e s) ∧ posts e' = posts e ∧
  length (heap e') = length (heap e).

(** The concatenation the loop of [GetUserFeed] builds for the
    enumeration [order] of the joined set. *)
Definition joined_posts (e : RedditEngine) (order : list string) : list ptr :=
  concat ((λ s, default [] (sub_posts e s)) <$> order).

(** The creation time behind a [*Post]. *)
Definition created_in (h : list Post.t) (a : ptr) : option Time :=
  Post.CreatedAt <$> h !! a.

(** [a] points to a post created no earlier than the post [b] points to. *)
Definition not_older (h : list Post.t) (a b : ptr) : Prop :=
  ∃ pa pb, h !! a = Some pa ∧ h !! b = Some pb ∧ Post.CreatedAt pb <= Post.CreatedAt pa.

(** "bob" has joined "science" and "art"; three posts, two of them created
    at the same instant. *)
Definition feed_ops : list Op :=
  [OpRegisterUser "alice" "pw" 0; OpRegisterUser "bob" "pw" 1;
   OpCreateSubreddit "science" "d" "alice" 2; OpCreateSubreddit "art" "d" "alice" 3;
   OpJoinSubreddit "bob" "science"; OpJoinSubreddit "bob" "art";
   OpCreatePost "H" "C" "alice" "science" 5 5;
   OpCreatePost "I" "C" "alice" "art" 7 7;
   OpCreatePost "J" "C" "alice" "art" 8 5].

(** Sum of [f] over the posts of [engine.posts]. *)
Definition sum_posts (h : list Post.t) (f : Post.t → Z) (ps : list (string * ptr)) : Z :=
  sum_Z ((λ x, from_option f 0 (h !! x.2)) <$> ps).

(** What a post's counter contributes to the two vote totals. *)
Definition up_part (v : Z) : Z := if bool_decide (0 < v) then v else 0.

Definition down_part (v : Z) : Z := if bool_decide (0 < v) then 0 else - v.

(** One entry per user of [engine.users]. *)
Definition karma_entry (x : string * User.t) : UserKarma.t :=
  UserKarma.mk x.1 (User.Karma x.2).

(** Ranked by karma, highest first. *)
Definition karma_desc (a b : UserKarma.t) : Prop := UserKarma.Karma b <= UserKarma.Karma a.

(** Sum of the numbers of descendants of the comments of a sequence. *)
Definition descendants (cs : list Comment.t) : Z :=
  sum_Z ((λ c, Z.of_nat (forest_size (Comment.Children c))) <$> cs).

(** The three totals after the walk over [ps], from the accumulator
    values [c], [u] and [d]. *)
Definition posts_totals (h : list Post.t) (ps : list (string * ptr)) (c u d : Z)
  : Z * Z * Z :=
  (GoInt.wrap (c + sum_posts h (λ p, Z.of_nat (forest_size (Post.Comments p))) ps),
   GoInt.wrap (u + sum_posts h (λ p, up_part (Post.Votes p)) ps),
   GoInt.wrap (d + sum_posts h (λ p, down_part (Post.Votes p)) ps)).

(** A sorting function meeting the contract of [sort.Slice]. *)
Definition merge_sort_Slice (l : list UserKarma.t) (less : UserKarma.t → UserKarma.t → bool)
  : list UserKarma.t :=
  @merge_sort _ (λ a b, less b a = false) (λ a b, decide_rel (=) (less b a) false) l.

(** The feed scenario, then a two-comment thread, three votes and a
    direct message. *)
Definition stats_ops : list Op :=
  feed_ops ++
  [OpAddComment "first" "bob" "post_5" "" 9 9;
   OpAddComment "second" "bob" "post_5" "comment_9" 10 10;
   OpVotePost "post_5" true; OpVotePost "post_7" false; OpVotePost "post_7" false;
   OpSendDirectMessage "alice" "bob" "hi" 11 11].

Definition e_stats : RedditEngine := run stats_ops NewRedditEngine.

(** ** Further vocabulary: outcomes, views and invariants *)

Definition error_of {A} (r : result A) : option string :=
  match r with
  | Err msg => Some msg
  | _ => None
  end.

(** The error, if any, that an operation returns. *)
Definition exec_error (op : Op) (e : RedditEngine) : option string :=
  match op with
  | OpRegisterUser u p now => error_of (RegisterUser u p now e).2
  | OpCreateSubreddit n d c now => error_of (CreateSubreddit n d c now e).2
  | OpJoinSubreddit u s => error_of (JoinSubreddit u s e).2
  | OpLeaveSubreddit u s => error_of (LeaveSubreddit u s e).2
  | OpGetComments p => error_of (GetComments p e)
  | OpCreatePost t c a s tid now => error_of (CreatePost t c a s tid now e).2
  | OpAddComment c a p parent tid now => error_of (AddComment c a p parent tid now e).2
  | OpVotePost p up => error_of (VotePost p up e).2
  | OpGetUserFeed u order => error_of (GetUserFeed u order e)
  | OpSendDirectMessage f t c tid now => error_of (SendDirectMessage f t c tid now e).2
  | OpReplyToDirectMessage o f c order tid now =>
      error_of (ReplyToDirectMessage o f c order tid now e).2
  | OpGetDirectMessages u => error_of (GetDirectMessages u e)
  end.

(** Every error message the engine builds. *)
Definition engine_errors : list string :=
  [AlreadyExists "user"; AlreadyExists "subreddit"; NotFound "user"; NotFound "subreddit";
   NotFound "post"; NotFound "parent comment"; NotFound "sender"; NotFound "recipient";
   NotFound "original message"].

(** The joined set of a user and the member set of a subreddit, by name. *)
Definition joined (e : RedditEngine) (u : string) : option (gset string) :=
  User.Subreddits <$> users e !! u.
Definition members (e : RedditEngine) (s : string) : option (gset string) :=
  Subreddit.Members <$> subreddits e !! s.

(** The two sides of a membership agree, and members are registered. *)
Definition membership_consistent (e : RedditEngine) : Prop :=
  (∀ u s S M, joined e u = Some S → members e s = Some M → (s ∈ S ↔ u ∈ M)) ∧
  (∀ s M u, members e s = Some M → u ∈ M → is_Some (users e !! u)) ∧
  (∀ u S s, joined e u = Some S → s ∈ S → is_Some (subreddits e !! s)).

(** The fields of a post that are set at creation. *)
Definition post_static (p : Post.t) : string * string * string * string * string * Time :=
  (Post.ID p, Post.Title p, Post.Content p, Post.Author p, Post.Subreddit p,
   Post.CreatedAt p).

(** The fields of a user, a subreddit and a direct message that are set at
    creation. *)
Definition user_static (u : User.t) : string * string * Time :=
  (User.Username u, User.Password u, User.CreatedAt u).
Definition subreddit_static (s : Subreddit.t) : string * string * string * Time :=
  (Subreddit.Name s, Subreddit.Description s, Subreddit.Creator s, Subreddit.CreatedAt s).
Definition dm_static (m : DirectMessage.t) : string * string * string * string * Time :=
  (DirectMessage.ID m, DirectMessage.From m, DirectMessage.To m, DirectMessage.Content m,
   DirectMessage.CreatedAt m).

(** [e'] holds everything [e] holds: every user, subreddit, post, post id
    and message is still there with its fixed fields, and post sequences,
    comment forests and reply sequences have only grown. *)
Definition extends (e e' : RedditEngine) : Prop :=
  (∀ u user, users e !! u = Some user →
     ∃ user', users e' !! u = Some user' ∧ user_static user' = user_static user) ∧
  (∀ s sub, subreddits e !! s = Some sub →
     ∃ sub', subreddits e' !! s = Some sub' ∧ subreddit_static sub' = subreddit_static sub ∧
             Subreddit.Posts sub `prefix_of` Subreddit.Posts sub') ∧
  (∀ a p, heap e !! a = Some p →
     ∃ p', heap e' !! a = Some p' ∧ post_static p' = post_static p ∧
           (forest_size (Post.Comments p) ≤ forest_size (Post.Comments p'))%nat) ∧
  (∀ id, is_Some (posts e !! id) → is_Some (posts e' !! id)) ∧
  (∀ k i m, inbox e k !! i = Some m →
     ∃ m', inbox e' k !! i = Some m' ∧ dm_static m' = dm_static m ∧
           DirectMessage.Replies m `prefix_of` DirectMessage.Replies m').

(** The id and the subreddit name stored in the post behind a [*Post]. *)
Definition post_id (e : RedditEngine) (a : ptr) : option string := Post.ID <$> heap e !! a.
Definition post_sub (e : RedditEngine) (a : ptr) : option string :=
  Post.Subreddit <$> heap e !! a.

(** The maps and the post sequences index the posts consistently. *)
Definition store_indexed (e : RedditEngine) : Prop :=
  (∀ id a, posts e !! id = Some a → post_id e a = Some id) ∧
  (∀ a s, post_sub e a = Some s → ∃ l, sub_posts e s = Some l ∧ a ∈ l) ∧
  (∀ s l a, sub_posts e s = Some l → a ∈ l → post_sub e a = Some s).

(** The maps are keyed by the names stored in their entries. *)
Definition keyed_by_name (e : RedditEngine) : Prop :=
  (∀ u user, users e !! u = Some user → User.Username user = u) ∧
  (∀ s sub, subreddits e !! s = Some sub → Subreddit.Name sub = s).

(** Every inbox is non-empty and belongs to a registered user; its
    messages are addressed to that user by a registered sender; a reply is
    addressed to the sender of the message it answers and has no reply of
    its own. *)
Definition dms_wellformed (e : RedditEngine) : Prop :=
  ∀ k msgs, directMessages e !! k = Some msgs →
    msgs ≠ [] ∧ is_Some (users e !! k) ∧
    ∀ m, m ∈ msgs →
      DirectMessage.To m = k ∧ is_Some (users e !! DirectMessage.From m) ∧
      ∀ r, r ∈ DirectMessage.Replies m →
        DirectMessage.To r = DirectMessage.From m ∧ DirectMessage.Replies r = [].

(** What a vote resolves to: the address of the post and its author. *)
Definition vote_target (e : RedditEngine) (postID : string) : option (ptr * string) :=
  match posts e !! postID with
  | Some a =>
      match heap e !! a with
      | Some post => Some (a, Post.Author post)
      | None => None
      end
  | None => None
  end.

(** What a vote that resolves to no post returns. *)
Definition vote_failure (e : RedditEngine) (postID : string) : result unit :=
  match posts e !! postID with
  | None => Err "post not found"
  | Some _ => Panic
  end.

(** The counter of a post moved by one vote. *)
Definition cast (upvote : bool) (post : Post.t) : Post.t :=
  Post.set_Votes (GoInt.add (Post.Votes post) (vote_delta upvote)) post.

(** The two updates of a successful vote. *)
Definition vote_apply (a : ptr) (author : string) (upvote : bool) (e : RedditEngine)
  : RedditEngine :=
  mkEngine (alter (User.add_Karma (karma_delta upvote)) author (users e))
    (subreddits e) (posts e) (directMessages e) (alter (cast upvote) a (heap e)).

(** A batch of votes, on any posts, in the given order. *)
Definition cast_all (votes : list (string * bool)) (e : RedditEngine) : RedditEngine :=
  foldl (λ e v, (VotePost v.1 v.2 e).1) e votes.

(** Two resolved feed entries are the same [*Post] with the same creation
    time. *)
Definition same_entry (x y : ptr * Post.t) : Prop :=
  x.1 = y.1 ∧ Post.CreatedAt x.2 = Post.CreatedAt y.2.

(** ** The HTTP server *)

(** The request bodies; [RegisterRequest.Username] is a [*string]. *)
Module RegisterRequest.
Record t := mk { Username : option string; Password : string }.
End RegisterRequest.

Module CreateSubredditRequest.
Record t := mk { Name : string; Description : string }.
End CreateSubredditRequest.

Module CreatePostRequest.
Record t := mk { Title : string; Content : string; Subreddit : string }.
End CreatePostRequest.

Module CommentRequest.
Record t := mk { Content : string }.
End CommentRequest.

Module VoteRequest.
Record t := mk { Upvote : bool }.
End VoteRequest.

Module MessageRequest.
Record t := mk { To : string; Content : string }.
End MessageRequest.

(** The payload types local to the handlers. *)
Module PostResponse.
Record t := mk {
  ID : string;
  Title : string;
  Author : string;
  Content : string;
  Subreddit : string;
  Votes : Z;
  CreatedAt : Time
}.
End PostResponse.

Module UserInfo.
Record t := mk { Username : string; CreatedAt : Time; Karma : Z; Subreddits : Z }.
End UserInfo.

Module CommentResponse.
Inductive t := mk {
  ID : string;
  Content : string;
  Author : string;
  CreatedAt : Time;
  Votes : Z;
  Children : list t
}.
End CommentResponse.

(** What a handler hands to [writeJSON] as [Data]. *)
Inductive Data :=
| NoData
| DataStrings (m : gmap string string)
| DataPost (post : Post.t)
| DataPosts (posts : list PostResponse.t)
| DataComment (comment : Comment.t)
| DataMessage (msg : DirectMessage.t)
| DataMessages (messages : list DirectMessage.t)
| DataUsers (userList : list UserInfo.t)
| DataComments (comments : list CommentResponse.t)
| DataStats (stats : StatsResponse).

(** The envelope a handler writes; [Aborted] stands for a handler that
    panicked before writing. *)
Inductive Response :=
| ErrorResponse (Status Message : string)
| SuccessResponse (Status Message : string) (data : Data)
| Aborted.

Record APIServer := mkAPIServer {
  engine : RedditEngine;
  userCounter : Z
}.

Definition NewAPIServer (engine : RedditEngine) : APIServer := mkAPIServer engine 0.

Definition set_engine (e : RedditEngine) (s : APIServer) : APIServer :=
  mkAPIServer e (userCounter s).

(** [atomic.AddUint64(&s.userCounter, 1)]: the new value. *)
Definition AddUint64_1 (c : Z) : Z := (c + 1) mod 2 ^ 64.

(** The answer to a body that does not decode. *)
Definition invalid_request : Response := ErrorResponse "error" "Invalid request format".

(** [fmt.Sprintf("%d", len(x))] *)
Definition show_len {A} (l : list A) : string := pretty (GoInt.len l).

Section Handlers.
(** [strings.TrimSpace] of the Go standard library. *)
Variable TrimSpace : string → string.
(** [sort.Slice], as for the statistics. *)
Variable sort_Slice : list UserKarma.t → (UserKarma.t → UserKarma.t → bool) → list UserKarma.t.

(** A handler gets the decoded body ([None] when decoding fails), the
    path variables, the [Username] header and the instants it reads. *)
Definition handleRegister (req : option RegisterRequest.t) (now : Time) (s : APIServer)
  : APIServer * Response :=
  match req with
  | None => (s, invalid_request)
  | Some req =>
      let register (username : string) (s : APIServer) :=
        match RegisterUser username (RegisterRequest.Password req) now (engine s) with
        | (e', Ok _) =>
            (set_engine e' s,
             SuccessResponse "success" (username +:+ " registered successfully")
               (DataStrings {[ "username" := username ]}))
        | (e', Err err) =>
            (set_engine e' s, ErrorResponse "error" ("Failed to register user: " +:+ err))
        | (e', Panic) => (set_engine e' s, Aborted)
        end in
      match RegisterRequest.Username req with
      | None =>
          let userNum := AddUint64_1 (userCounter s) in
          register (Sprintf_d "user" userNum) (mkAPIServer (engine s) userNum)
      | Some username =>
          if decide (TrimSpace username = "") then
            (s, ErrorResponse "error" "Username cannot be empty")
          else register username s
      end
  end.

Definition handleCreateSubreddit (username : string) (req : option CreateSubredditRequest.t)
    (now : Time) (s : APIServer) : APIServer * Response :=
  match req with
  | None => (s, invalid_request)
  | Some req =>
      let name := CreateSubredditRequest.Name req in
      let description := CreateSubredditRequest.Description req in
      match CreateSubreddit name description username now (engine s) with
      | (e', Ok _) =>
          (set_engine e' s,
           SuccessResponse "success" ("Subreddit '" +:+ name +:+ "' created by " +:+ username)
             (DataStrings (<["name" := name]> (<["creator" := username]>
                             (<["description" := description]> ∅)))))
      | (e', Err err) =>
          (set_engine e' s,
           ErrorResponse "error" ("Failed to create subreddit '" +:+ name +:+ "': " +:+ err))
      | (e', Panic) => (set_engine e' s, Aborted)
      end
  end.

Definition handleJoinSubreddit (subredditName username : string) (s : APIServer)
  : APIServer * Response :=
  match JoinSubreddit username subredditName (engine s) with
  | (e', Ok _) =>
      (set_engine e' s,
       SuccessResponse "success"
         (username +:+ " joined subreddit '" +:+ subredditName +:+ "'") NoData)
  | (e', Err err) =>
      (set_engine e' s, ErrorResponse "error" ("Failed to join subreddit: " +:+ err))
  | (e', Panic) => (set_engine e' s, Aborted)
  end.

Definition handleLeaveSubreddit (subredditName username : string) (s : APIServer)
  : APIServer * Response :=
  match LeaveSubreddit username subredditName (engine s) with
  | (e', Ok _) =>
      (set_engine e' s,
       SuccessResponse "success"
         (username +:+ " left subreddit '" +:+ subredditName +:+ "'") NoData)
  | (e', Err err) =>
      (set_engine e' s, ErrorResponse "error" ("Failed to leave subreddit: " +:+ err))
  | (e', Panic) => (set_engine e' s, Aborted)
  end.

Definition handleCreatePost (username : string) (req : option CreatePostRequest.t)
    (tid now : Time) (s : APIServer) : APIServer * Response :=
  match req with
  | None => (s, invalid_request)
  | Some req =>
      match CreatePost (CreatePostRequest.Title req) (CreatePostRequest.Content req) username
              (CreatePostRequest.Subreddit req) tid now (engine s) with
      | (e', Ok post) =>
          (set_engine e' s,
           match heap e' !! post with
           | Some p =>
               SuccessResponse "success"
                 ("Post created by " +:+ username +:+ " in " +:+ CreatePostRequest.Subreddit req)
                 (DataPost p)
           | None => Aborted
           end)
      | (e', Err err) =>
          (set_engine e' s, ErrorResponse "error" ("Failed to create post: " +:+ err))
      | (e', Panic) => (set_engine e' s, Aborted)
      end
  end.

(** The loop of [handleGetPosts] over the feed. *)
Definition prettify (post : Post.t) : PostResponse.t :=
  PostResponse.mk (Post.ID post) (Post.Title post) (Post.Author post) (Post.Content post)
    (Post.Subreddit post) (Post.Votes post) (Post.CreatedAt post).

(** [order] is the enumeration of the user's joined set in [GetUserFeed]. *)
Definition handleGetPosts (username : string) (order : list string) (s : APIServer)
  : APIServer * Response :=
  match GetUserFeed username order (engine s) with
  | Ok posts =>
      match resolve (heap (engine s)) posts with
      | Some objs =>
          (s, SuccessResponse "success"
                ("Retrieved " +:+ show_len posts +:+ " posts for " +:+ username)
                (DataPosts (prettify <$> objs.*2)))
      | None => (s, Aborted)
      end
  | Err err => (s, ErrorResponse "error" ("Failed to get posts: " +:+ err))
  | Panic => (s, Aborted)
  end.

Definition handleVotePost (postID username : string) (req : option VoteRequest.t)
    (s : APIServer) : APIServer * Response :=
  match req with
  | None => (s, invalid_request)
  | Some req =>
      match VotePost postID (VoteRequest.Upvote req) (engine s) with
      | (e', Ok _) =>
          let voteType := if VoteRequest.Upvote req then "upvoted" else "downvoted" in
          (set_engine e' s,
           SuccessResponse "success"
             (username +:+ " " +:+ voteType +:+ " post " +:+ postID) NoData)
      | (e', Err err) =>
          (set_engine e' s, ErrorResponse "error" ("Failed to vote on post: " +:+ err))
      | (e', Panic) => (set_engine e' s, Aborted)
      end
  end.

Definition handleAddComment (postID username : string) (req : option CommentRequest.t)
    (tid now : Time) (s : APIServer) : APIServer * Response :=
  match req with
  | None => (s, invalid_request)
  | Some req =>
      match AddComment (CommentRequest.Content req) username postID "" tid now (engine s) with
      | (e', Ok comment) =>
          (set_engine e' s,
           SuccessResponse "success" (username +:+ " commented on post " +:+ postID)
             (DataComment comment))
      | (e', Err err) =>
          (set_engine e' s, ErrorResponse "error" ("Failed to add comment: " +:+ err))
      | (e', Panic) => (set_engine e' s, Aborted)
      end
  end.

Definition handleSendMessage (username : string) (req : option MessageRequest.t)
    (tid now : Time) (s : APIServer) : APIServer * Response :=
  match req with
  | None => (s, invalid_request)
  | Some req =>
      match SendDirectMessage username (MessageRequest.To req) (MessageRequest.Content req)
              tid now (engine s) with
      | (e', Ok msg) =>
          (set_engine e' s,
           SuccessResponse "success"
             (username +:+ " sent a message to " +:+ MessageRequest.To req) (DataMessage msg))
      | (e', Err err) =>
          (set_engine e' s, ErrorResponse "error" ("Failed to send message: " +:+ err))
      | (e', Panic) => (set_engine e' s, Aborted)
      end
  end.

Definition handleGetMessages (username : string) (s : APIServer) : APIServer * Response :=
  match GetDirectMessages username (engine s) with
  | Ok messages =>
      (s, SuccessResponse "success"
            ("Retrieved " +:+ show_len messages +:+ " messages for " +:+ username)
            (DataMessages messages))
  | Err err => (s, ErrorResponse "error" ("Failed to get messages: " +:+ err))
  | Panic => (s, Aborted)
  end.

(** The loop of [handleGetUsers]; [us] enumerates [engine.users]. *)
Fixpoint userList_loop (us : list (string * User.t)) (userList : list UserInfo.t)
  : list UserInfo.t :=
  match us with
  | [] => userList
  | (username, user) :: rest =>
      userList_loop rest
        (userList ++ [UserInfo.mk username (User.CreatedAt user) (User.Karma user)
                        (Z.of_nat (size (User.Subreddits user)))])
  end.

Definition handleGetUsers (us : list (string * User.t)) (s : APIServer)
  : APIServer * Response :=
  let userList := userList_loop us [] in
  (s, SuccessResponse "success" ("Retrieved " +:+ show_len userList +:+ " users")
        (DataUsers userList)).

(** The recursive closure [convertComment] of [handleGetComments]. *)
Fixpoint convertComment (c : Comment.t) : CommentResponse.t :=
  CommentResponse.mk (Comment.ID c) (Comment.Content c) (Comment.Author c)
    (Comment.CreatedAt c) (Comment.Votes c)
    ((fix loop (cs : list Comment.t) (children : list CommentResponse.t) {struct cs} :=
        match cs with
        | [] => children
        | child :: rest => loop rest (children ++ [convertComment child])
        end) (Comment.Children c) []).

Fixpoint convert_loop (cs : list Comment.t) (comments : list CommentResponse.t)
  : list CommentResponse.t :=
  match cs with
  | [] => comments
  | comment :: rest => convert_loop rest (comments ++ [convertComment comment])
  end.

Definition handleGetComments (postID : string) (s : APIServer) : APIServer * Response :=
  match posts (engine s) !! postID with
  | None => (s, ErrorResponse "error" "Post not found")
  | Some a =>
      match heap (engine s) !! a with
      | None => (s, Aborted)
      | Some post =>
          let comments := convert_loop (Post.Comments post) [] in
          (s, SuccessResponse "success"
                ("Retrieved " +:+ show_len comments +:+ " comments for post " +:+ postID)
                (DataComments comments))
      end
  end.

(** [handleGetStats] with the envelope it writes. *)
Definition handleGetStats_response (ps : list (string * ptr)) (us : list (string * User.t))
    (ds : list (string * list DirectMessage.t)) (s : APIServer) : APIServer * Response :=
  match handleGetStats sort_Slice ps us ds (engine s) with
  | Ok stats =>
      (s, SuccessResponse "success" "Statistics retrieved successfully" (DataStats stats))
  | _ => (s, Aborted)
  end.

(** A routed request: the handler that [setupRoutes] binds to its method
    and path, with what the handler reads from it. *)
Inductive Request :=
| PostRegister (req : option RegisterRequest.t) (now : Time)
| PostSubreddits (username : string) (req : option CreateSubredditRequest.t) (now : Time)
| PostJoin (name username : string)
| PostLeave (name username : string)
| PostPosts (username : string) (req : option CreatePostRequest.t) (tid now : Time)
| GetPosts (username : string) (order : list string)
| PostVote (id username : string) (req : option VoteRequest.t)
| PostComments (id username : string) (req : option CommentRequest.t) (tid now : Time)
| PostMessages (username : string) (req : option MessageRequest.t) (tid now : Time)
| GetMessages (username : string)
| GetUsers (us : list (string * User.t))
| GetComments_ (id : string)
| GetStats (ps : list (string * ptr)) (us : list (string * User.t))
    (ds : list (string * list DirectMessage.t)).

Definition serve (r : Request) (s : APIServer) : APIServer * Response :=
  match r with
  | PostRegister req now => handleRegister req now s
  | PostSubreddits username req now => handleCreateSubreddit username req now s
  | PostJoin name username => handleJoinSubreddit name username s
  | PostLeave name username => handleLeaveSubreddit name username s
  | PostPosts username req tid now => handleCreatePost username req tid now s
  | GetPosts username order => handleGetPosts username order s
  | PostVote id username req => handleVotePost id username req s
  | PostComments id username req tid now => handleAddComment id username req tid now s
  | PostMessages username req tid now => handleSendMessage username req tid now s
  | GetMessages username => handleGetMessages username s
  | GetUsers us => handleGetUsers us s
  | GetComments_ id => handleGetComments id s
  | GetStats ps us ds => handleGetStats_response ps us ds s
  end.

(** A sequence of requests served one at a time: the server it leaves and
    the responses, in order. *)
Fixpoint serve_each (rs : list Request) (s : APIServer) : APIServer * list Response :=
  match rs with
  | [] => (s, [])
  | r :: rest =>
      let (s', resp) := serve r s in
      let (s'', resps) := serve_each rest s' in
      (s'', resp :: resps)
  end.

Definition serve_all (rs : list Request) (s : APIServer) : APIServer := (serve_each rs s).1.
End Handlers.

(** The requests that [setupRoutes] binds to the method GET. *)
Definition is_get (r : Request) : bool :=
  match r with
  | GetPosts _ _ | GetMessages _ | GetUsers _ | GetComments_ _ | GetStats _ _ _ => true
  | _ => false
  end.

(** The body that [APIClient.Register] posts to [/api/register]: the
    [username] argument is not put into it. *)
Definition APIClient_Register (username password : string) : RegisterRequest.t :=
  RegisterRequest.mk None password.

(** The registrations of a list of callers, each with the user name it
    passes, its password and the instant the server reads. *)
Definition registrations (callers : list (string * string * Time)) : list Request :=
  (λ c, PostRegister (Some (APIClient_Register c.1.1 c.1.2)) c.2) <$> callers.

(** The account that the [i]-th registration after counter value [c]
    creates for a caller. *)
Definition auto_name (c : Z) (i : nat) : string := Sprintf_d "user" (c + Z.of_nat (S i)).
Definition auto_user (c : Z) (i : nat) (caller : string * string * Time) : User.t :=
  User.mk (auto_name c i) caller.1.2 0 caller.2 ∅.
Definition registered_response (username : string) : Response :=
  SuccessResponse "success" (username +:+ " registered successfully")
    (DataStrings {[ "username" := username ]}).

(** The operations the handlers can issue: every [AddComment] has an empty
    parent id, and [ReplyToDirectMessage] is bound to no route. *)
Definition http_op (op : Op) : Prop :=
  match op with
  | OpAddComment _ _ _ parent _ _ => parent = ""
  | OpReplyToDirectMessage _ _ _ _ _ _ => False
  | _ => True
  end.

(** No comment has a child and no message has a reply. *)
Definition flat (e : RedditEngine) : Prop :=
  (∀ a p c, heap e !! a = Some p → c ∈ Post.Comments p → Comment.Children c = []) ∧
  (∀ k i m, inbox e k !! i = Some m → DirectMessage.Replies m = []).

(** Size of a converted comment tree, and of a forest of them. *)
Fixpoint response_size (c : CommentResponse.t) : nat :=
  S (foldr (λ c' n, (response_size c' + n)%nat) O (CommentResponse.Children c)).
Definition responses_size (cs : list CommentResponse.t) : nat :=
  foldr (λ c n, (response_size c + n)%nat) O cs.


(** The enumerations that a request carries are those of the maps its
    handler ranges over. *)
Definition enumerates (r : Request) (e : RedditEngine) : Prop :=
  match r with
  | GetPosts username order =>
      ∀ user, users e !! username = Some user → order ≡ₚ elements (User.Subreddits user)
  | GetUsers us => us ≡ₚ map_to_list (users e)
  | GetStats ps us ds =>
      ps ≡ₚ map_to_list (posts e) ∧ us ≡ₚ map_to_list (users e) ∧
      ds ≡ₚ map_to_list (directMessages e)
  | _ => True
  end.

Section Sessions.
Variable TrimSpace : string → string.
Variable sort_Slice : list UserKarma.t → (UserKarma.t → UserKarma.t → bool) → list UserKarma.t.

(** A sequence of requests, each with the enumerations of the store it
    meets. *)
Fixpoint session (rs : list Request) (s : APIServer) : Prop :=
  match rs with
  | [] => True
  | r :: rest =>
      enumerates r (engine s) ∧ session rest (serve TrimSpace sort_Slice r s).1
  end.
End Sessions.

(** [strings.TrimSpace] on a string of ASCII characters: the white space
    of ASCII is cut off both ends. *)
Fixpoint trim_left (s : string) : string :=
  match s with
  | String c rest => if Ascii.is_space c then trim_left rest else s
  | EmptyString => EmptyString
  end.
Definition TrimSpace_ascii (s : string) : string :=
  String.rev (trim_left (String.rev (trim_left s))).

(** An example exchange with a new server. *)
Definition http_session : list Request :=
  [PostRegister (Some (RegisterRequest.mk (Some "alice") "pw")) 1;
   PostRegister (Some (APIClient_Register "bob" "pw")) 2;
   PostSubreddits "alice" (Some (CreateSubredditRequest.mk "science" "Facts")) 3;
   PostJoin "science" "alice";
   PostPosts "alice" (Some (CreatePostRequest.mk "Hello" "World" "science")) 4 4;
   PostComments "post_4" "user1" (Some (CommentRequest.mk "Nice")) 5 5;
   PostComments "post_4" "alice" (Some (CommentRequest.mk "Thanks")) 6 6;
   PostVote "post_4" "user1" (Some (VoteRequest.mk true));
   PostMessages "alice" (Some (MessageRequest.mk "user1" "hi")) 7 7;
   GetPosts "alice" ["science"];
   GetComments_ "post_4";
   GetMessages "user1";
   GetUsers [("user1", User.mk "user1" "pw" 0 2 ∅);
             ("alice", User.mk "alice" "pw" 1 1 {["science"]})];
   PostRegister (Some (RegisterRequest.mk (Some "   ") "pw")) 8;
   PostVote "post_9" "alice" None].


(** ** Printing a comment tree *)

(** [count] copies of [s], one after the other. *)
Fixpoint copies (s : string) (n : nat) : string :=
  match n with
  | O => ""
  | S n' => s +:+ copies s n'
  end.

Definition newline : string := String (Ascii.ascii_of_nat 10) "".

(** [fmt.Printf("%s- %s (by %s)\n", pad, comment.Content, comment.Author)]:
    what the call writes. *)
Definition comment_line (pad : string) (comment : Comment.t) : string :=
  pad +:+ "- " +:+ Comment.Content comment +:+ " (by " +:+ Comment.Author comment
      +:+ ")" +:+ newline.

Section PrintCommentTree.
(** [strings.Repeat] of the Go standard library: the string it returns,
    or [None] when it panics (a negative count, a result too long for
    [int], a result that cannot be allocated). *)
Variable Repeat : string → Z → option string.

(** One iteration of the loop of [PrintCommentTree] on the element
    [comment]; [out] is what has been written so far, one entry per call
    of [Printf]. *)
Fixpoint PrintCommentTree_in (comment : Comment.t) (indent : Z) (out : list string)
  : list string * result unit :=
  match Repeat "  " indent with
  | None => (out, Panic)
  | Some pad =>
      (fix loop (cs : list Comment.t) (out : list string) {struct cs}
         : list string * result unit :=
         match cs with
         | [] => (out, Ok ())
         | c' :: cs' =>
             match PrintCommentTree_in c' (GoInt.add indent 1) out with
             | (out', Ok _) => loop cs' out'
             | r => r
             end
         end) (Comment.Children comment) (out ++ [comment_line pad comment])
  end.

Fixpoint PrintCommentTree (comments : list Comment.t) (indent : Z) (out : list string)
  : list string * result unit :=
  match comments with
  | [] => (out, Ok ())
  | comment :: rest =>
      match PrintCommentTree_in comment indent out with
      | (out', Ok _) => PrintCommentTree rest indent out'
      | r => r
      end
  end.
End PrintCommentTree.

(** A [strings.Repeat] whose results can be built up to [limit] copies:
    it panics on a negative count and beyond [limit]. *)
Definition Repeat_upto (limit : Z) (s : string) (count : Z) : option string :=
  if decide (count < 0 ∨ limit < count) then None
  else Some (copies s (Z.to_nat count)).

(** The nodes of a comment tree, parent before children and children in
    their order, each with its depth; and the same for a forest. *)
Fixpoint outline_in (d : nat) (c : Comment.t) : list (nat * Comment.t) :=
  (d, c) :: foldr (λ c' l, outline_in (S d) c' ++ l) [] (Comment.Children c).
Definition outline (d : nat) (cs : list Comment.t) : list (nat * Comment.t) :=
  foldr (λ c l, outline_in d c ++ l) [] cs.

(** Number of levels of a comment tree, and of a forest. *)
Fixpoint tree_height (c : Comment.t) : nat :=
  S (foldr (λ c' n, Nat.max (tree_height c') n) O (Comment.Children c)).
Definition forest_height (cs : list Comment.t) : nat :=
  foldr (λ c n, Nat.max (tree_height c) n) O cs.

(** The line of a node at depth [x.1]: two spaces per level. *)
Definition outline_line (x : nat * Comment.t) : string :=
  comment_line (copies "  " x.1) x.2.


(** A comment with one reply, as [PrintCommentTree] may get it. *)
Definition thread_example : list Comment.t :=
  [Comment.mk "comment_1" "First" "alice" "" 1 0
     [Comment.mk "comment_2" "Second" "bob" "comment_1" 2 0 []];
   Comment.mk "comment_3" "Third" "carol" "" 3 0 []].

(** The fields of a comment other than its children. *)
Definition comment_static (c : Comment.t)
  : string * string * string * string * Time * Z :=
  (Comment.ID c, Comment.Content c, Comment.Author c, Comment.ParentID c,
   Comment.CreatedAt c, Comment.Votes c).

(** * Proofs *)

(** ** Wrap-around arithmetic *)

Module GoIntFacts.
Import GoInt.

Lemma wrap_in_range z : in_range z → wrap z = z.
Proof.
  unfold in_range, int_min, int_max, wrap. intros Hz.
  rewrite Z.mod_small by lia. lia.
Qed.

Lemma wrap_range z : in_range (wrap z).
Proof.
  unfold in_range, int_min, int_max, wrap.
  pose proof (Z.mod_pos_bound (z + 2 ^ 63) (2 ^ 64)). lia.
Qed.

Lemma wrap_add_l a b : wrap (wrap a + b) = wrap (a + b).
Proof.
  unfold wrap. f_equal.
  replace ((a + 2 ^ 63) mod 2 ^ 64 - 2 ^ 63 + b + 2 ^ 63)
    with ((a + 2 ^ 63) mod 2 ^ 64 + b) by lia.
  rewrite Zplus_mod_idemp_l. f_equal. lia.
Qed.

Lemma wrap_add_r a b : wrap (a + wrap b) = wrap (a + b).
Proof. rewrite (Z.add_comm a), wrap_add_l. f_equal. lia. Qed.

Lemma add_wrap_l a b : add (wrap a) b = wrap (a + b).
Proof. apply wrap_add_l. Qed.

Lemma add_neg_r a b : add (wrap a) (neg b) = wrap (a + - b).
Proof. unfold add, neg. by rewrite wrap_add_l, wrap_add_r. Qed.
End GoIntFacts.

(** ** Records and their updates *)

Lemma engine_eta e :
  mkEngine (users e) (subreddits e) (posts e) (directMessages e) (heap e) = e.
Proof. by destruct e. Qed.

Lemma set_users_id e : set_users (users e) e = e.
Proof. apply engine_eta. Qed.

Lemma set_subreddits_id e : set_subreddits (subreddits e) e = e.
Proof. apply engine_eta. Qed.

Lemma user_set_Subreddits_id u : User.set_Subreddits (User.Subreddits u) u = u.
Proof. by destruct u. Qed.

Lemma subreddit_set_Members_id s : Subreddit.set_Members (Subreddit.Members s) s = s.
Proof. by destruct s. Qed.

(** ** Registration *)

Lemma RegisterUser_fresh username password now e :
  users e !! username = None →
  RegisterUser username password now e =
    (set_users (<[username := User.mk username password 0 now ∅]> (users e)) e, Ok ()).
Proof. intros H. unfold RegisterUser. by rewrite H. Qed.

Lemma RegisterUser_taken username password now e :
  is_Some (users e !! username) →
  RegisterUser username password now e = (e, Err (AlreadyExists "user")).
Proof. intros [u H]. unfold RegisterUser. by rewrite H. Qed.

(** C5. A first [RegisterUser(u, p)] (no user [u] yet) succeeds and stores
    a user with karma 0 and no joined subreddit, leaving the other users
    as they were; in the state it leaves, and in every state where [u] is
    registered, [RegisterUser(u, p')] fails with AlreadyExists and changes
    nothing. *)
Theorem C5_register_once (u p : string) (now : Time) (e : RedditEngine) :
  users e !! u = None →
  ∃ e1 user,
    RegisterUser u p now e = (e1, Ok ()) ∧
    users e1 !! u = Some user ∧
    User.Username user = u ∧ User.Password user = p ∧
    User.Karma user = 0 ∧ User.Subreddits user = ∅ ∧
    (∀ v, v ≠ u → users e1 !! v = users e !! v) ∧
    (∀ p' now', RegisterUser u p' now' e1 = (e1, Err (AlreadyExists "user"))) ∧
    (∀ e2 p' now', is_Some (users e2 !! u) →
       RegisterUser u p' now' e2 = (e2, Err (AlreadyExists "user"))).
Proof.
  intros Hfresh. eexists _, _.
  split; [by apply RegisterUser_fresh|].
  split; [apply lookup_insert_eq|]. simpl.
  repeat split; try done.
  - intros v Hv. by apply lookup_insert_ne.
  - intros p' now'. apply RegisterUser_taken. simpl.
    rewrite lookup_insert_eq. by eexists.
  - intros e2 p' now' H. by apply RegisterUser_taken.
Qed.

Lemma C5_register_once_witness :
  ∃ e1 user,
    RegisterUser "alice" "pw" 7 NewRedditEngine = (e1, Ok ()) ∧
    users e1 !! "alice" = Some user ∧
    User.Username user = "alice" ∧ User.Password user = "pw" ∧
    User.Karma user = 0 ∧ User.Subreddits user = ∅ ∧
    (∀ v, v ≠ "alice" → users e1 !! v = users NewRedditEngine !! v) ∧
    (∀ p' now', RegisterUser "alice" p' now' e1 = (e1, Err (AlreadyExists "user"))) ∧
    (∀ e2 p' now', is_Some (users e2 !! "alice") →
       RegisterUser "alice" p' now' e2 = (e2, Err (AlreadyExists "user"))).
Proof. apply (C5_register_once "alice" "pw" 7 NewRedditEngine). reflexivity. Defined.

(** ** Membership *)

Lemma JoinSubreddit_ok username subredditName e user subreddit :
  users e !! username = Some user → subreddits e !! subredditName = Some subreddit →
  JoinSubreddit username subredditName e =
    (set_subreddits
       (<[subredditName :=
            Subreddit.set_Members ({[username]} ∪ Subreddit.Members subreddit) subreddit]>
          (subreddits e))
       (set_users
          (<[username :=
               User.set_Subreddits ({[subredditName]} ∪ User.Subreddits user) user]> (users e))
          e), Ok ()).
Proof. intros Hu Hs. unfold JoinSubreddit. by rewrite Hu, Hs. Qed.

Lemma LeaveSubreddit_ok username subredditName e user subreddit :
  users e !! username = Some user → subreddits e !! subredditName = Some subreddit →
  LeaveSubreddit username subredditName e =
    (set_subreddits
       (<[subredditName :=
            Subreddit.set_Members (Subreddit.Members subreddit ∖ {[username]}) subreddit]>
          (subreddits e))
       (set_users
          (<[username :=
               User.set_Subreddits (User.Subreddits user ∖ {[subredditName]}) user]> (users e))
          e), Ok ()).
Proof. intros Hu Hs. unfold LeaveSubreddit. by rewrite Hu, Hs. Qed.

Lemma LeaveSubreddit_absent username subredditName e user subreddit :
  users e !! username = Some user → subreddits e !! subredditName = Some subreddit →
  subredditName ∉ User.Subreddits user → username ∉ Subreddit.Members subreddit →
  LeaveSubreddit username subredditName e = (e, Ok ()).
Proof.
  intros Hu Hs Hnj Hnm. rewrite (LeaveSubreddit_ok _ _ _ _ _ Hu Hs). f_equal.
  assert (User.Subreddits user ∖ {[subredditName]} = User.Subreddits user) as -> by set_solver.
  assert (Subreddit.Members subreddit ∖ {[username]} = Subreddit.Members subreddit) as ->
    by set_solver.
  rewrite user_set_Subreddits_id, subreddit_set_Members_id.
  rewrite !insert_id by done. by rewrite set_users_id, set_subreddits_id.
Qed.

Lemma JoinSubreddit_twice username subredditName e e1 :
  JoinSubreddit username subredditName e = (e1, Ok ()) →
  JoinSubreddit username subredditName e1 = (e1, Ok ()).
Proof.
  unfold JoinSubreddit at 1.
  destruct (users e !! username) as [user|] eqn:Hu; [|done].
  destruct (subreddits e !! subredditName) as [sub|] eqn:Hs; [|done].
  intros [= <-].
  erewrite JoinSubreddit_ok; [|simpl; apply lookup_insert_eq ..].
  unfold set_subreddits, set_users, User.set_Subreddits, Subreddit.set_Members; simpl.
  rewrite !insert_insert_eq.
  assert (∀ (x : string) (X : gset string), {[x]} ∪ ({[x]} ∪ X) = {[x]} ∪ X) as Hidem
    by set_solver.
  by rewrite !Hidem.
Qed.

Lemma Leave_after_Join username subredditName e e1 user subreddit :
  users e !! username = Some user → subreddits e !! subredditName = Some subreddit →
  subredditName ∉ User.Subreddits user → username ∉ Subreddit.Members subreddit →
  JoinSubreddit username subredditName e = (e1, Ok ()) →
  LeaveSubreddit username subredditName e1 = (e, Ok ()).
Proof.
  intros Hu Hs Hnj Hnm. rewrite (JoinSubreddit_ok _ _ _ _ _ Hu Hs). intros [= <-].
  erewrite LeaveSubreddit_ok; [|simpl; apply lookup_insert_eq ..].
  unfold set_subreddits, set_users, User.set_Subreddits, Subreddit.set_Members; simpl.
  rewrite !insert_insert_eq.
  assert (({[subredditName]} ∪ User.Subreddits user) ∖ {[subredditName]}
          = User.Subreddits user) as -> by set_solver.
  assert (({[username]} ∪ Subreddit.Members subreddit) ∖ {[username]}
          = Subreddit.Members subreddit) as -> by set_solver.
  f_equal. destruct e as [us ss ps ds h], user, subreddit; simpl in *.
  by rewrite !insert_id.
Qed.

(** C6. [LeaveSubreddit(u, s)] fails with NotFound exactly when the user or
    the subreddit is missing (the user is looked up first).  When both
    exist it succeeds; afterwards [s] is not in the user's joined set and
    [u] is not in the subreddit's member set, both sets keep every other
    entry, and nothing else is touched: the fields of the user and of the
    subreddit, the other users and subreddits, posts and inboxes.  If the
    user was not a member, the state is unchanged.  [JoinSubreddit] puts
    both entries in, is idempotent, and a leave undoes a join that added
    the membership. *)
Theorem C6_leave_subreddit (u s : string) (e : RedditEngine) :
  (is_NotFound (LeaveSubreddit u s e).2 ↔
     users e !! u = None ∨ subreddits e !! s = None) ∧
  (users e !! u = None → LeaveSubreddit u s e = (e, Err (NotFound "user"))) ∧
  (is_Some (users e !! u) → subreddits e !! s = None →
     LeaveSubreddit u s e = (e, Err (NotFound "subreddit"))) ∧
  (∀ user sub, users e !! u = Some user → subreddits e !! s = Some sub →
     ∃ e', LeaveSubreddit u s e = (e', Ok ()) ∧
       users e' = <[u := User.set_Subreddits (User.Subreddits user ∖ {[s]}) user]> (users e) ∧
       subreddits e' =
         <[s := Subreddit.set_Members (Subreddit.Members sub ∖ {[u]}) sub]> (subreddits e) ∧
       posts e' = posts e ∧ directMessages e' = directMessages e ∧ heap e' = heap e ∧
       (s ∉ User.Subreddits user → u ∉ Subreddit.Members sub → e' = e) ∧
       (∀ e1, JoinSubreddit u s e = (e1, Ok ()) →
          JoinSubreddit u s e1 = (e1, Ok ()) ∧
          (s ∉ User.Subreddits user → u ∉ Subreddit.Members sub →
             LeaveSubreddit u s e1 = (e, Ok ())) ∧
          ∃ user1 sub1, users e1 !! u = Some user1 ∧ subreddits e1 !! s = Some sub1 ∧
            s ∈ User.Subreddits user1 ∧ u ∈ Subreddit.Members sub1 ∧
            (∀ t, t ≠ s → (t ∈ User.Subreddits user1 ↔ t ∈ User.Subreddits user)) ∧
            (∀ v, v ≠ u → (v ∈ Subreddit.Members sub1 ↔ v ∈ Subreddit.Members sub))) ∧
       (∃ user' sub', users e' !! u = Some user' ∧ subreddits e' !! s = Some sub' ∧
          (s ∉ User.Subreddits user') ∧ (u ∉ Subreddit.Members sub') ∧
          (∀ t, t ≠ s → (t ∈ User.Subreddits user' ↔ t ∈ User.Subreddits user)) ∧
          (∀ v, v ≠ u → (v ∈ Subreddit.Members sub' ↔ v ∈ Subreddit.Members sub)) ∧
          User.Username user' = User.Username user ∧
          User.Password user' = User.Password user ∧
          User.Karma user' = User.Karma user ∧
          User.CreatedAt user' = User.CreatedAt user ∧
          Subreddit.Name sub' = Subreddit.Name sub ∧
          Subreddit.Description sub' = Subreddit.Description sub ∧
          Subreddit.Creator sub' = Subreddit.Creator sub ∧
          Subreddit.CreatedAt sub' = Subreddit.CreatedAt sub ∧
          Subreddit.Posts sub' = Subreddit.Posts sub) ∧
       (∀ v, v ≠ u → users e' !! v = users e !! v) ∧
       (∀ t, t ≠ s → subreddits e' !! t = subreddits e !! t)).
Proof.
  split; [|split; [|split]].
  - unfold LeaveSubreddit.
    destruct (users e !! u) as [user|] eqn:Hu.
    + destruct (subreddits e !! s) as [sub|] eqn:Hs; simpl.
      * split; [intros [w Hw]; discriminate | intros [?|?]; discriminate].
      * split; [by right | intros _; by exists "subreddit"].
    + simpl. split; [by left | intros _; by exists "user"].
  - intros Hu. unfold LeaveSubreddit. by rewrite Hu.
  - intros [user Hu] Hs. unfold LeaveSubreddit. by rewrite Hu, Hs.
  - intros user sub Hu Hs. eexists. split; [by apply LeaveSubreddit_ok|].
    simpl. do 5 (split; [done|]). split; [|split; [|split; [|split]]].
    + intros Hnj Hnm.
      pose proof (LeaveSubreddit_absent _ _ _ _ _ Hu Hs Hnj Hnm) as H.
      rewrite (LeaveSubreddit_ok _ _ _ _ _ Hu Hs) in H. by injection H.
    + intros e1 Hj. split; [by eapply JoinSubreddit_twice|].
      split; [intros Hnj Hnm; by eapply Leave_after_Join|].
      rewrite (JoinSubreddit_ok _ _ _ _ _ Hu Hs) in Hj. injection Hj as <-.
      eexists _, _. simpl.
      split; [apply lookup_insert_eq|]. split; [apply lookup_insert_eq|]. simpl.
      repeat split; set_solver.
    + eexists _, _.
      split; [apply lookup_insert_eq|]. split; [apply lookup_insert_eq|]. simpl.
      split; [set_solver|]. split; [set_solver|].
      split; [intros t Ht; set_solver|]. split; [intros v Hv; set_solver|]. done.
    + intros v Hv. by apply lookup_insert_ne.
    + intros t Ht. by apply lookup_insert_ne.
Qed.

Lemma C6_leave_subreddit_witness :
  ∃ e' user' sub', LeaveSubreddit "bob" "science" e_bob_member = (e', Ok ()) ∧
    users e' !! "bob" = Some user' ∧ subreddits e' !! "science" = Some sub' ∧
    ("science" ∉ User.Subreddits user') ∧ "bob" ∉ Subreddit.Members sub'.
Proof.
  destruct (C6_leave_subreddit "bob" "science" e_bob_member) as (_ & _ & _ & H).
  destruct (H (User.mk "bob" "pw" 0 1 ({["science"]} ∪ ∅))
              (Subreddit.mk "science" "d" "alice" 2 [] ({["bob"]} ∪ ∅)))
    as (e' & Hl & _ & _ & _ & _ & _ & _ & _ & (user' & sub' & Hu & Hs & Hnj & Hnm & _) & _);
    [reflexivity | reflexivity |].
  exists e', user', sub'. do 4 (split; [assumption|]). exact Hnm.
Defined.

(** ** Voting *)

Lemma VotePost_found postID upvote e a post :
  posts e !! postID = Some a → heap e !! a = Some post →
  VotePost postID upvote e =
    (updateKarma (Post.Author post) (karma_delta upvote)
       (set_heap (<[a := Post.set_Votes (GoInt.add (Post.Votes post) (vote_delta upvote)) post]>
                    (heap e)) e), Ok ()).
Proof. intros Hp Hh. unfold VotePost. rewrite Hp, Hh. by destruct upvote. Qed.

Lemma updateKarma_posts u v e : posts (updateKarma u v e) = posts e.
Proof. unfold updateKarma. by destruct (users e !! u). Qed.

Lemma updateKarma_heap u v e : heap (updateKarma u v e) = heap e.
Proof. unfold updateKarma. by destruct (users e !! u). Qed.

Lemma updateKarma_subreddits u v e : subreddits (updateKarma u v e) = subreddits e.
Proof. unfold updateKarma. by destruct (users e !! u). Qed.

Lemma updateKarma_directMessages u v e :
  directMessages (updateKarma u v e) = directMessages e.
Proof. unfold updateKarma. by destruct (users e !! u). Qed.

Lemma updateKarma_unregistered u v e : users e !! u = None → updateKarma u v e = e.
Proof. intros H. unfold updateKarma. by rewrite H. Qed.

Lemma updateKarma_author u v e user :
  users e !! u = Some user →
  users (updateKarma u v e) !! u = Some (User.add_Karma v user).
Proof. intros H. unfold updateKarma. rewrite H. simpl. apply lookup_insert_eq. Qed.

Lemma updateKarma_others u v e w :
  w ≠ u → users (updateKarma u v e) !! w = users e !! w.
Proof.
  intros H. unfold updateKarma. destruct (users e !! u); [|done].
  simpl. by apply lookup_insert_ne.
Qed.

Lemma upvotes_cons v vs : upvotes (v :: vs) = (if v then 1 else 0) + upvotes vs.
Proof.
  unfold upvotes. rewrite filter_cons. destruct v; case_decide; try done; simpl; lia.
Qed.

Lemma downvotes_cons v vs : downvotes (v :: vs) = (if v then 0 else 1) + downvotes vs.
Proof.
  unfold downvotes. rewrite filter_cons. destruct v; case_decide; try done; simpl; lia.
Qed.

(** The effect of a sequence of votes, from any value of the counter. *)
Lemma vote_seq_effect postID a votes : ∀ e post,
  posts e !! postID = Some a → heap e !! a = Some post →
  GoInt.in_range (Post.Votes post) →
  ∃ e' post',
    vote_seq postID votes e = (e', Ok ()) ∧
    posts e' = posts e ∧
    heap e' !! a = Some post' ∧
    Post.Author post' = Post.Author post ∧
    Post.Votes post' =
      GoInt.wrap (Post.Votes post + (2 * upvotes votes - downvotes votes)) ∧
    (∀ w, w ≠ Post.Author post → users e' !! w = users e !! w) ∧
    (users e !! Post.Author post = None → users e' = users e) ∧
    (∀ user, users e !! Post.Author post = Some user → GoInt.in_range (User.Karma user) →
       ∃ user', users e' !! Post.Author post = Some user' ∧
         User.Karma user' =
           GoInt.wrap (User.Karma user + (upvotes votes - downvotes votes))).
Proof.
  induction votes as [|v vs IH]; intros e post Hp Hh Hr.
  - exists e, post. simpl. unfold upvotes, downvotes. simpl.
    do 4 (split; [done|]). split; [|split; [done|split; [done|]]].
    + rewrite Z.add_0_r. symmetry. by apply GoIntFacts.wrap_in_range.
    + intros user Hu Hk. exists user. split; [done|].
      rewrite Z.add_0_r. symmetry. by apply GoIntFacts.wrap_in_range.
  - simpl. rewrite (VotePost_found _ _ _ _ _ Hp Hh).
    set (post1 := Post.set_Votes (GoInt.add (Post.Votes post) (vote_delta v)) post).
    set (e1 := updateKarma _ _ _).
    assert (posts e1 !! postID = Some a) as Hp1
      by (unfold e1; by rewrite updateKarma_posts).
    assert (heap e1 !! a = Some post1) as Hh1.
    { unfold e1. rewrite updateKarma_heap. simpl.
      apply list_lookup_insert_eq. by eapply lookup_lt_Some. }
    destruct (IH e1 post1 Hp1 Hh1) as (e' & post' & Hrun & Hps & Hh' & Hau & Hv & Hoth & Hno & Hka).
    { apply GoIntFacts.wrap_range. }
    exists e', post'. split; [done|].
    split; [by rewrite Hps; unfold e1; rewrite updateKarma_posts|].
    split; [done|]. split; [done|].
    rewrite upvotes_cons, downvotes_cons.
    split; [|split; [|split]].
    + rewrite Hv. simpl. unfold GoInt.add. rewrite GoIntFacts.wrap_add_l.
      f_equal. destruct v; simpl; lia.
    + intros w Hw. rewrite (Hoth w Hw). unfold e1. by rewrite updateKarma_others.
    + intros Hnone. rewrite Hno; unfold e1; simpl; by rewrite updateKarma_unregistered.
    + intros user Hu Hk.
      destruct (Hka (User.add_Karma (karma_delta v) user)) as (user' & Hu' & Hk').
      { unfold e1. by apply updateKarma_author. }
      { apply GoIntFacts.wrap_range. }
      exists user'. split; [done|]. rewrite Hk'. simpl.
      unfold GoInt.add. rewrite GoIntFacts.wrap_add_l. f_equal. destruct v; simpl; lia.
Qed.

(** C1. Any sequence of votes on a post whose counter is 0, with [N]
    upvotes and [M] downvotes in any order: every call succeeds, the
    counter ends at [2N - M] and a registered author's karma has moved by
    [N - M], both in [int] arithmetic (exactly so whenever the values fit
    the type); no other user's karma moves. *)
Theorem C1_votes_and_karma (e : RedditEngine) (postID : string) (a : ptr) (post : Post.t)
    (votes : list bool) :
  posts e !! postID = Some a → heap e !! a = Some post → Post.Votes post = 0 →
  ∃ e' post',
    vote_seq postID votes e = (e', Ok ()) ∧
    heap e' !! a = Some post' ∧
    Post.Votes post' = GoInt.wrap (2 * upvotes votes - downvotes votes) ∧
    (GoInt.in_range (2 * upvotes votes - downvotes votes) →
       Post.Votes post' = 2 * upvotes votes - downvotes votes) ∧
    (∀ w, w ≠ Post.Author post → users e' !! w = users e !! w) ∧
    (∀ user, users e !! Post.Author post = Some user → GoInt.in_range (User.Karma user) →
       ∃ user', users e' !! Post.Author post = Some user' ∧
         User.Karma user' =
           GoInt.wrap (User.Karma user + (upvotes votes - downvotes votes)) ∧
         (GoInt.in_range (User.Karma user + (upvotes votes - downvotes votes)) →
            User.Karma user' - User.Karma user = upvotes votes - downvotes votes)).
Proof.
  intros Hp Hh H0.
  destruct (vote_seq_effect postID a votes e post Hp Hh)
    as (e' & post' & Hrun & _ & Hh' & _ & Hv & Hoth & _ & Hka).
  { rewrite H0. by compute. }
  rewrite H0, Z.add_0_l in Hv.
  exists e', post'. do 2 (split; [done|]). split; [done|].
  split; [intros Hr; by rewrite Hv, GoIntFacts.wrap_in_range|].
  split; [done|].
  intros user Hu Hk. destruct (Hka user Hu Hk) as (user' & Hu' & Hk').
  exists user'. do 2 (split; [done|]).
  intros Hr. rewrite Hk', GoIntFacts.wrap_in_range by done. lia.
Qed.

Lemma C1_votes_and_karma_witness :
  ∃ e' post',
    vote_seq "post_5" [true; false; true] e_alice_post = (e', Ok ()) ∧
    heap e' !! 0%nat = Some post' ∧ Post.Votes post' = 3 ∧
    ∃ user', users e' !! "alice" = Some user' ∧ User.Karma user' = 1.
Proof.
  destruct (C1_votes_and_karma e_alice_post "post_5" 0%nat
              (Post.mk "post_5" "H" "C" "alice" "science" 5 0 []) [true; false; true])
    as (e' & post' & Hrun & Hh & _ & Hv & _ & Hk); [reflexivity ..|].
  destruct (Hk (User.mk "alice" "pw" 0 0 ∅)) as (user' & Hu & _ & Hd);
    [reflexivity | by compute |].
  exists e', post'. split; [exact Hrun|]. split; [exact Hh|].
  split; [apply Hv; by compute|].
  exists user'. split; [exact Hu|].
  simpl in Hd. rewrite Z.sub_0_r in Hd. apply Hd. by compute.
Defined.

(** C8. A vote on a post whose author is not a registered user succeeds
    and moves the post's counter by +2 or -1 as usual; the user map is
    unchanged, so no karma moves, and nothing else changes. *)
Theorem C8_vote_unregistered_author (e : RedditEngine) (postID : string) (a : ptr)
    (post : Post.t) (upvote : bool) :
  posts e !! postID = Some a → heap e !! a = Some post →
  users e !! Post.Author post = None →
  ∃ e', VotePost postID upvote e = (e', Ok ()) ∧
    heap e' = <[a := Post.set_Votes (GoInt.add (Post.Votes post) (if upvote then 2 else -1))
                       post]> (heap e) ∧
    users e' = users e ∧ subreddits e' = subreddits e ∧ posts e' = posts e ∧
    directMessages e' = directMessages e.
Proof.
  intros Hp Hh Hu. eexists. split; [by apply VotePost_found|].
  rewrite updateKarma_unregistered by done. by destruct upvote.
Qed.

Lemma C8_vote_unregistered_author_witness :
  ∃ e', VotePost "post_5" true e_carol_post = (e', Ok ()) ∧ users e' = ∅ ∧
    heap e' = [Post.mk "post_5" "H" "C" "carol" "science" 5 2 []].
Proof.
  destruct (C8_vote_unregistered_author e_carol_post "post_5" 0%nat
              (Post.mk "post_5" "H" "C" "carol" "science" 5 0 []) true)
    as (e' & Hv & Hh & Hu & _); [reflexivity ..|].
  exists e'. split; [exact Hv|]. split; [exact Hu | exact Hh].
Defined.

(** ** Direct messages *)

Lemma find_dm_Some messages X : ∀ j i m,
  find_dm messages X j = Some (i, m) →
  (j ≤ i)%nat ∧ messages !! (i - j)%nat = Some m ∧ DirectMessage.ID m = X.
Proof.
  induction messages as [|dm rest IH]; intros j i m; simpl; [done|].
  case_decide as Hid.
  - intros [= <- <-]. by rewrite Nat.sub_diag.
  - intros H. apply IH in H as (Hle & Hl & HX). split; [lia|]. split; [|done].
    replace (i - j)%nat with (S (i - S j)) by lia. done.
Qed.

Lemma find_dm_None messages X : ∀ j,
  find_dm messages X j = None ↔ ∀ i m, messages !! i = Some m → DirectMessage.ID m ≠ X.
Proof.
  induction messages as [|dm rest IH]; intros j; simpl.
  - split; [intros _ i m; by rewrite lookup_nil | done].
  - case_decide as Hid.
    + split; [done|]. intros H. by destruct (H 0%nat dm).
    + rewrite IH. split.
      * intros H [|i] m; simpl; [by intros [= <-] | apply H].
      * intros H i m. apply (H (S i)).
Qed.

Lemma scan_inboxes_Some e X order : ∀ acc k i m,
  scan_inboxes e order X acc = Some (k, i, m) →
  acc = Some (k, i, m) ∨ find_dm (inbox e k) X 0 = Some (i, m).
Proof.
  induction order as [|k0 rest IH]; intros acc k i m; simpl; [by left|].
  intros H. apply IH in H as [H|H]; [|by right].
  destruct (find_dm (inbox e k0) X 0) as [[i0 m0]|] eqn:Hf; [|by left].
  injection H as <- <- <-. by right.
Qed.

Lemma scan_inboxes_found e X order : ∀ acc k,
  k ∈ order → is_Some (find_dm (inbox e k) X 0) ∨ is_Some acc →
  is_Some (scan_inboxes e order X acc).
Proof.
  induction order as [|k0 rest IH]; intros acc k Hin Hf; simpl.
  - destruct Hf as [Hf|Hf]; [by apply elem_of_nil in Hin | done].
  - destruct (find_dm (inbox e k0) X 0) as [[i0 m0]|] eqn:Hf0.
    + destruct rest as [|k1 rest]; [done|].
      apply (IH _ k1); [left | by right].
    + apply elem_of_cons in Hin as [->|Hin].
      * destruct Hf as [Hf|Hf]; [rewrite Hf0 in Hf; by destruct Hf|].
        destruct rest as [|k1 rest]; [done|]. apply (IH _ k1); [left | by right].
      * by apply (IH _ k).
Qed.

Lemma inbox_lookup_Some e k i m :
  inbox e k !! i = Some m → ∃ msgs, directMessages e !! k = Some msgs ∧ msgs !! i = Some m.
Proof.
  unfold inbox. destruct (directMessages e !! k) as [msgs|]; simpl; [eauto|].
  by rewrite lookup_nil.
Qed.

(** C4. [ReplyToDirectMessage(X, from, content)], the inboxes being
    enumerated in any order.  If some inbox holds a message with id [X],
    the call succeeds on such a message [m]: the reply's sender is [from],
    its recipient is [m]'s sender, and the new state differs from the old
    one only in that [m] has the reply appended to its reply sequence;
    every top-level inbox keeps its length and its other entries, so the
    reply enters no top-level inbox.  If no inbox holds such a message the
    call fails with NotFound("original message") and the state is
    unchanged. *)
Theorem C4_reply_to_direct_message (e : RedditEngine) (X from content : string)
    (order : list string) (tid now : Time) :
  order ≡ₚ (map_to_list (directMessages e)).*1 →
  ((∃ k i m, inbox e k !! i = Some m ∧ DirectMessage.ID m = X) →
   ∃ k i m msgs reply e',
     directMessages e !! k = Some msgs ∧ msgs !! i = Some m ∧ DirectMessage.ID m = X ∧
     ReplyToDirectMessage X from content order tid now e = (e', Ok reply) ∧
     DirectMessage.From reply = from ∧
     DirectMessage.To reply = DirectMessage.From m ∧
     DirectMessage.Content reply = content ∧
     DirectMessage.Replies reply = [] ∧
     directMessages e' =
       <[k := <[i := DirectMessage.append_reply reply m]> msgs]> (directMessages e) ∧
     users e' = users e ∧ subreddits e' = subreddits e ∧ posts e' = posts e ∧
     heap e' = heap e ∧
     inbox e' k !! i = Some (DirectMessage.append_reply reply m) ∧
     DirectMessage.Replies (DirectMessage.append_reply reply m) =
       DirectMessage.Replies m ++ [reply] ∧
     (∀ k', length (inbox e' k') = length (inbox e k')) ∧
     (∀ k' j, (k', j) ≠ (k, i) → inbox e' k' !! j = inbox e k' !! j)) ∧
  ((∀ k i m, inbox e k !! i = Some m → DirectMessage.ID m ≠ X) →
   ReplyToDirectMessage X from content order tid now e =
     (e, Err (NotFound "original message"))).
Proof.
  intros Hperm. split.
  - intros (k0 & i0 & m0 & Hm0 & HX0).
    assert (is_Some (scan_inboxes e order X None)) as [[[k i] m] Hscan].
    { apply (scan_inboxes_found _ _ _ _ k0).
      - rewrite Hperm. apply inbox_lookup_Some in Hm0 as (msgs & Hk & _).
        apply list_elem_of_fmap. exists (k0, msgs). split; [done|].
        by apply elem_of_map_to_list.
      - left. destruct (find_dm (inbox e k0) X 0) eqn:Hf; [done|].
        rewrite find_dm_None in Hf. by destruct (Hf i0 m0). }
    pose proof Hscan as Hs.
    apply scan_inboxes_Some in Hs as [Hs|Hs]; [done|].
    apply find_dm_Some in Hs as (_ & Hl & HX). rewrite Nat.sub_0_r in Hl.
    apply inbox_lookup_Some in Hl as (msgs & Hk & Hi).
    unfold ReplyToDirectMessage. rewrite Hscan.
    eexists k, i, m, msgs, _, _.
    do 3 (split; [done|]). split; [done|]. simpl.
    do 4 (split; [done|]).
    assert (alter (alter (DirectMessage.append_reply
                     (DirectMessage.mk (Sprintf_d "dm_" (UnixNano tid)) from
                        (DirectMessage.From m) content now [])) i) k (directMessages e)
            = <[k := <[i := DirectMessage.append_reply
                     (DirectMessage.mk (Sprintf_d "dm_" (UnixNano tid)) from
                        (DirectMessage.From m) content now []) m]> msgs]> (directMessages e))
      as ->.
    { apply map_eq. intros k'. rewrite lookup_alter, lookup_insert.
      case_decide as Hkk; [subst k'|done].
      rewrite Hk. simpl. f_equal. apply list_eq. intros j.
      destruct (decide (j = i)) as [->|Hj].
      - rewrite list_lookup_alter_eq, Hi. simpl.
        symmetry. apply list_lookup_insert_eq. by eapply lookup_lt_Some.
      - by rewrite list_lookup_alter_ne, list_lookup_insert_ne. }
    split; [done|]. do 4 (split; [done|]).
    split; [|split; [done|split]].
    + unfold inbox. simpl. rewrite lookup_insert_eq. simpl.
      apply list_lookup_insert_eq. by eapply lookup_lt_Some.
    + intros k'. unfold inbox. simpl. rewrite lookup_insert.
      case_decide as Hkk; [subst k'|done]. rewrite Hk. simpl. apply length_insert.
    + intros k' j Hne. unfold inbox. simpl. rewrite lookup_insert.
      case_decide as Hkk; [subst k'|done]. rewrite Hk. simpl.
      apply list_lookup_insert_ne. congruence.
  - intros Hnone. unfold ReplyToDirectMessage.
    destruct (scan_inboxes e order X None) as [[[k i] m]|] eqn:Hscan; [|done].
    apply scan_inboxes_Some in Hscan as [Hs|Hs]; [done|].
    apply find_dm_Some in Hs as (_ & Hl & HX). rewrite Nat.sub_0_r in Hl.
    by destruct (Hnone k i m).
Qed.

Lemma C4_reply_to_direct_message_witness :
  ∃ reply e',
    ReplyToDirectMessage "dm_9" "bob" "hello" ["bob"] 10 10 e_alice_dm_bob = (e', Ok reply) ∧
    length (inbox e' "bob") = length (inbox e_alice_dm_bob "bob") ∧
    length (inbox e' "alice") = length (inbox e_alice_dm_bob "alice").
Proof.
  destruct (C4_reply_to_direct_message e_alice_dm_bob "dm_9" "bob" "hello" ["bob"] 10 10)
    as [Hfound _]; [by vm_compute|].
  destruct Hfound as (k & i & m & msgs & reply & e' & _ & _ & _ & Hr & _ & _ & _ & _ & _ &
                      _ & _ & _ & _ & _ & _ & Hlen & _).
  { exists "bob", 0%nat, (DirectMessage.mk "dm_9" "alice" "bob" "hi" 9 []).
    split; reflexivity. }
  exists reply, e'. split; [exact Hr|]. split; apply Hlen.
Defined.

(** ** Inboxes *)

Lemma exec_keeps_no_inbox u op e :
  ¬ sends_to u op → directMessages e !! u = None → directMessages (exec op e) !! u = None.
Proof.
  intros Hop Hnone. destruct op; simpl in *;
    try (unfold RegisterUser, CreateSubreddit, JoinSubreddit, LeaveSubreddit, CreatePost,
           AddComment, VotePost;
         repeat case_match; simpl; rewrite ?updateKarma_directMessages; done).
  - unfold SendDirectMessage. repeat case_match; simpl; try done.
    by rewrite lookup_insert_ne.
  - unfold ReplyToDirectMessage. repeat case_match; simpl; try done.
    rewrite lookup_alter. case_decide; subst; by rewrite Hnone.
Qed.

Lemma run_keeps_no_inbox u ops : ∀ e,
  Forall (λ op, ¬ sends_to u op) ops →
  directMessages e !! u = None → directMessages (run ops e) !! u = None.
Proof.
  induction ops as [|op ops IH]; intros e Hops Hnone; [done|].
  apply Forall_cons in Hops as [Hop Hops]. simpl.
  apply IH; [done|]. by apply exec_keeps_no_inbox.
Qed.

(** C10. [GetDirectMessages(u)] fails, with NotFound("user"), exactly when
    [u] is not registered, whatever the inboxes hold.  For a registered
    user without an inbox it succeeds with the empty sequence; and after
    any run of engine operations from the new engine in which no
    [SendDirectMessage] was addressed to [u], the user has no inbox, so a
    registered [u] gets the empty sequence. *)
Theorem C10_inbox_of_registered_user (u : string) :
  (∀ e, is_NotFound (GetDirectMessages u e) ↔ users e !! u = None) ∧
  (∀ e, users e !! u = None → GetDirectMessages u e = Err (NotFound "user")) ∧
  (∀ e, is_Some (users e !! u) → GetDirectMessages u e = Ok (inbox e u)) ∧
  (∀ e, is_Some (users e !! u) → directMessages e !! u = None →
     GetDirectMessages u e = Ok []) ∧
  (∀ ops, Forall (λ op, ¬ sends_to u op) ops →
     directMessages (run ops NewRedditEngine) !! u = None ∧
     (is_Some (users (run ops NewRedditEngine) !! u) →
        GetDirectMessages u (run ops NewRedditEngine) = Ok [])).
Proof.
  assert (∀ e, is_Some (users e !! u) → GetDirectMessages u e = Ok (inbox e u)) as Hreg.
  { intros e [user Hu]. unfold GetDirectMessages. by rewrite Hu. }
  assert (∀ e, is_Some (users e !! u) → directMessages e !! u = None →
               GetDirectMessages u e = Ok []) as Hempty.
  { intros e Hu Hnone. rewrite Hreg by done. unfold inbox. by rewrite Hnone. }
  split; [|split; [|split; [done|split; [done|]]]].
  - intros e. unfold GetDirectMessages. destruct (users e !! u) as [user|].
    + split; [intros [w Hw]; discriminate | done].
    + split; [done | intros _; by exists "user"].
  - intros e Hu. unfold GetDirectMessages. by rewrite Hu.
  - intros ops Hops.
    assert (directMessages (run ops NewRedditEngine) !! u = None) as Hnone
      by (by apply run_keeps_no_inbox).
    split; [done|]. intros Hu. by apply Hempty.
Qed.

Lemma C10_inbox_of_registered_user_witness :
  GetDirectMessages "alice"
    (run [OpRegisterUser "alice" "pw" 0; OpRegisterUser "bob" "pw" 1;
          OpSendDirectMessage "alice" "bob" "hi" 9 9] NewRedditEngine) = Ok [].
Proof.
  destruct (C10_inbox_of_registered_user "alice") as (_ & _ & _ & _ & H).
  apply H.
  - repeat constructor; simpl; auto.
  - vm_compute. eexists. reflexivity.
Defined.

(** ** Comment trees *)

(** Induction over a comment and, through the list, its children. *)
Lemma comment_tree_ind (P : Comment.t → Prop) :
  (∀ c, Forall P (Comment.Children c) → P c) → ∀ c, P c.
Proof.
  intros step. fix IH 1. intros [id content author parent created votes children].
  apply step. simpl. induction children as [|c cs IHcs]; constructor; [apply IH | apply IHcs].
Qed.

(** [findComment] on one element, as the source writes it. *)
Lemma findComment_in_eq c X :
  findComment_in c X =
    if decide (Comment.ID c = X) then Some []
    else findComment_from (Comment.Children c) X 0.
Proof.
  destruct c as [id content author parent created votes children]. simpl.
  case_decide; [done|]. generalize 0%nat.
  induction children as [|c cs IH]; intros i; simpl; [done|].
  destruct (findComment_in c X); [done | apply IH].
Qed.

Lemma findComment_from_cons c rest X i :
  findComment_from (c :: rest) X i =
    if decide (Comment.ID c = X) then Some [i]
    else match findComment_from (Comment.Children c) X 0 with
         | Some p => Some (i :: p)
         | None => findComment_from rest X (S i)
         end.
Proof. simpl. rewrite findComment_in_eq. by case_decide. Qed.

Lemma findComment_from_spec X cs :
  Forall (found_in X) cs → ∀ i,
  match findComment_from cs X i with
  | Some p =>
      ∃ j q c n, p = (i + j)%nat :: q ∧ cs !! j = Some c ∧
        node_at c q = Some n ∧ Comment.ID n = X ∧
        ∀ j' c' q' m, cs !! j' = Some c' → node_at c' q' = Some m → Comment.ID m = X →
          (j < j')%nat ∨ (j = j' ∧ path_le q q')
  | None => ∀ j c q m, cs !! j = Some c → node_at c q = Some m → Comment.ID m ≠ X
  end.
Proof.
  induction 1 as [|c cs Hc Hcs IH]; intros i; simpl.
  - intros j c q m. by rewrite lookup_nil.
  - unfold found_in in Hc. destruct (findComment_in c X) as [p|].
    + destruct Hc as (n & Hn & HX & Hmin).
      exists 0%nat, p, c, n. rewrite Nat.add_0_r. do 4 (split; [done|]).
      intros [|j'] c' q' m Hc' Hm HXm; simpl in Hc'; [|left; lia].
      injection Hc' as <-. right. split; [done|]. by eapply Hmin.
    + specialize (IH (S i)). destruct (findComment_from cs X (S i)) as [p|].
      * destruct IH as (j & q & c0 & n & -> & Hj & Hn & HX & Hmin).
        exists (S j), q, c0, n. split; [f_equal; lia|]. do 3 (split; [done|]).
        intros [|j'] c' q' m Hc' Hm HXm; simpl in Hc'.
        -- injection Hc' as <-. by destruct (Hc q' m).
        -- destruct (Hmin j' c' q' m Hc' Hm HXm) as [?|[-> ?]]; [left; lia | by right].
      * intros [|j] c' q m Hc' Hm; simpl in Hc'; [injection Hc' as <-; by eapply Hc|].
        by eapply IH.
Qed.

Lemma findComment_in_spec X c : found_in X c.
Proof.
  induction c as [c IH] using comment_tree_ind.
  unfold found_in. rewrite findComment_in_eq. case_decide as Hid.
  - exists c. by repeat split.
  - pose proof (findComment_from_spec X _ IH 0) as Hs.
    destruct (findComment_from (Comment.Children c) X 0) as [p|].
    + destruct Hs as (j & q & c0 & n & -> & Hj & Hn & HX & Hmin). simpl.
      exists n. rewrite Hj. do 2 (split; [done|]).
      intros [|j' q'] m Hm HXm; simpl in Hm; [by injection Hm as <-|].
      destruct (Comment.Children c !! j') as [c'|] eqn:Hc'; [|done]. by eapply Hmin.
    + intros [|j q] m Hm; simpl in Hm; [by injection Hm as <-|].
      destruct (Comment.Children c !! j) as [c'|] eqn:Hc'; [|done]. by eapply Hs.
Qed.

(** The search of a post's comments: the first node in pre-order with the
    wanted id, if there is one. *)
Lemma findComment_spec X comments :
  match findComment comments X with
  | Some p =>
      ∃ n, comment_at comments p = Some n ∧ Comment.ID n = X ∧
           ∀ q m, comment_at comments q = Some m → Comment.ID m = X → path_le p q
  | None => ∀ q m, comment_at comments q = Some m → Comment.ID m ≠ X
  end.
Proof.
  unfold findComment.
  assert (Forall (found_in X) comments) as Hall
    by (apply Forall_forall; intros; apply findComment_in_spec).
  pose proof (findComment_from_spec X _ Hall 0) as Hs.
  destruct (findComment_from comments X 0) as [p|].
  - destruct Hs as (j & q & c0 & n & -> & Hj & Hn & HX & Hmin). simpl.
    exists n. rewrite Hj. do 2 (split; [done|]).
    intros [|j' q'] m Hm HXm; simpl in Hm; [done|].
    destruct (comments !! j') as [c'|] eqn:Hc'; [|done]. by eapply Hmin.
  - intros [|j q] m Hm; simpl in Hm; [done|].
    destruct (comments !! j) as [c'|] eqn:Hc'; [|done]. by eapply Hs.
Qed.

(** Mutation through a path reaches the designated node and no node off
    the path. *)
Lemma node_at_alter_node f p : ∀ c n,
  node_at c p = Some n → node_at (alter_node f p c) p = Some (f n).
Proof.
  induction p as [|i p IH]; intros c n; simpl; [by intros [= ->]|].
  destruct (Comment.Children c !! i) as [c'|] eqn:Hc'; [|done]. intros Hn.
  rewrite list_lookup_alter_eq, Hc'. simpl. by apply IH.
Qed.

Lemma comment_at_alter_at f p comments n :
  comment_at comments p = Some n → comment_at (alter_at f p comments) p = Some (f n).
Proof.
  destruct p as [|i p]; simpl; [done|].
  destruct (comments !! i) as [c|] eqn:Hc; [|done]. intros Hn.
  rewrite list_lookup_alter_eq, Hc. simpl. by apply node_at_alter_node.
Qed.

Lemma node_at_alter_node_off f p : ∀ c q,
  ¬ p `prefix_of` q → ¬ q `prefix_of` p →
  node_at (alter_node f p c) q = node_at c q.
Proof.
  induction p as [|i p IH]; intros c q Hpq Hqp.
  - destruct Hpq. apply prefix_nil.
  - destruct q as [|j q]; [destruct Hqp; apply prefix_nil|]. simpl.
    destruct (decide (i = j)) as [->|Hij].
    + rewrite list_lookup_alter_eq.
      destruct (Comment.Children c !! j) as [c'|]; [|done]. simpl.
      apply IH; intros Hpre; [apply Hpq | apply Hqp]; by apply prefix_cons.
    + by rewrite list_lookup_alter_ne.
Qed.

Lemma comment_at_alter_at_off f p comments q :
  ¬ p `prefix_of` q → ¬ q `prefix_of` p →
  comment_at (alter_at f p comments) q = comment_at comments q.
Proof.
  intros Hpq Hqp.
  destruct p as [|i p]; [done|].
  destruct q as [|j q]; [done|]. simpl.
  destruct (decide (i = j)) as [->|Hij].
  - rewrite list_lookup_alter_eq.
    destruct (comments !! j) as [c'|]; [|done]. simpl.
    apply node_at_alter_node_off; intros Hpre; [apply Hpq | apply Hqp]; by apply prefix_cons.
  - by rewrite list_lookup_alter_ne.
Qed.

(** C2. [AddComment(content, author, P, parentID)].  Unknown post id:
    NotFound("post"), state unchanged.  Empty parent id: the new comment
    is appended to the post's top-level sequence.  Non-empty parent id
    borne by some node of the tree, at any depth: the call succeeds on the
    first such node [n] in depth-first pre-order, whose children become
    its old children followed by the new comment, and every node that is
    neither on the way to [n] nor below it is untouched.  Non-empty parent
    id borne by no node: NotFound("parent comment"), state unchanged. *)
Theorem C2_add_comment (e : RedditEngine) (content author P parentID : string)
    (tid now : Time) :
  let comment :=
    Comment.mk (Sprintf_d "comment_" (UnixNano tid)) content author parentID now 0 [] in
  (posts e !! P = None →
     AddComment content author P parentID tid now e = (e, Err (NotFound "post"))) ∧
  (∀ a post, posts e !! P = Some a → heap e !! a = Some post →
     (parentID = "" →
        AddComment content author P parentID tid now e =
          (set_heap (<[a := Post.set_Comments (Post.Comments post ++ [comment]) post]> (heap e)) e,
           Ok comment)) ∧
     (parentID ≠ "" →
        (∃ q m, comment_at (Post.Comments post) q = Some m ∧ Comment.ID m = parentID) →
        ∃ p n comments',
          comment_at (Post.Comments post) p = Some n ∧ Comment.ID n = parentID ∧
          (∀ q m, comment_at (Post.Comments post) q = Some m → Comment.ID m = parentID →
             path_le p q) ∧
          AddComment content author P parentID tid now e =
            (set_heap (<[a := Post.set_Comments comments' post]> (heap e)) e, Ok comment) ∧
          comment_at comments' p =
            Some (Comment.set_Children (Comment.Children n ++ [comment]) n) ∧
          length comments' = length (Post.Comments post) ∧
          (∀ q, ¬ p `prefix_of` q → ¬ q `prefix_of` p →
             comment_at comments' q = comment_at (Post.Comments post) q)) ∧
     (parentID ≠ "" →
        (∀ q m, comment_at (Post.Comments post) q = Some m → Comment.ID m ≠ parentID) →
        AddComment content author P parentID tid now e =
          (e, Err (NotFound "parent comment")))).
Proof.
  intros comment. split.
  - intros Hp. unfold AddComment. by rewrite Hp.
  - intros a post Hp Hh. unfold AddComment. rewrite Hp, Hh.
    pose proof (findComment_spec parentID (Post.Comments post)) as Hfind.
    split; [|split].
    + intros ->. done.
    + intros Hne (q0 & m0 & Hm0 & HX0). rewrite decide_False by done.
      destruct (findComment (Post.Comments post) parentID) as [p|];
        [|by destruct (Hfind q0 m0)].
      destruct Hfind as (n & Hn & HX & Hmin).
      exists p, n, (alter_at (Comment.append_child comment) p (Post.Comments post)).
      do 4 (split; [done|]).
      split; [exact (comment_at_alter_at (Comment.append_child comment) _ _ _ Hn)|].
      split; [destruct p; [done | apply length_alter]|].
      intros q. apply comment_at_alter_at_off.
    + intros Hne Hnone. rewrite decide_False by done.
      destruct (findComment (Post.Comments post) parentID) as [p|]; [|done].
      destruct Hfind as (n & Hn & HX & _). by destruct (Hnone p n).
Qed.

Lemma C2_add_comment_witness :
  ∃ p n comments',
    comment_at [Comment.mk "comment_6" "first" "bob" "" 6 0
                  [Comment.mk "comment_7" "second" "bob" "comment_6" 7 0 []]] p = Some n ∧
    Comment.ID n = "comment_7" ∧
    (AddComment "third" "alice" "post_5" "comment_7" 8 8 e_thread).2 =
      Ok (Comment.mk "comment_8" "third" "alice" "comment_7" 8 0 []) ∧
    comment_at comments' p =
      Some (Comment.set_Children
              (Comment.Children n ++
                 [Comment.mk "comment_8" "third" "alice" "comment_7" 8 0 []]) n).
Proof.
  destruct (C2_add_comment e_thread "third" "alice" "post_5" "comment_7" 8 8) as [_ H].
  destruct (H 0%nat
              (Post.mk "post_5" "H" "C" "alice" "science" 5 0
                 [Comment.mk "comment_6" "first" "bob" "" 6 0
                    [Comment.mk "comment_7" "second" "bob" "comment_6" 7 0 []]]))
    as (_ & Hdeep & _); [reflexivity | reflexivity |].
  destruct Hdeep as (p & n & comments' & Hn & Hid & Hmin & Hadd & Hnew & _).
  { discriminate. }
  { exists [0; 0]%nat, (Comment.mk "comment_7" "second" "bob" "comment_6" 7 0 []).
    split; reflexivity. }
  exists p, n, comments'. split; [exact Hn|]. split; [exact Hid|].
  split; [by rewrite Hadd | exact Hnew].
Defined.

(** ** Sorting the feed *)

Section SortPostsFacts.
Context {A : Type} (CreatedAt : A → Time).

Local Abbreviation bubble := (bubble CreatedAt).
Local Abbreviation inner := (sortPosts_inner CreatedAt).
Local Abbreviation outer := (sortPosts_outer CreatedAt).
Local Abbreviation created_at t := (λ x : A, CreatedAt x = t).

(** The indexed inner loop is the structural pass. *)
Lemma sortPosts_inner_bubble count : ∀ pre l,
  inner count (length pre) (pre ++ l) = pre ++ bubble count l.
Proof.
  induction count as [|count IH]; intros pre l; simpl; [by destruct l|].
  destruct l as [|x [|y r]]; simpl.
  - rewrite app_nil_r. by rewrite lookup_ge_None_2 by lia.
  - rewrite list_lookup_middle by done.
    by rewrite lookup_ge_None_2 by (rewrite length_app; simpl; lia).
  - rewrite list_lookup_middle by done.
    replace (pre ++ x :: y :: r) with ((pre ++ [x]) ++ y :: r) at 1
      by (by rewrite <- app_assoc).
    rewrite list_lookup_middle by (rewrite length_app; simpl; lia).
    destruct (Before (CreatedAt x) (CreatedAt y)).
    + replace (<[length pre:=y]> (<[S (length pre):=x]> (pre ++ x :: y :: r)))
        with ((pre ++ [y]) ++ x :: r).
      * replace (S (length pre)) with (length (pre ++ [y]))
          by (rewrite length_app; simpl; lia).
        rewrite IH. by rewrite <- app_assoc.
      * rewrite <- app_assoc. simpl.
        rewrite insert_app_r_alt by lia.
        replace (S (length pre) - length pre)%nat with 1%nat by lia. simpl.
        rewrite insert_app_r_alt by lia. by rewrite Nat.sub_diag.
    + replace (pre ++ x :: y :: r) with ((pre ++ [x]) ++ y :: r)
        by (by rewrite <- app_assoc).
      replace (S (length pre)) with (length (pre ++ [x]))
        by (rewrite length_app; simpl; lia).
      rewrite IH. by rewrite <- !app_assoc.
Qed.

Lemma sortPosts_inner_bubble0 count posts : inner count 0 posts = bubble count posts.
Proof. exact (sortPosts_inner_bubble count [] posts). Qed.

Lemma bubble_perm count : ∀ l, bubble count l ≡ₚ l.
Proof.
  induction count as [|count IH]; intros l; simpl; [by destruct l|].
  destruct l as [|x [|y r]]; [done..|].
  destruct (Before (CreatedAt x) (CreatedAt y)).
  - rewrite IH. apply perm_swap.
  - by rewrite IH.
Qed.

(** No two posts with the same creation time are exchanged. *)
Lemma bubble_stable t count : ∀ l,
  filter (created_at t) (bubble count l) = filter (created_at t) l.
Proof.
  induction count as [|count IH]; intros l; simpl; [by destruct l|].
  destruct l as [|x [|y r]]; [done..|].
  unfold Before. case_bool_decide as Hxy.
  - rewrite !filter_cons, IH, !filter_cons.
    repeat case_decide; try done; lia.
  - by rewrite !filter_cons, IH, !filter_cons.
Qed.

(** A pass that stops inside [l] does not see what follows [l]. *)
Lemma bubble_app count : ∀ l suf,
  (S count ≤ length l)%nat → bubble count (l ++ suf) = bubble count l ++ suf.
Proof.
  induction count as [|count IH]; intros l suf Hlen; simpl.
  - by destruct (l ++ suf), l.
  - destruct l as [|x [|y r]]; simpl in *; [lia..|].
    destruct (Before (CreatedAt x) (CreatedAt y)); simpl; f_equal.
    + apply (IH (x :: r)). simpl. lia.
    + apply (IH (y :: r)). simpl. lia.
Qed.

(** A full pass carries an oldest post to the end. *)
Lemma bubble_last count : ∀ l,
  length l = S count →
  ∃ l' m, bubble count l = l' ++ [m] ∧ ∀ z, z ∈ l → CreatedAt m <= CreatedAt z.
Proof.
  induction count as [|count IH]; intros l Hlen.
  - destruct l as [|x [|? ?]]; try done. exists [], x. split; [done|].
    intros z Hz. apply list_elem_of_singleton in Hz as ->. lia.
  - destruct l as [|x [|y r]]; try done. simpl in Hlen. simpl.
    unfold Before. case_bool_decide as Hxy.
    + destruct (IH (x :: r)) as (l' & m & Heq & Hmin); [simpl; lia|].
      exists (y :: l'), m. split; [by rewrite Heq|].
      intros z Hz. pose proof (Hmin x ltac:(left)) as Hx.
      apply elem_of_cons in Hz as [->|Hz]; [done|].
      apply elem_of_cons in Hz as [->|Hz]; [lia|].
      apply Hmin. by right.
    + destruct (IH (y :: r)) as (l' & m & Heq & Hmin); [simpl; lia|].
      exists (x :: l'), m. split; [by rewrite Heq|].
      intros z Hz. pose proof (Hmin y ltac:(left)) as Hy.
      apply elem_of_cons in Hz as [->|Hz]; [lia|].
      apply elem_of_cons in Hz as [->|Hz]; [done|].
      apply Hmin. by right.
Qed.

Lemma sortPosts_inner_perm count posts : inner count 0 posts ≡ₚ posts.
Proof. rewrite sortPosts_inner_bubble0. apply bubble_perm. Qed.

Lemma sortPosts_outer_perm count : ∀ i posts, outer count i posts ≡ₚ posts.
Proof.
  induction count as [|count IH]; intros i posts; simpl; [done|].
  by rewrite IH, sortPosts_inner_perm.
Qed.

Lemma sortPosts_outer_stable t count : ∀ i posts,
  filter (created_at t) (outer count i posts) = filter (created_at t) posts.
Proof.
  induction count as [|count IH]; intros i posts; simpl; [done|].
  rewrite IH, sortPosts_inner_bubble0. apply bubble_stable.
Qed.

(** After [i] passes the last [i] posts are the oldest, in order. *)
Lemma sortPosts_outer_sorted count : ∀ i pre suf,
  length suf = i → length pre = S count →
  StronglySorted (desc CreatedAt) suf →
  (∀ x y, x ∈ pre → y ∈ suf → CreatedAt y <= CreatedAt x) →
  StronglySorted (desc CreatedAt) (outer count i (pre ++ suf)).
Proof.
  induction count as [|count IH]; intros i pre suf Hsuf Hpre Hsorted Hle; simpl.
  - destruct pre as [|x [|? ?]]; try done. simpl. constructor; [done|].
    apply Forall_forall. intros y Hy. apply Hle; [by left | done].
  - replace (length (pre ++ suf) - i - 1)%nat with (S count)
      by (rewrite length_app; lia).
    rewrite sortPosts_inner_bubble0.
    rewrite bubble_app by lia.
    destruct (bubble_last (S count) pre Hpre) as (l' & m & Heq & Hmin).
    pose proof (bubble_perm (S count) pre) as Hperm. rewrite Heq in Hperm.
    rewrite Heq, <- app_assoc. simpl.
    assert (∀ x, x ∈ l' → x ∈ pre) as Hsub.
    { intros x Hx. rewrite <- Hperm. apply elem_of_app. by left. }
    assert (m ∈ pre) as Hm.
    { rewrite <- Hperm. apply elem_of_app. right. by left. }
    apply IH.
    + simpl. lia.
    + apply (f_equal length) in Heq. rewrite length_app in Heq. simpl in Heq.
      pose proof (Permutation_length Hperm) as Hl. rewrite length_app in Hl.
      simpl in Hl. lia.
    + constructor; [done|]. apply Forall_forall. intros y Hy. by apply Hle.
    + intros x y Hx Hy. apply elem_of_cons in Hy as [->|Hy].
      * apply Hmin. by apply Hsub.
      * apply Hle; [by apply Hsub | done].
Qed.

Lemma sortPosts_perm posts : sortPosts CreatedAt posts ≡ₚ posts.
Proof. apply sortPosts_outer_perm. Qed.

Lemma sortPosts_stable t posts :
  filter (created_at t) (sortPosts CreatedAt posts) = filter (created_at t) posts.
Proof. apply sortPosts_outer_stable. Qed.

Lemma sortPosts_sorted posts : StronglySorted (desc CreatedAt) (sortPosts CreatedAt posts).
Proof.
  unfold sortPosts. destruct posts as [|x posts]; [constructor|].
  rewrite <- (app_nil_r (x :: posts)) at 2.
  apply sortPosts_outer_sorted; simpl; [done | lia | constructor |].
  intros ? y _ Hy. by apply elem_of_nil in Hy.
Qed.
End SortPostsFacts.

(** ** Invariants of reachable states *)

Lemma ptrs_valid_alt e :
  ptrs_valid e ↔
  (∀ id a, posts e !! id = Some a → (a < length (heap e))%nat) ∧
  (∀ s l a, sub_posts e s = Some l → a ∈ l → (a < length (heap e))%nat).
Proof.
  unfold ptrs_valid, sub_posts. split; intros [H1 H2]; (split; [done|]).
  - intros s l a Hl Ha. destruct (subreddits e !! s) as [sub|] eqn:Hs; [|done].
    injection Hl as <-. by eapply H2.
  - intros s sub a Hs Ha. apply (H2 s (Subreddit.Posts sub)); [by rewrite Hs | done].
Qed.

Lemma posts_owned_once_alt e :
  posts_owned_once e ↔
  ∀ s1 s2 l1 l2 i j a, sub_posts e s1 = Some l1 → sub_posts e s2 = Some l2 →
    l1 !! i = Some a → l2 !! j = Some a → s1 = s2 ∧ i = j.
Proof.
  unfold posts_owned_once, sub_posts. split; intros H.
  - intros s1 s2 l1 l2 i j a H1 H2.
    destruct (subreddits e !! s1) as [sub1|] eqn:Hs1; [|done].
    destruct (subreddits e !! s2) as [sub2|] eqn:Hs2; [|done].
    injection H1 as <-. injection H2 as <-. by eapply H.
  - intros s1 s2 sub1 sub2 i j a Hs1 Hs2.
    apply (H s1 s2); [by rewrite Hs1 | by rewrite Hs2].
Qed.

Lemma same_post_refs_valid e e' : same_post_refs e e' → ptrs_valid e → ptrs_valid e'.
Proof.
  intros (Hs & Hp & Hl). rewrite !ptrs_valid_alt. intros [H1 H2]. split.
  - intros id a. rewrite Hp, Hl. apply H1.
  - intros s l a. rewrite Hs, Hl. apply H2.
Qed.

Lemma same_post_refs_owned e e' :
  same_post_refs e e' → posts_owned_once e → posts_owned_once e'.
Proof.
  intros (Hs & _ & _). rewrite !posts_owned_once_alt. intros H s1 s2 l1 l2 i j a.
  rewrite !Hs. apply H.
Qed.

Lemma same_post_refs_refl e : same_post_refs e e.
Proof. done. Qed.

Lemma same_post_refs_members e s sub m :
  subreddits e !! s = Some sub →
  ∀ s0, Subreddit.Posts <$> (<[s := Subreddit.set_Members m sub]> (subreddits e)) !! s0
        = sub_posts e s0.
Proof.
  intros Hs s0. unfold sub_posts. rewrite lookup_insert.
  case_decide; [subst; by rewrite Hs | done].
Qed.

Lemma exec_same_post_refs op e :
  match op with
  | OpCreateSubreddit _ _ _ _ | OpCreatePost _ _ _ _ _ _ => True
  | _ => same_post_refs e (exec op e)
  end.
Proof.
  destruct op; simpl; try done;
    try apply same_post_refs_refl.
  - unfold RegisterUser. by case_match.
  - unfold JoinSubreddit. repeat case_match; try done.
    split; [|done]. simpl. by apply same_post_refs_members.
  - unfold LeaveSubreddit. repeat case_match; try done.
    split; [|done]. simpl. by apply same_post_refs_members.
  - unfold AddComment. repeat case_match; try done;
      (split; [done|split; [done|]]); simpl; by rewrite length_insert.
  - unfold VotePost. repeat case_match; try done; simpl;
      (split; [intros s0; unfold sub_posts; by rewrite updateKarma_subreddits|]);
      rewrite updateKarma_posts, updateKarma_heap; (split; [done|]); simpl;
      by rewrite length_insert.
  - unfold SendDirectMessage. by repeat case_match.
  - unfold ReplyToDirectMessage. by repeat case_match.
Qed.

Lemma CreateSubreddit_sub_posts name description creator now e s :
  subreddits e !! name = None →
  sub_posts (CreateSubreddit name description creator now e).1 s =
    if decide (name = s) then Some [] else sub_posts e s.
Proof.
  intros Hn. unfold CreateSubreddit, sub_posts. rewrite Hn. simpl.
  rewrite lookup_insert. by case_decide.
Qed.

Lemma CreateSubreddit_refs name description creator now e :
  ptrs_valid e ∧ posts_owned_once e →
  ptrs_valid (CreateSubreddit name description creator now e).1 ∧
  posts_owned_once (CreateSubreddit name description creator now e).1.
Proof.
  destruct (subreddits e !! name) as [sub|] eqn:Hn.
  { unfold CreateSubreddit. by rewrite Hn. }
  rewrite !ptrs_valid_alt, !posts_owned_once_alt. intros [[Hp Hs] Ho].
  assert (heap (CreateSubreddit name description creator now e).1 = heap e) as Hh
    by (unfold CreateSubreddit; by rewrite Hn).
  assert (posts (CreateSubreddit name description creator now e).1 = posts e) as Hps
    by (unfold CreateSubreddit; by rewrite Hn).
  split; [split|].
  - intros id a. rewrite Hh, Hps. apply Hp.
  - intros s l a. rewrite Hh, CreateSubreddit_sub_posts by done.
    case_decide; [intros [= <-] Ha; by apply elem_of_nil in Ha | apply Hs].
  - intros s1 s2 l1 l2 i j a. rewrite !CreateSubreddit_sub_posts by done.
    repeat case_decide; try (intros [= <-]; by rewrite ?lookup_nil);
      try (intros ? [= <-]; by rewrite ?lookup_nil).
    apply Ho.
Qed.

Lemma CreatePost_sub_posts title content author name tid now e sub s :
  subreddits e !! name = Some sub →
  sub_posts (CreatePost title content author name tid now e).1 s =
    if decide (name = s) then Some (Subreddit.Posts sub ++ [length (heap e)])
    else sub_posts e s.
Proof.
  intros Hn. unfold CreatePost, sub_posts. rewrite Hn. simpl.
  rewrite lookup_insert. by case_decide.
Qed.

Lemma CreatePost_refs title content author name tid now e :
  ptrs_valid e ∧ posts_owned_once e →
  ptrs_valid (CreatePost title content author name tid now e).1 ∧
  posts_owned_once (CreatePost title content author name tid now e).1.
Proof.
  destruct (subreddits e !! name) as [sub|] eqn:Hn; [|unfold CreatePost; by rewrite Hn].
  rewrite !ptrs_valid_alt, !posts_owned_once_alt. intros [[Hp Hs] Ho].
  assert (sub_posts e name = Some (Subreddit.Posts sub)) as Hsp
    by (unfold sub_posts; by rewrite Hn).
  assert (length (heap (CreatePost title content author name tid now e).1)
          = S (length (heap e))) as Hh
    by (unfold CreatePost; rewrite Hn; simpl; rewrite length_app; simpl; lia).
  assert (∀ s l i, sub_posts e s = Some l → l !! i = Some (length (heap e)) → False) as Hfresh.
  { intros s l i Hl Hi. apply list_elem_of_lookup_2 in Hi.
    pose proof (Hs s l _ Hl Hi). lia. }
  split; [split|].
  - intros id a. rewrite Hh. unfold CreatePost. rewrite Hn. simpl.
    rewrite lookup_insert. case_decide as Hd; [intros [= <-]; lia|].
    intros Hl. apply Hp in Hl. lia.
  - intros s l a. rewrite Hh, (CreatePost_sub_posts _ _ _ _ _ _ _ _ _ Hn).
    case_decide.
    + intros [= <-] Ha. apply elem_of_app in Ha as [Ha|Ha].
      * pose proof (Hs name _ a Hsp Ha). lia.
      * apply list_elem_of_singleton in Ha as ->. lia.
    + intros Hl Ha. pose proof (Hs s l a Hl Ha). lia.
  - intros s1 s2 l1 l2 i j a. rewrite !(CreatePost_sub_posts _ _ _ _ _ _ _ _ _ Hn).
    assert (∀ i a, (Subreddit.Posts sub ++ [length (heap e)]) !! i = Some a →
              (Subreddit.Posts sub !! i = Some a ∧ a ≠ length (heap e)) ∨
              (i = length (Subreddit.Posts sub) ∧ a = length (heap e))) as Hcase.
    { intros i0 a0 H. apply lookup_app_Some in H as [H|[Hle H]].
      - left. split; [done|]. intros ->. by eapply Hfresh.
      - right. apply list_lookup_singleton_Some in H as [Hi <-]. split; [lia|done]. }
    destruct (decide (name = s1)) as [<-|Hn1]; destruct (decide (name = s2)) as [<-|Hn2].
    + intros [= <-] [= <-] Hi Hj. split; [done|].
      apply Hcase in Hi as [[Hi Hne]|[-> ->]]; apply Hcase in Hj as [[Hj Hne']|[-> Ha]];
        try done.
      by destruct (Ho name name _ _ i j a Hsp Hsp Hi Hj).
    + intros [= <-] Hl2 Hi Hj.
      apply Hcase in Hi as [[Hi Hne]|[-> ->]]; [|by destruct (Hfresh _ _ _ Hl2 Hj)].
      by destruct (Ho name s2 _ _ i j a Hsp Hl2 Hi Hj).
    + intros Hl1 [= <-] Hi Hj.
      apply Hcase in Hj as [[Hj Hne]|[-> ->]]; [|by destruct (Hfresh _ _ _ Hl1 Hi)].
      by destruct (Ho s1 name _ _ i j a Hl1 Hsp Hi Hj).
    + apply Ho.
Qed.

Lemma exec_refs op e :
  ptrs_valid e ∧ posts_owned_once e →
  ptrs_valid (exec op e) ∧ posts_owned_once (exec op e).
Proof.
  intros H. pose proof (exec_same_post_refs op e) as Hsame.
  destruct op;
    try (split; [exact (same_post_refs_valid _ _ Hsame (proj1 H))
                | exact (same_post_refs_owned _ _ Hsame (proj2 H))]).
  - by apply CreateSubreddit_refs.
  - by apply CreatePost_refs.
Qed.

Lemma exec_joined_exist op e : joined_exist e → joined_exist (exec op e).
Proof.
  intros Hinv. destruct op; simpl; try done.
  - unfold RegisterUser. case_match; [done|].
    intros u user s; simpl. rewrite lookup_insert. case_decide.
    + intros [= <-]. simpl. set_solver.
    + apply Hinv.
  - unfold CreateSubreddit. case_match; [done|].
    intros u user s; simpl. intros Hu Hs. rewrite lookup_insert.
    case_decide; [done|]. by eapply Hinv.
  - unfold JoinSubreddit. repeat case_match; try done.
    intros u user s; simpl. rewrite !lookup_insert. repeat case_decide; subst; try done.
    + intros [= <-]. simpl. intros Hs. apply elem_of_union in Hs as [Hs|Hs]; [set_solver|].
      by eapply Hinv.
    + intros Hu Hs. by eapply Hinv.
  - unfold LeaveSubreddit. repeat case_match; try done.
    intros u user s; simpl. rewrite !lookup_insert. repeat case_decide; subst; try done.
    + intros [= <-]. simpl. intros Hs. apply elem_of_difference in Hs as [Hs _].
      by eapply Hinv.
    + intros Hu Hs. by eapply Hinv.
  - unfold CreatePost. case_match; [|done].
    intros u user s; simpl. intros Hu Hs. rewrite lookup_insert.
    case_decide; [done|]. by eapply Hinv.
  - unfold AddComment. by repeat case_match.
  - assert (∀ w v e0, joined_exist e0 → joined_exist (updateKarma w v e0)) as Hk.
    { intros w v e0 H0 u user s. rewrite updateKarma_subreddits.
      unfold updateKarma. destruct (users e0 !! w) as [user0|] eqn:Hw; [|apply H0].
      simpl. rewrite lookup_insert. case_decide; [subst|apply H0].
      intros [= <-]. simpl. by eapply H0. }
    unfold VotePost. repeat case_match; try done; simpl; by apply Hk.
  - unfold SendDirectMessage. by repeat case_match.
  - unfold ReplyToDirectMessage. by repeat case_match.
Qed.

Lemma NewRedditEngine_joined_exist : joined_exist NewRedditEngine.
Proof. intros u user s Hu. simpl in Hu. by rewrite lookup_empty in Hu. Qed.

Lemma NewRedditEngine_refs : ptrs_valid NewRedditEngine ∧ posts_owned_once NewRedditEngine.
Proof.
  split; [split|].
  - intros id a H. simpl in H. by rewrite lookup_empty in H.
  - intros s sub a H. simpl in H. by rewrite lookup_empty in H.
  - intros s1 s2 sub1 sub2 i j a H. simpl in H. by rewrite lookup_empty in H.
Qed.

Lemma reachable_joined_exist e : reachable e → joined_exist e.
Proof.
  induction 1; [apply NewRedditEngine_joined_exist | by apply exec_joined_exist].
Qed.

Lemma reachable_refs e : reachable e → ptrs_valid e ∧ posts_owned_once e.
Proof. induction 1; [apply NewRedditEngine_refs | by apply exec_refs]. Qed.

Lemma reachable_run ops : ∀ e, reachable e → reachable (run ops e).
Proof.
  induction ops as [|op ops IH]; intros e He; [done|].
  simpl. apply IH. by constructor.
Qed.

(** ** The feed *)

Lemma gather_feed_joined e order : ∀ feed,
  (∀ s, s ∈ order → is_Some (subreddits e !! s)) →
  gather_feed e order feed = Some (feed ++ joined_posts e order).
Proof.
  induction order as [|s rest IH]; intros feed Hall; simpl.
  - by rewrite app_nil_r.
  - destruct (Hall s) as [sub Hs]; [by left|]. rewrite Hs.
    rewrite IH by (intros s' Hs'; apply Hall; by right).
    unfold joined_posts, sub_posts. simpl. rewrite Hs. simpl. by rewrite app_assoc.
Qed.

Lemma resolve_valid h feed :
  (∀ a, a ∈ feed → (a < length h)%nat) →
  ∃ objs, resolve h feed = Some objs ∧ objs.*1 = feed ∧
          Forall (λ x, h !! x.1 = Some x.2) objs.
Proof.
  unfold resolve. induction feed as [|a feed IH]; intros Hall.
  - by exists [].
  - destruct IH as (objs & Hr & Hfst & Hval); [intros a' Ha'; apply Hall; by right|].
    destruct (lookup_lt_is_Some_2 h a) as [p Hp]; [apply Hall; by left|].
    exists ((a, p) :: objs). split; [|split; [by rewrite fmap_cons, Hfst | by constructor]].
    apply mapM_Some_2. constructor; [by rewrite Hp | by apply mapM_Some_1].
Qed.

Lemma sorted_objs_ptrs h objs :
  Forall (λ x, h !! x.1 = Some x.2) objs →
  StronglySorted (desc (λ x : ptr * Post.t, Post.CreatedAt x.2)) objs →
  StronglySorted (not_older h) objs.*1.
Proof.
  intros Hval Hs. induction Hs as [|x l Hs IH Hx]; [constructor|].
  apply Forall_cons in Hval as [Hvx Hvl]. simpl. constructor; [by apply IH|].
  apply Forall_fmap. rewrite Forall_forall in Hx, Hvl. apply Forall_forall.
  intros y Hy. exists x.2, y.2. split; [done|]. split; [by apply Hvl|]. by apply Hx.
Qed.

Lemma filter_objs_ptrs h t objs :
  Forall (λ x, h !! x.1 = Some x.2) objs →
  filter (λ a, created_in h a = Some t) objs.*1 =
    (filter (λ x : ptr * Post.t, Post.CreatedAt x.2 = t) objs).*1.
Proof.
  induction 1 as [|x l Hx Hl IH]; [done|].
  assert (created_in h x.1 = Some (Post.CreatedAt x.2)) as Hc
    by (unfold created_in; by rewrite Hx).
  rewrite fmap_cons, !filter_cons.
  repeat case_decide; rewrite ?fmap_cons, IH; congruence.
Qed.

Lemma joined_posts_elem e order a :
  a ∈ joined_posts e order → ∃ s l, s ∈ order ∧ sub_posts e s = Some l ∧ a ∈ l.
Proof.
  unfold joined_posts. induction order as [|s rest IH]; simpl; intros Ha.
  - by apply elem_of_nil in Ha.
  - apply elem_of_app in Ha as [Ha|Ha].
    + destruct (sub_posts e s) as [l|] eqn:Hsp; [|by apply elem_of_nil in Ha].
      exists s, l. split; [by left | done].
    + destruct (IH Ha) as (s' & l & Hs' & Hsp & Hal). exists s', l. split; [by right | done].
Qed.

Lemma joined_posts_NoDup e order :
  posts_owned_once e → NoDup order → NoDup (joined_posts e order).
Proof.
  rewrite posts_owned_once_alt. intros Ho Hnd.
  induction Hnd as [|s rest Hs Hnd IH]; [constructor|].
  unfold joined_posts. simpl. fold (joined_posts e rest).
  apply NoDup_app. split; [|split; [|done]].
  - destruct (sub_posts e s) as [l|] eqn:Hsp; [|constructor].
    apply NoDup_alt. intros i j a Hi Hj. by destruct (Ho s s l l i j a).
  - intros a Ha Ha'. destruct (sub_posts e s) as [l|] eqn:Hsp; [|by apply elem_of_nil in Ha].
    simpl in Ha. apply joined_posts_elem in Ha' as (s' & l' & Hs' & Hsp' & Hal').
    apply list_elem_of_lookup in Ha as [i Hi]. apply list_elem_of_lookup in Hal' as [j Hj].
    destruct (Ho s s' l l' i j a) as [-> _]; done.
Qed.

Lemma joined_posts_valid e order a :
  ptrs_valid e → a ∈ joined_posts e order → (a < length (heap e))%nat.
Proof.
  rewrite ptrs_valid_alt. intros [_ Hs] Ha.
  apply joined_posts_elem in Ha as (s & l & _ & Hsp & Hal). by eapply Hs.
Qed.

(** What [GetUserFeed] returns in a well-formed state. *)
Lemma GetUserFeed_spec e u user order :
  joined_exist e → ptrs_valid e → posts_owned_once e →
  users e !! u = Some user → order ≡ₚ elements (User.Subreddits user) →
  ∃ feed, GetUserFeed u order e = Ok feed ∧
    feed ≡ₚ joined_posts e order ∧
    StronglySorted (not_older (heap e)) feed ∧
    (∀ t, filter (λ a, created_in (heap e) a = Some t) feed =
          filter (λ a, created_in (heap e) a = Some t) (joined_posts e order)) ∧
    NoDup feed.
Proof.
  intros Hj Hv Ho Hu Hperm. unfold GetUserFeed. rewrite Hu.
  rewrite gather_feed_joined; last first.
  { intros s Hs. apply (Hj u user s Hu). apply elem_of_elements. by rewrite <- Hperm. }
  simpl.
  destruct (resolve_valid (heap e) (joined_posts e order)) as (objs & -> & Hfst & Hval).
  { intros a. by apply joined_posts_valid. }
  set (key := λ x : ptr * Post.t, Post.CreatedAt x.2).
  pose proof (sortPosts_perm key objs) as Hsp.
  eexists. split; [done|]. split; [|split; [|split]].
  - by rewrite Hsp, Hfst.
  - apply sorted_objs_ptrs; [by rewrite Hsp | apply sortPosts_sorted].
  - intros t. rewrite filter_objs_ptrs by (by rewrite Hsp).
    rewrite (sortPosts_stable key t), <- Hfst. symmetry. by apply filter_objs_ptrs.
  - rewrite Hsp, Hfst. apply joined_posts_NoDup; [done|].
    rewrite Hperm. apply NoDup_elements.
Qed.

(** C3. [GetUserFeed] fails with NotFound("user") for an unknown username.
    For a registered user, in any state the engine can reach and for any
    enumeration of the joined set, it returns a permutation of the
    concatenation of the joined subreddits' post sequences, ordered by
    creation time with the most recent first; posts with equal creation
    times keep the relative order they have in the concatenation (the
    sort is stable and breaks no tie); and no post occurs twice. *)
Theorem C3_user_feed (e : RedditEngine) (u : string) (order : list string) :
  (users e !! u = None → GetUserFeed u order e = Err (NotFound "user")) ∧
  (∀ user, reachable e → users e !! u = Some user →
     order ≡ₚ elements (User.Subreddits user) →
     ∃ feed, GetUserFeed u order e = Ok feed ∧
       feed ≡ₚ joined_posts e order ∧
       StronglySorted (not_older (heap e)) feed ∧
       (∀ t, filter (λ a, created_in (heap e) a = Some t) feed =
             filter (λ a, created_in (heap e) a = Some t) (joined_posts e order)) ∧
       NoDup feed).
Proof.
  split.
  - intros Hu. unfold GetUserFeed. by rewrite Hu.
  - intros user Hr Hu Hperm.
    destruct (reachable_refs e Hr) as [Hv Ho].
    by apply (GetUserFeed_spec e u user order (reachable_joined_exist e Hr)).
Qed.

Example GetUserFeed_science_first :
  GetUserFeed "bob" ["science"; "art"] (run feed_ops NewRedditEngine) = Ok [1; 0; 2]%nat.
Proof. by vm_compute. Qed.

Example GetUserFeed_art_first :
  GetUserFeed "bob" ["art"; "science"] (run feed_ops NewRedditEngine) = Ok [1; 2; 0]%nat.
Proof. by vm_compute. Qed.

Lemma C3_user_feed_witness :
  ∃ feed, GetUserFeed "bob" ["science"; "art"] (run feed_ops NewRedditEngine) = Ok feed ∧
    NoDup feed.
Proof.
  destruct (C3_user_feed (run feed_ops NewRedditEngine) "bob" ["science"; "art"]) as [_ H].
  destruct (H (User.mk "bob" "pw" 0 1 ({["art"]} ∪ ({["science"]} ∪ ∅))))
    as (feed & Hf & _ & _ & _ & Hnd).
  - apply reachable_run. constructor.
  - by vm_compute.
  - vm_compute. apply perm_swap || reflexivity.
  - exists feed. split; [exact Hf | exact Hnd].
Defined.

Lemma exec_subreddits_kept op e s :
  is_Some (subreddits e !! s) → is_Some (subreddits (exec op e) !! s).
Proof.
  intros Hs. destruct op; simpl; try done.
  - unfold RegisterUser. by case_match.
  - unfold CreateSubreddit. case_match; [done|]. simpl.
    rewrite lookup_insert. by case_decide.
  - unfold JoinSubreddit. repeat case_match; try done. simpl.
    rewrite lookup_insert. by case_decide.
  - unfold LeaveSubreddit. repeat case_match; try done. simpl.
    rewrite lookup_insert. by case_decide.
  - unfold CreatePost. case_match; [|done]. simpl.
    rewrite lookup_insert. by case_decide.
  - unfold AddComment. by repeat case_match.
  - unfold VotePost. repeat case_match; try done; simpl; by rewrite updateKarma_subreddits.
  - unfold SendDirectMessage. by repeat case_match.
  - unfold ReplyToDirectMessage. by repeat case_match.
Qed.

(** C9. Every subreddit name in a user's joined set is a key of the
    subreddit map: this holds in the new engine, every engine operation
    preserves it (and removes no subreddit), so it holds in every
    reachable state.  Under it the unchecked subreddit lookup of
    [GetUserFeed] finds an entry for every enumerated name, and in a
    reachable state [GetUserFeed] does not panic. *)
Theorem C9_joined_subreddits_exist :
  joined_exist NewRedditEngine ∧
  (∀ op e, joined_exist e → joined_exist (exec op e)) ∧
  (∀ op e s, is_Some (subreddits e !! s) → is_Some (subreddits (exec op e) !! s)) ∧
  (∀ e, reachable e → joined_exist e) ∧
  (∀ e u user order, joined_exist e → users e !! u = Some user →
     order ≡ₚ elements (User.Subreddits user) →
     Forall (λ s, is_Some (subreddits e !! s)) order ∧
     gather_feed e order [] = Some (joined_posts e order)) ∧
  (∀ e u user order, reachable e → users e !! u = Some user →
     order ≡ₚ elements (User.Subreddits user) →
     GetUserFeed u order e ≠ Panic).
Proof.
  split; [apply NewRedditEngine_joined_exist|].
  split; [apply exec_joined_exist|].
  split; [apply exec_subreddits_kept|].
  split; [apply reachable_joined_exist|].
  split.
  - intros e u user order Hj Hu Hperm.
    assert (∀ s, s ∈ order → is_Some (subreddits e !! s)) as Hall.
    { intros s Hs. apply (Hj u user s Hu). apply elem_of_elements. by rewrite <- Hperm. }
    split; [by apply Forall_forall|]. by rewrite gather_feed_joined.
  - intros e u user order Hr Hu Hperm.
    destruct (reachable_refs e Hr) as [Hv Ho].
    destruct (GetUserFeed_spec e u user order (reachable_joined_exist e Hr) Hv Ho Hu Hperm)
      as (feed & -> & _). done.
Qed.

Lemma C9_joined_subreddits_exist_witness :
  joined_exist (run feed_ops NewRedditEngine) ∧
  gather_feed (run feed_ops NewRedditEngine) ["science"; "art"] [] = Some [0; 1; 2]%nat.
Proof.
  destruct C9_joined_subreddits_exist as (_ & _ & _ & Hreach & Hloop & _).
  assert (joined_exist (run feed_ops NewRedditEngine)) as Hj
    by (apply Hreach, reachable_run; constructor).
  split; [exact Hj|].
  destruct (Hloop (run feed_ops NewRedditEngine) "bob"
              (User.mk "bob" "pw" 0 1 ({["art"]} ∪ ({["science"]} ∪ ∅)))
              ["science"; "art"] Hj) as [_ ->].
  - by vm_compute.
  - vm_compute. apply perm_swap || reflexivity.
  - by vm_compute.
Defined.

(** ** Statistics *)

Lemma sum_Z_perm l l' : l ≡ₚ l' → sum_Z l = sum_Z l'.
Proof. induction 1; simpl in *; lia. Qed.

Lemma sum_posts_perm h f ps ps' : ps ≡ₚ ps' → sum_posts h f ps = sum_posts h f ps'.
Proof. intros H. unfold sum_posts. apply sum_Z_perm. by rewrite H. Qed.

Lemma tree_size_eq c : tree_size c = S (forest_size (Comment.Children c)).
Proof. by destruct c. Qed.

Lemma countComments_in_eq c : countComments_in c = countComments (Comment.Children c).
Proof.
  destruct c as [id content author parent created votes children]. simpl.
  unfold countComments. generalize (GoInt.len children).
  induction children as [|c cs IH]; intros count; simpl; [done | apply IH].
Qed.

Lemma descendants_cons c cs :
  descendants (c :: cs) = Z.of_nat (forest_size (Comment.Children c)) + descendants cs.
Proof. done. Qed.

Lemma forest_size_descendants cs : Z.of_nat (forest_size cs) = GoInt.len cs + descendants cs.
Proof.
  unfold GoInt.len, descendants. induction cs as [|c cs IH]; [done|].
  change (forest_size (c :: cs)) with (tree_size c + forest_size cs)%nat.
  rewrite tree_size_eq, fmap_cons.
  change (sum_Z (?x :: ?l)) with (x + sum_Z l). rewrite length_cons. lia.
Qed.

Lemma countComments_loop_spec cs :
  Forall (λ c, countComments_in c
               = GoInt.wrap (Z.of_nat (forest_size (Comment.Children c)))) cs →
  ∀ count, cs ≠ [] →
  countComments_loop cs count = GoInt.wrap (count + descendants cs).
Proof.
  induction 1 as [|c cs Hc Hcs IH]; intros count Hne; [done|].
  rewrite descendants_cons.
  change (countComments_loop (c :: cs) count)
    with (countComments_loop cs (GoInt.add count (countComments_in c))).
  rewrite Hc. unfold GoInt.add. rewrite GoIntFacts.wrap_add_r.
  destruct cs as [|c' cs'].
  - simpl. f_equal. unfold descendants. simpl. lia.
  - rewrite IH by done. rewrite GoIntFacts.wrap_add_l. f_equal. lia.
Qed.

(** [countComments] counts every node of the forest. *)
Lemma countComments_forest_size cs :
  countComments cs = GoInt.wrap (Z.of_nat (forest_size cs)).
Proof.
  assert (∀ c, countComments_in c
               = GoInt.wrap (Z.of_nat (forest_size (Comment.Children c)))) as Hin.
  { induction c as [c IH] using comment_tree_ind.
    rewrite countComments_in_eq. unfold countComments.
    destruct (Comment.Children c) as [|c' cs'] eqn:Hcs; [done|].
    rewrite countComments_loop_spec by done. by rewrite forest_size_descendants. }
  unfold countComments. destruct cs as [|c cs]; [done|].
  rewrite countComments_loop_spec; [by rewrite forest_size_descendants | | done].
  apply Forall_forall. intros; apply Hin.
Qed.

Lemma sum_posts_cons h f id a ps post :
  h !! a = Some post → sum_posts h f ((id, a) :: ps) = f post + sum_posts h f ps.
Proof. intros Ha. unfold sum_posts. simpl. by rewrite Ha. Qed.

Lemma posts_totals_cons h id a ps post c u d :
  h !! a = Some post →
  posts_totals h ((id, a) :: ps) c u d =
    posts_totals h ps (c + Z.of_nat (forest_size (Post.Comments post)))
      (u + up_part (Post.Votes post)) (d + down_part (Post.Votes post)).
Proof.
  intros Ha. unfold posts_totals. rewrite !(sum_posts_cons _ _ _ _ _ _ Ha).
  by rewrite !Z.add_assoc.
Qed.

Lemma comments_step c cs :
  GoInt.add (GoInt.wrap c) (countComments cs) = GoInt.wrap (c + Z.of_nat (forest_size cs)).
Proof.
  rewrite countComments_forest_size. unfold GoInt.add.
  by rewrite GoIntFacts.wrap_add_l, GoIntFacts.wrap_add_r.
Qed.

Lemma actor_posts_loop_spec h ps :
  Forall (λ x : string * ptr, is_Some (h !! x.2)) ps → ∀ c u d,
  actor_posts_loop h ps (GoInt.wrap c, GoInt.wrap u, GoInt.wrap d)
    = Some (posts_totals h ps c u d).
Proof.
  induction 1 as [|[id a] ps [post Ha] Hps IH]; intros c u d.
  - unfold posts_totals, sum_posts. simpl. by rewrite !Z.add_0_r.
  - simpl in Ha. rewrite (posts_totals_cons _ _ _ _ _ _ _ _ Ha). simpl. rewrite Ha.
    rewrite comments_step. unfold up_part, down_part. case_bool_decide.
    + rewrite GoIntFacts.add_wrap_l, (Z.add_0_r d). apply IH.
    + rewrite GoIntFacts.add_neg_r, (Z.add_0_r u). apply IH.
Qed.

Lemma http_posts_loop_spec h ps :
  Forall (λ x : string * ptr, is_Some (h !! x.2)) ps → ∀ c u d,
  http_posts_loop h ps (GoInt.wrap c, GoInt.wrap u, GoInt.wrap d)
    = Some (posts_totals h ps c u d).
Proof.
  induction 1 as [|[id a] ps [post Ha] Hps IH]; intros c u d.
  - unfold posts_totals, sum_posts. simpl. by rewrite !Z.add_0_r.
  - simpl in Ha. rewrite (posts_totals_cons _ _ _ _ _ _ _ _ Ha). simpl. rewrite Ha.
    rewrite comments_step. unfold up_part, down_part. case_bool_decide.
    + rewrite GoIntFacts.add_wrap_l, (Z.add_0_r d). apply IH.
    + rewrite GoIntFacts.add_neg_r, (Z.add_0_r u). apply IH.
Qed.

Lemma users_loop_spec us : ∀ acc, users_loop us acc = acc ++ (karma_entry <$> us).
Proof.
  induction us as [|[u user] us IH]; intros acc; simpl; [by rewrite app_nil_r|].
  by rewrite IH, <- app_assoc.
Qed.

Lemma dms_loop_spec ds : ∀ total,
  dms_loop ds (GoInt.wrap total) =
    GoInt.wrap (total + sum_Z ((λ x, GoInt.len x.2) <$> ds)).
Proof.
  induction ds as [|[k messages] ds IH]; intros total.
  - simpl. by rewrite Z.add_0_r.
  - rewrite fmap_cons. cbn [dms_loop sum_Z foldr snd].
    rewrite GoIntFacts.add_wrap_l, IH. f_equal. unfold sum_Z. lia.
Qed.

Lemma top_loop_spec count userKarmas : ∀ i topUsers,
  top_loop count i userKarmas topUsers = topUsers ++ take count (drop i userKarmas).
Proof.
  induction count as [|count IH]; intros i topUsers; simpl.
  - by rewrite take_0, app_nil_r.
  - destruct (userKarmas !! i) as [x|] eqn:Hx.
    + rewrite IH, <- app_assoc. simpl. by rewrite (drop_S _ _ _ Hx).
    + apply lookup_ge_None in Hx. by rewrite drop_ge, app_nil_r.
Qed.

Lemma StronglySorted_weaken {A} (R R' : A → A → Prop) l :
  (∀ x y, R x y → R' x y) → StronglySorted R l → StronglySorted R' l.
Proof.
  intros HR. induction 1 as [|x l Hs IH Hx]; constructor; [done|].
  eapply Forall_impl; [exact Hx | auto].
Qed.

Lemma map_to_list_ptrs_valid e ps :
  ptrs_valid e → ps ≡ₚ map_to_list (posts e) →
  Forall (λ x : string * ptr, is_Some (heap e !! x.2)) ps.
Proof.
  intros [Hv _] Hperm. apply Forall_forall. intros [id a] Hx.
  rewrite Hperm in Hx. apply elem_of_map_to_list in Hx.
  apply lookup_lt_is_Some_2. by eapply Hv.
Qed.

Section StatsFacts.
Variable sort_Slice : list UserKarma.t → (UserKarma.t → UserKarma.t → bool) → list UserKarma.t.

(** The contract of [sort.Slice]: it permutes the slice, and afterwards
    no element is [less] than an element before it.  No stability is
    promised. *)
Hypothesis sort_Slice_perm : ∀ l less, sort_Slice l less ≡ₚ l.
Hypothesis sort_Slice_sorted : ∀ l,
  StronglySorted (λ a b, karma_less b a = false) (sort_Slice l karma_less).

(** C7. Both statistics walks, for any enumeration of the three maps.
    The comment total is the number of nodes of all comment forests,
    every descendant counted; a post with a positive counter adds the
    counter to the upvote total and nothing to the downvote total, any
    other post adds the negation of its counter to the downvote total
    and nothing to the upvote total (net counts); the direct-message
    total is the sum of the lengths of the top-level inboxes (all sums
    in [int] arithmetic).  The top users are the first 10 (actor) and
    the first 5 (HTTP handler) of a ranking of all users by karma,
    highest first. *)
Theorem C7_stats (e : RedditEngine) (ps : list (string * ptr))
    (us : list (string * User.t)) (ds : list (string * list DirectMessage.t)) :
  ps ≡ₚ map_to_list (posts e) → us ≡ₚ map_to_list (users e) →
  ds ≡ₚ map_to_list (directMessages e) → ptrs_valid e →
  ∃ sa sh ranked,
    actor_GetStats sort_Slice ps us ds e = Ok sa ∧
    handleGetStats sort_Slice ps us ds e = Ok sh ∧
    Comments sa =
      GoInt.wrap (sum_posts (heap e) (λ p, Z.of_nat (forest_size (Post.Comments p)))
                    (map_to_list (posts e))) ∧
    TotalUpvotes sa =
      GoInt.wrap (sum_posts (heap e) (λ p, up_part (Post.Votes p)) (map_to_list (posts e))) ∧
    TotalDownvotes sa =
      GoInt.wrap (sum_posts (heap e) (λ p, down_part (Post.Votes p))
                    (map_to_list (posts e))) ∧
    (∀ v, (0 < v → up_part v = v ∧ down_part v = 0) ∧
          (v <= 0 → up_part v = 0 ∧ down_part v = - v)) ∧
    DirectMessages sa =
      GoInt.wrap (sum_Z ((λ x, GoInt.len x.2) <$> map_to_list (directMessages e))) ∧
    Comments sh = Comments sa ∧ TotalUpvotes sh = TotalUpvotes sa ∧
    TotalDownvotes sh = TotalDownvotes sa ∧ DirectMessages sh = DirectMessages sa ∧
    ranked ≡ₚ karma_entry <$> map_to_list (users e) ∧
    StronglySorted karma_desc ranked ∧
    TopUsers sa = take 10 ranked ∧
    TopUsers sh = take 5 ranked.
Proof.
  intros Hps Hus Hds Hv.
  pose proof (map_to_list_ptrs_valid e ps Hv Hps) as Hvalid.
  unfold actor_GetStats, handleGetStats.
  change (0, 0, 0) with (GoInt.wrap 0, GoInt.wrap 0, GoInt.wrap 0).
  rewrite (actor_posts_loop_spec _ _ Hvalid), (http_posts_loop_spec _ _ Hvalid).
  unfold posts_totals. rewrite !Z.add_0_l.
  change (dms_loop ds 0) with (dms_loop ds (GoInt.wrap 0)).
  rewrite dms_loop_spec, Z.add_0_l, users_loop_spec, top_loop_spec. simpl.
  set (ranked := sort_Slice (karma_entry <$> us) karma_less).
  eexists _, _, ranked. do 2 (split; [done|]). simpl.
  split; [by rewrite (sum_posts_perm _ _ _ _ Hps)|].
  split; [by rewrite (sum_posts_perm _ _ _ _ Hps)|].
  split; [by rewrite (sum_posts_perm _ _ _ _ Hps)|].
  split.
  { intros v. unfold up_part, down_part.
    split; intros Hsign; case_bool_decide; (split; lia). }
  split; [f_equal; apply sum_Z_perm; by rewrite Hds|].
  do 4 (split; [done|]).
  split; [unfold ranked; by rewrite sort_Slice_perm, Hus|].
  split.
  { eapply StronglySorted_weaken; [|apply sort_Slice_sorted].
    intros x y. unfold karma_less, karma_desc. intros H.
    apply bool_decide_eq_false in H. lia. }
  split; [|by rewrite drop_0].
  case_bool_decide as Hlen; [done|].
  symmetry. apply take_ge. unfold GoInt.len in Hlen. lia.
Qed.
End StatsFacts.

Lemma merge_sort_Slice_perm l less : merge_sort_Slice l less ≡ₚ l.
Proof. apply merge_sort_Permutation. Qed.

Lemma merge_sort_Slice_sorted l :
  StronglySorted (λ a b, karma_less b a = false) (merge_sort_Slice l karma_less).
Proof.
  assert (Transitive (λ a b, karma_less b a = false)) as Htrans.
  { intros a b c. unfold karma_less. rewrite !bool_decide_eq_false. lia. }
  assert (Total (λ a b, karma_less b a = false)) as Htotal.
  { intros a b. unfold karma_less. rewrite !bool_decide_eq_false. lia. }
  apply (StronglySorted_merge_sort _).
Qed.

Example actor_GetStats_scenario :
  actor_GetStats merge_sort_Slice (map_to_list (posts e_stats)) (map_to_list (users e_stats))
    (map_to_list (directMessages e_stats)) e_stats =
  Ok (mkStats 2 2 3 2 1 2 2 [UserKarma.mk "bob" 0; UserKarma.mk "alice" (-1)]).
Proof. by vm_compute. Qed.

Example handleGetStats_scenario :
  handleGetStats merge_sort_Slice (map_to_list (posts e_stats)) (map_to_list (users e_stats))
    (map_to_list (directMessages e_stats)) e_stats =
  Ok (mkStats 2 2 3 2 1 2 2 [UserKarma.mk "bob" 0; UserKarma.mk "alice" (-1)]).
Proof. by vm_compute. Qed.

Lemma C7_stats_witness :
  ∃ sa sh ranked,
    actor_GetStats merge_sort_Slice (map_to_list (posts e_stats))
      (map_to_list (users e_stats)) (map_to_list (directMessages e_stats)) e_stats = Ok sa ∧
    handleGetStats merge_sort_Slice (map_to_list (posts e_stats))
      (map_to_list (users e_stats)) (map_to_list (directMessages e_stats)) e_stats = Ok sh ∧
    TopUsers sa = take 10 ranked ∧ TopUsers sh = take 5 ranked.
Proof.
  destruct (C7_stats merge_sort_Slice merge_sort_Slice_perm merge_sort_Slice_sorted e_stats
              (map_to_list (posts e_stats)) (map_to_list (users e_stats))
              (map_to_list (directMessages e_stats)))
    as (sa & sh & ranked & Ha & Hh & _ & _ & _ & _ & _ & _ & _ & _ & _ & _ & _ & Hta & Hth);
    [reflexivity | reflexivity | reflexivity | |].
  - apply reachable_refs, reachable_run. constructor.
  - exists sa, sh, ranked. split; [exact Ha|]. split; [exact Hh|].
    split; [exact Hta | exact Hth].
Defined.

(** A reply is reachable only through the message it answers: it is in
    no inbox, so it cannot itself be answered. *)
Example reply_to_a_reply_not_found :
  let e1 := (ReplyToDirectMessage "dm_9" "bob" "hello" ["bob"] 10 10 e_alice_dm_bob).1 in
  ReplyToDirectMessage "dm_10" "alice" "again" ["bob"] 11 11 e1 =
    (e1, Err (NotFound "original message")).
Proof. by vm_compute. Qed.

Example sortPosts_most_recent_first :
  sortPosts (λ x : Z * string, x.1) [(1, "a"); (3, "b"); (2, "c"); (3, "d"); (1, "e")]
  = [(3, "b"); (3, "d"); (2, "c"); (1, "a"); (1, "e")].
Proof. by vm_compute. Qed.

(** * Further properties of the engine *)

(** ** Failed operations *)

(** X6. An engine operation that returns an error has changed nothing,
    and its message is one of the nine "... not found" / "... already
    exists" texts. *)
Theorem X6_errors_change_nothing (op : Op) (e : RedditEngine) (msg : string) :
  exec_error op e = Some msg → exec op e = e ∧ msg ∈ engine_errors.
Proof.
  unfold engine_errors.
  destruct op; simpl;
    unfold RegisterUser, CreateSubreddit, JoinSubreddit, LeaveSubreddit, GetComments,
      CreatePost, AddComment, VotePost, GetUserFeed, SendDirectMessage,
      ReplyToDirectMessage, GetDirectMessages;
    repeat case_match; simpl; try done;
    intros [= <-]; (split; [done|]); set_solver.
Qed.

Lemma X6_errors_change_nothing_witness :
  exec (OpVotePost "post_404" true) e_alice_post = e_alice_post ∧
  NotFound "post" ∈ engine_errors.
Proof. apply (X6_errors_change_nothing (OpVotePost "post_404" true) e_alice_post). reflexivity. Defined.

(** ** Subreddits *)

(** X1. [CreateSubreddit] succeeds exactly when the name is free, whoever
    the creator is (the creator is not looked up): it then stores a
    subreddit with the given fields, no post and no member, and changes
    nothing else; on a taken name it fails with AlreadyExists and changes
    nothing. *)
Theorem X1_create_subreddit (name description creator : string) (now : Time)
    (e : RedditEngine) :
  (subreddits e !! name = None →
   ∃ e1, CreateSubreddit name description creator now e = (e1, Ok ()) ∧
     subreddits e1 !! name = Some (Subreddit.mk name description creator now [] ∅) ∧
     (∀ s, s ≠ name → subreddits e1 !! s = subreddits e !! s) ∧
     users e1 = users e ∧ posts e1 = posts e ∧
     directMessages e1 = directMessages e ∧ heap e1 = heap e ∧
     ∀ d' c' now', CreateSubreddit name d' c' now' e1 = (e1, Err (AlreadyExists "subreddit"))) ∧
  (is_Some (subreddits e !! name) →
   CreateSubreddit name description creator now e = (e, Err (AlreadyExists "subreddit"))).
Proof.
  split.
  - intros Hfree. unfold CreateSubreddit at 1. rewrite Hfree. eexists. split; [done|].
    simpl. split; [apply lookup_insert_eq|]. split; [intros s Hs; by apply lookup_insert_ne|].
    do 4 (split; [done|]). intros d' c' now'. unfold CreateSubreddit. simpl.
    by rewrite lookup_insert_eq.
  - intros [sub Hs]. unfold CreateSubreddit. by rewrite Hs.
Qed.

Lemma X1_create_subreddit_witness :
  ∃ e1, CreateSubreddit "science" "d" "nobody" 2 NewRedditEngine = (e1, Ok ()) ∧
    CreateSubreddit "science" "x" "alice" 3 e1 = (e1, Err (AlreadyExists "subreddit")).
Proof.
  destruct (X1_create_subreddit "science" "d" "nobody" 2 NewRedditEngine) as [H _].
  destruct H as (e1 & Hc & _ & _ & _ & _ & _ & _ & Hagain); [reflexivity|].
  exists e1. split; [exact Hc | apply Hagain].
Defined.

(** X2. [JoinSubreddit(u, s)] fails with NotFound exactly when the user or
    the subreddit is missing; the user is looked up first, so with both
    missing the error names the user.  On success [s] is in the user's
    joined set and [u] in the subreddit's member set, both sets keep what
    they had, and nothing else changes: the user keeps name, password,
    karma and creation time, the subreddit keeps name, description,
    creator, creation time and posts, and every other user and subreddit,
    the posts and the inboxes are as before. *)
Theorem X2_join_subreddit (u s : string) (e : RedditEngine) :
  (is_NotFound (JoinSubreddit u s e).2 ↔
     users e !! u = None ∨ subreddits e !! s = None) ∧
  (users e !! u = None → JoinSubreddit u s e = (e, Err (NotFound "user"))) ∧
  (is_Some (users e !! u) → subreddits e !! s = None →
     JoinSubreddit u s e = (e, Err (NotFound "subreddit"))) ∧
  (∀ user sub, users e !! u = Some user → subreddits e !! s = Some sub →
     ∃ e' user' sub', JoinSubreddit u s e = (e', Ok ()) ∧
       users e' !! u = Some user' ∧ subreddits e' !! s = Some sub' ∧
       User.Subreddits user' = {[s]} ∪ User.Subreddits user ∧
       Subreddit.Members sub' = {[u]} ∪ Subreddit.Members sub ∧
       User.Karma user' = User.Karma user ∧ User.Password user' = User.Password user ∧
       Subreddit.Posts sub' = Subreddit.Posts sub ∧
       (∀ v, v ≠ u → users e' !! v = users e !! v) ∧
       (∀ t, t ≠ s → subreddits e' !! t = subreddits e !! t) ∧
       posts e' = posts e ∧ directMessages e' = directMessages e ∧ heap e' = heap e ∧
       User.Username user' = User.Username user ∧
       User.CreatedAt user' = User.CreatedAt user ∧
       Subreddit.Name sub' = Subreddit.Name sub ∧
       Subreddit.Description sub' = Subreddit.Description sub ∧
       Subreddit.Creator sub' = Subreddit.Creator sub ∧
       Subreddit.CreatedAt sub' = Subreddit.CreatedAt sub ∧
       s ∈ User.Subreddits user' ∧ u ∈ Subreddit.Members sub').
Proof.
  split; [|split; [|split]].
  - unfold JoinSubreddit.
    destruct (users e !! u) as [user|] eqn:Hu.
    + destruct (subreddits e !! s) as [sub|] eqn:Hs; simpl.
      * split; [intros [w Hw]; discriminate | intros [?|?]; discriminate].
      * split; [by right | intros _; by exists "subreddit"].
    + simpl. split; [by left | intros _; by exists "user"].
  - intros Hu. unfold JoinSubreddit. by rewrite Hu.
  - intros [user Hu] Hs. unfold JoinSubreddit. by rewrite Hu, Hs.
  - intros user sub Hu Hs. eexists _, _, _. split; [by apply JoinSubreddit_ok|]. simpl.
    split; [apply lookup_insert_eq|]. split; [apply lookup_insert_eq|]. simpl.
    do 5 (split; [done|]).
    split; [intros v Hv; by apply lookup_insert_ne|].
    split; [intros t Ht; by apply lookup_insert_ne|].
    do 9 (split; [done|]). split; set_solver.
Qed.

Lemma X2_join_subreddit_witness :
  ∃ e' user', JoinSubreddit "bob" "science" e_bob_science = (e', Ok ()) ∧
    users e' !! "bob" = Some user' ∧ User.Subreddits user' = {["science"]} ∪ ∅.
Proof.
  destruct (X2_join_subreddit "bob" "science" e_bob_science) as (_ & _ & _ & H).
  destruct (H (User.mk "bob" "pw" 0 1 ∅) (Subreddit.mk "science" "d" "alice" 2 [] ∅))
    as (e' & user' & sub' & Hj & Hu & _ & HS & _); [reflexivity | reflexivity |].
  exists e', user'. split; [exact Hj|]. split; [exact Hu | exact HS].
Defined.

(** ** Membership is kept consistent *)

Lemma joined_is_Some e u : is_Some (joined e u) ↔ is_Some (users e !! u).
Proof. unfold joined. by rewrite fmap_is_Some. Qed.

Lemma members_is_Some e s : is_Some (members e s) ↔ is_Some (subreddits e !! s).
Proof. unfold members. by rewrite fmap_is_Some. Qed.

Lemma membership_consistent_alt e :
  membership_consistent e ↔
  (∀ u s S M, joined e u = Some S → members e s = Some M → (s ∈ S ↔ u ∈ M)) ∧
  (∀ s M u, members e s = Some M → u ∈ M → is_Some (joined e u)) ∧
  (∀ u S s, joined e u = Some S → s ∈ S → is_Some (members e s)).
Proof.
  unfold membership_consistent. setoid_rewrite joined_is_Some.
  by setoid_rewrite members_is_Some.
Qed.

Lemma exec_same_views op e :
  match op with
  | OpRegisterUser _ _ _ | OpCreateSubreddit _ _ _ _
  | OpJoinSubreddit _ _ | OpLeaveSubreddit _ _ => True
  | _ => (∀ u, joined (exec op e) u = joined e u) ∧
         (∀ s, members (exec op e) s = members e s)
  end.
Proof.
  destruct op; simpl; try done.
  - unfold CreatePost. case_match eqn:Hs; [|done]. simpl. split; [done|].
    intros s. unfold members. simpl. rewrite lookup_insert.
    case_decide; [subst; by rewrite Hs | done].
  - unfold AddComment. by repeat case_match.
  - assert (∀ w v e0, (∀ u, joined (updateKarma w v e0) u = joined e0 u) ∧
                       (∀ s, members (updateKarma w v e0) s = members e0 s)) as Hk.
    { intros w v e0. unfold members. rewrite updateKarma_subreddits. split; [|done].
      intros u. unfold joined, updateKarma.
      destruct (users e0 !! w) as [user|] eqn:Hw; [|done]. simpl.
      rewrite lookup_insert. case_decide; [subst; by rewrite Hw | done]. }
    unfold VotePost. repeat case_match; try done; simpl;
      (split; intros x; [rewrite (proj1 (Hk _ _ _)) | rewrite (proj2 (Hk _ _ _))]; done).
  - unfold SendDirectMessage. by repeat case_match.
  - unfold ReplyToDirectMessage. by repeat case_match.
Qed.

Lemma RegisterUser_views username password now e :
  users e !! username = None →
  (∀ u, joined (RegisterUser username password now e).1 u =
        if decide (username = u) then Some ∅ else joined e u) ∧
  (∀ s, members (RegisterUser username password now e).1 s = members e s).
Proof.
  intros Hu. unfold RegisterUser. rewrite Hu. simpl. split; [|done].
  intros u. unfold joined. simpl. rewrite lookup_insert. by case_decide.
Qed.

Lemma CreateSubreddit_views name description creator now e :
  subreddits e !! name = None →
  (∀ u, joined (CreateSubreddit name description creator now e).1 u = joined e u) ∧
  (∀ s, members (CreateSubreddit name description creator now e).1 s =
        if decide (name = s) then Some ∅ else members e s).
Proof.
  intros Hs. unfold CreateSubreddit. rewrite Hs. simpl. split; [done|].
  intros s. unfold members. simpl. rewrite lookup_insert. by case_decide.
Qed.

Lemma JoinSubreddit_views username name e user sub :
  users e !! username = Some user → subreddits e !! name = Some sub →
  (∀ u, joined (JoinSubreddit username name e).1 u =
        if decide (username = u) then Some ({[name]} ∪ User.Subreddits user)
        else joined e u) ∧
  (∀ s, members (JoinSubreddit username name e).1 s =
        if decide (name = s) then Some ({[username]} ∪ Subreddit.Members sub)
        else members e s).
Proof.
  intros Hu Hs. rewrite (JoinSubreddit_ok _ _ _ _ _ Hu Hs). simpl. split.
  - intros u. unfold joined. simpl. rewrite lookup_insert. by case_decide.
  - intros s. unfold members. simpl. rewrite lookup_insert. by case_decide.
Qed.

Lemma LeaveSubreddit_views username name e user sub :
  users e !! username = Some user → subreddits e !! name = Some sub →
  (∀ u, joined (LeaveSubreddit username name e).1 u =
        if decide (username = u) then Some (User.Subreddits user ∖ {[name]})
        else joined e u) ∧
  (∀ s, members (LeaveSubreddit username name e).1 s =
        if decide (name = s) then Some (Subreddit.Members sub ∖ {[username]})
        else members e s).
Proof.
  intros Hu Hs. rewrite (LeaveSubreddit_ok _ _ _ _ _ Hu Hs). simpl. split.
  - intros u. unfold joined. simpl. rewrite lookup_insert. by case_decide.
  - intros s. unfold members. simpl. rewrite lookup_insert. by case_decide.
Qed.

Lemma exec_membership_consistent op e :
  membership_consistent e → membership_consistent (exec op e).
Proof.
  rewrite !membership_consistent_alt. intros (H1 & H2 & H3).
  pose proof (exec_same_views op e) as Hsame.
  destruct op; simpl in *;
    try (split; [exact H1 | split; [exact H2 | exact H3]]);
    try (setoid_rewrite (proj1 Hsame); setoid_rewrite (proj2 Hsame); done).
  - destruct (users e !! username) as [user|] eqn:Hu.
    { unfold RegisterUser. by rewrite Hu. }
    destruct (RegisterUser_views username password now e Hu) as [Hj Hm].
    setoid_rewrite Hj. setoid_rewrite Hm.
    assert (joined e username = None) as Hnone by (unfold joined; by rewrite Hu).
    split; [|split].
    + intros u s S M. case_decide as Hd; [subst u|by apply H1].
      intros [= <-] HM. split; [set_solver|].
      intros Hin. destruct (H2 s M username HM Hin) as [? Hx]. by rewrite Hnone in Hx.
    + intros s M u HM Hin. case_decide; [done | by eapply H2].
    + intros u S s. case_decide; [intros [= <-]; set_solver | apply H3].
  - destruct (subreddits e !! name) as [sub|] eqn:Hs.
    { unfold CreateSubreddit. by rewrite Hs. }
    destruct (CreateSubreddit_views name description creator now e Hs) as [Hj Hm].
    setoid_rewrite Hj. setoid_rewrite Hm.
    assert (members e name = None) as Hnone by (unfold members; by rewrite Hs).
    split; [|split].
    + intros u s S M HS. case_decide as Hd; [subst s|by apply H1].
      intros [= <-]. split; [|set_solver].
      intros Hin. destruct (H3 u S name HS Hin) as [? Hx]. by rewrite Hnone in Hx.
    + intros s M u. case_decide; [intros [= <-]; set_solver | apply H2].
    + intros u S s HS Hin. case_decide; [done | by eapply H3].
  - destruct (users e !! username) as [user|] eqn:Hu;
      [|unfold JoinSubreddit; by rewrite Hu].
    destruct (subreddits e !! subreddit) as [sub|] eqn:Hs;
      [|unfold JoinSubreddit; by rewrite Hu, Hs].
    destruct (JoinSubreddit_views username subreddit e user sub Hu Hs) as [Hj Hm].
    setoid_rewrite Hj. setoid_rewrite Hm.
    assert (joined e username = Some (User.Subreddits user)) as HjU
      by (unfold joined; by rewrite Hu).
    assert (members e subreddit = Some (Subreddit.Members sub)) as HmS
      by (unfold members; by rewrite Hs).
    split; [|split].
    + intros u s S M. repeat case_decide; subst.
      * intros [= <-] [= <-]. set_solver.
      * intros [= <-] HM. pose proof (H1 _ _ _ _ HjU HM). set_solver.
      * intros HS [= <-]. pose proof (H1 _ _ _ _ HS HmS). set_solver.
      * apply H1.
    + intros s M u HM Hin. destruct (decide (username = u)) as [->|Hne]; [by eexists|].
      case_decide as Hd; [subst|by eapply H2]. injection HM as <-.
      apply elem_of_union in Hin as [Hin|Hin]; [set_solver|]. by eapply H2.
    + intros u S s HS Hin. destruct (decide (subreddit = s)) as [->|Hne]; [by eexists|].
      case_decide as Hd; [subst|by eapply H3]. injection HS as <-.
      apply elem_of_union in Hin as [Hin|Hin]; [set_solver|]. by eapply H3.
  - destruct (users e !! username) as [user|] eqn:Hu;
      [|unfold LeaveSubreddit; by rewrite Hu].
    destruct (subreddits e !! subreddit) as [sub|] eqn:Hs;
      [|unfold LeaveSubreddit; by rewrite Hu, Hs].
    destruct (LeaveSubreddit_views username subreddit e user sub Hu Hs) as [Hj Hm].
    setoid_rewrite Hj. setoid_rewrite Hm.
    assert (joined e username = Some (User.Subreddits user)) as HjU
      by (unfold joined; by rewrite Hu).
    assert (members e subreddit = Some (Subreddit.Members sub)) as HmS
      by (unfold members; by rewrite Hs).
    split; [|split].
    + intros u s S M. repeat case_decide; subst.
      * intros [= <-] [= <-]. set_solver.
      * intros [= <-] HM. pose proof (H1 _ _ _ _ HjU HM). set_solver.
      * intros HS [= <-]. pose proof (H1 _ _ _ _ HS HmS). set_solver.
      * apply H1.
    + intros s M u HM Hin. destruct (decide (username = u)) as [->|Hne]; [by eexists|].
      case_decide as Hd; [subst|by eapply H2]. injection HM as <-.
      apply elem_of_difference in Hin as [Hin _]. by eapply H2.
    + intros u S s HS Hin. destruct (decide (subreddit = s)) as [->|Hne]; [by eexists|].
      case_decide as Hd; [subst|by eapply H3]. injection HS as <-.
      apply elem_of_difference in Hin as [Hin _]. by eapply H3.
Qed.

(** X3. In every state the engine can reach, a subreddit is in a user's
    joined set exactly when the user is in the subreddit's member set,
    every member is a registered user and every joined name is an existing
    subreddit: [JoinSubreddit] and [LeaveSubreddit] always update both
    sides, and no operation removes a user or a subreddit. *)
Theorem X3_membership_consistent (e : RedditEngine) :
  reachable e →
  (∀ u s user sub, users e !! u = Some user → subreddits e !! s = Some sub →
     (s ∈ User.Subreddits user ↔ u ∈ Subreddit.Members sub)) ∧
  (∀ s sub u, subreddits e !! s = Some sub → u ∈ Subreddit.Members sub →
     is_Some (users e !! u)) ∧
  (∀ u user s, users e !! u = Some user → s ∈ User.Subreddits user →
     is_Some (subreddits e !! s)).
Proof.
  intros Hr.
  assert (membership_consistent e) as (H1 & H2 & H3).
  { induction Hr as [|op e Hr IH]; [|by apply exec_membership_consistent].
    unfold membership_consistent, joined, members. simpl.
    setoid_rewrite lookup_empty. by repeat split. }
  split; [|split].
  - intros u s user sub Hu Hs. apply H1; unfold joined, members; by rewrite ?Hu, ?Hs.
  - intros s sub u Hs. apply (H2 s). unfold members. by rewrite Hs.
  - intros u user s Hu. apply (H3 u). unfold joined. by rewrite Hu.
Qed.

Lemma X3_membership_consistent_witness :
  is_Some (subreddits (run feed_ops NewRedditEngine) !! "science").
Proof.
  destruct (X3_membership_consistent (run feed_ops NewRedditEngine)) as (_ & _ & H).
  - apply reachable_run. constructor.
  - apply (H "bob" (User.mk "bob" "pw" 0 1 ({["art"]} ∪ ({["science"]} ∪ ∅))) "science").
    + by vm_compute.
    + simpl. set_solver.
Defined.

(** ** Posts *)

(** X4. [CreatePost] fails with NotFound("subreddit"), changing nothing,
    when the subreddit is missing; the author is not looked up.
    Otherwise it allocates a post with counter 0 and no comment, appends
    it to the subreddit's post sequence and binds the post's id to it in
    [posts], replacing an earlier binding of the same id (ids are made
    from the clock); every earlier post is untouched.  The new post is at
    once visible to [GetComments] and [VotePost] under its id. *)
Theorem X4_create_post (title content author s : string) (tid now : Time)
    (e : RedditEngine) :
  (subreddits e !! s = None →
   CreatePost title content author s tid now e = (e, Err (NotFound "subreddit"))) ∧
  (∀ sub, subreddits e !! s = Some sub →
   ∃ e',
     let a := length (heap e) in
     let post := Post.mk (Sprintf_d "post_" (UnixNano tid)) title content author s now 0 [] in
     CreatePost title content author s tid now e = (e', Ok a) ∧
     heap e' = heap e ++ [post] ∧
     posts e' !! Post.ID post = Some a ∧
     (∀ id, id ≠ Post.ID post → posts e' !! id = posts e !! id) ∧
     subreddits e' !! s = Some (Subreddit.set_Posts (Subreddit.Posts sub ++ [a]) sub) ∧
     (∀ t, t ≠ s → subreddits e' !! t = subreddits e !! t) ∧
     users e' = users e ∧ directMessages e' = directMessages e ∧
     GetComments (Post.ID post) e' = Ok [] ∧
     ∀ upvote, ∃ e'',
       VotePost (Post.ID post) upvote e' = (e'', Ok ()) ∧
       Post.Votes <$> heap e'' !! a = Some (if upvote then 2 else -1)).
Proof.
  split.
  - intros Hs. unfold CreatePost. by rewrite Hs.
  - intros sub Hs. eexists. cbv zeta. unfold CreatePost at 1. rewrite Hs.
    split; [done|]. simpl.
    split; [done|]. split; [apply lookup_insert_eq|].
    split; [intros id Hid; by apply lookup_insert_ne|].
    split; [apply lookup_insert_eq|].
    split; [intros t Ht; by apply lookup_insert_ne|].
    do 2 (split; [done|]).
    assert ((heap e ++ [Post.mk (Sprintf_d "post_" (UnixNano tid)) title content author
                          s now 0 []]) !! length (heap e)
            = Some (Post.mk (Sprintf_d "post_" (UnixNano tid)) title content author s now 0 []))
      as Hnew by (by rewrite list_lookup_middle).
    split.
    + unfold GetComments. simpl. by rewrite lookup_insert_eq, Hnew.
    + intros upvote. eexists. split.
      * apply VotePost_found; simpl; [apply lookup_insert_eq | exact Hnew].
      * rewrite updateKarma_heap. simpl.
        rewrite list_lookup_insert_eq by (rewrite length_app; simpl; lia).
        by destruct upvote.
Qed.

Lemma X4_create_post_witness :
  ∃ e', CreatePost "H" "C" "carol" "science" 5 5 e_bob_science = (e', Ok 0%nat) ∧
    GetComments "post_5" e' = Ok [].
Proof.
  destruct (X4_create_post "H" "C" "carol" "science" 5 5 e_bob_science) as [_ H].
  destruct (H (Subreddit.mk "science" "d" "alice" 2 [] ∅))
    as (e' & Hc & _ & _ & _ & _ & _ & _ & _ & Hg & _); [reflexivity|].
  exists e'. split; [exact Hc | exact Hg].
Defined.

(** ** Comment counts *)

Lemma forest_size_app cs cs' : forest_size (cs ++ cs') = (forest_size cs + forest_size cs')%nat.
Proof.
  induction cs as [|c cs IH]; [done|].
  change ((c :: cs) ++ cs') with (c :: (cs ++ cs')).
  change (forest_size (c :: ?l)) with (tree_size c + forest_size l)%nat. lia.
Qed.

Lemma forest_size_cons c cs : forest_size (c :: cs) = (tree_size c + forest_size cs)%nat.
Proof. done. Qed.

Lemma forest_size_alter f cs : ∀ i x,
  cs !! i = Some x → tree_size (f x) = S (tree_size x) →
  forest_size (alter f i cs) = S (forest_size cs).
Proof.
  induction cs as [|c cs IH]; intros [|i] x Hx Hf; simpl in Hx; try done.
  - injection Hx as ->. change (alter f 0%nat (x :: cs)) with (f x :: cs).
    rewrite !forest_size_cons. lia.
  - change (alter f (S i) (c :: cs)) with (c :: alter f i cs).
    rewrite !forest_size_cons, (IH i x Hx Hf). lia.
Qed.

Lemma tree_size_append_child c n :
  tree_size (Comment.append_child c n) = (tree_size n + tree_size c)%nat.
Proof.
  rewrite (tree_size_eq (Comment.append_child c n)), (tree_size_eq n).
  change (Comment.Children (Comment.append_child c n)) with (Comment.Children n ++ [c]).
  rewrite forest_size_app. change (forest_size [c]) with (tree_size c + 0)%nat. lia.
Qed.

Lemma tree_size_alter_node f p : ∀ c n,
  node_at c p = Some n → tree_size (f n) = S (tree_size n) →
  tree_size (alter_node f p c) = S (tree_size c).
Proof.
  induction p as [|i p IH]; intros c n; simpl.
  - by intros [= ->].
  - destruct (Comment.Children c !! i) as [c'|] eqn:Hc'; [|done]. intros Hn Hf.
    rewrite !tree_size_eq. simpl.
    rewrite (forest_size_alter _ _ i c' Hc'); [done|]. by eapply IH.
Qed.

Lemma forest_size_alter_at f p cs n :
  comment_at cs p = Some n → tree_size (f n) = S (tree_size n) →
  forest_size (alter_at f p cs) = S (forest_size cs).
Proof.
  destruct p as [|i p]; simpl; [done|].
  destruct (cs !! i) as [c|] eqn:Hc; [|done]. intros Hn Hf.
  apply (forest_size_alter _ _ i c Hc). by eapply tree_size_alter_node.
Qed.

Lemma node_at_snoc p : ∀ c i,
  node_at c (p ++ [i]) =
    match node_at c p with
    | Some n => Comment.Children n !! i
    | None => None
    end.
Proof.
  induction p as [|j p IH]; intros c i; simpl.
  - by destruct (Comment.Children c !! i).
  - destruct (Comment.Children c !! j); [apply IH | done].
Qed.

Lemma Sprintf_d_not_empty prefix n : prefix ≠ "" → Sprintf_d prefix n ≠ "".
Proof. unfold Sprintf_d. by destruct prefix. Qed.

Lemma comment_at_snoc cs p i :
  p ≠ [] →
  comment_at cs (p ++ [i]) =
    match comment_at cs p with
    | Some n => Comment.Children n !! i
    | None => None
    end.
Proof.
  destruct p as [|j p]; [done|]. intros _. simpl.
  destruct (cs !! j) as [c|]; [apply node_at_snoc | done].
Qed.

Lemma AddComment_reply_found e content author P X tid now a post q m :
  posts e !! P = Some a → heap e !! a = Some post →
  comment_at (Post.Comments post) q = Some m → Comment.ID m = X → X ≠ "" →
  ∃ e' c, AddComment content author P X tid now e = (e', Ok c).
Proof.
  intros Hp Hh Hq Hm HX. unfold AddComment. rewrite Hp, Hh, decide_False by done.
  pose proof (findComment_spec X (Post.Comments post)) as Hfind.
  destruct (findComment (Post.Comments post) X) as [p|]; [by eexists _, _|].
  by destruct (Hfind q m).
Qed.

Lemma AddComment_grows (e e' : RedditEngine)
    (content author P parent : string) (tid now : Time) (c : Comment.t) :
  AddComment content author P parent tid now e = (e', Ok c) →
  ∃ a post post',
    posts e !! P = Some a ∧ heap e !! a = Some post ∧ heap e' !! a = Some post' ∧
    c = Comment.mk (Sprintf_d "comment_" (UnixNano tid)) content author parent now 0 [] ∧
    forest_size (Post.Comments post') = S (forest_size (Post.Comments post)) ∧
    countComments (Post.Comments post') =
      GoInt.wrap (Z.of_nat (forest_size (Post.Comments post)) + 1) ∧
    post_static post' = post_static post ∧ Post.Votes post' = Post.Votes post ∧
    (∀ b, b ≠ a → heap e' !! b = heap e !! b) ∧ length (heap e') = length (heap e) ∧
    users e' = users e ∧ subreddits e' = subreddits e ∧ posts e' = posts e ∧
    directMessages e' = directMessages e ∧
    (∃ q, comment_at (Post.Comments post') q = Some c) ∧
    (∀ content2 author2 tid2 now2, ∃ e'' c2,
       AddComment content2 author2 P (Comment.ID c) tid2 now2 e' = (e'', Ok c2)).
Proof.
  unfold AddComment at 1.
  destruct (posts e !! P) as [a|] eqn:Hp; [|done].
  destruct (heap e !! a) as [post|] eqn:Hh; [|done].
  set (comment := Comment.mk _ _ _ _ _ _ _).
  assert (a < length (heap e))%nat as Hlt by (by eapply lookup_lt_Some).
  assert (tree_size comment = 1%nat) as Hone by done.
  assert (∀ cs' : list Comment.t,
    forest_size cs' = S (forest_size (Post.Comments post)) →
    (∃ q, comment_at cs' q = Some comment) →
    ∃ post',
      heap (set_heap (<[a := Post.set_Comments cs' post]> (heap e)) e) !! a = Some post' ∧
      comment = comment ∧
      forest_size (Post.Comments post') = S (forest_size (Post.Comments post)) ∧
      countComments (Post.Comments post') =
        GoInt.wrap (Z.of_nat (forest_size (Post.Comments post)) + 1) ∧
      post_static post' = post_static post ∧ Post.Votes post' = Post.Votes post ∧
      (∀ b, b ≠ a → heap (set_heap (<[a := Post.set_Comments cs' post]> (heap e)) e) !! b
                     = heap e !! b) ∧
      length (heap (set_heap (<[a := Post.set_Comments cs' post]> (heap e)) e))
        = length (heap e) ∧
      users e = users e ∧ subreddits e = subreddits e ∧ posts e = posts e ∧
      directMessages e = directMessages e ∧
      (∃ q, comment_at (Post.Comments post') q = Some comment) ∧
      (∀ content2 author2 tid2 now2, ∃ e'' c2,
         AddComment content2 author2 P (Comment.ID comment) tid2 now2
           (set_heap (<[a := Post.set_Comments cs' post]> (heap e)) e) = (e'', Ok c2)))
    as Hgen.
  { intros cs' Hsize [q Hq]. exists (Post.set_Comments cs' post). simpl.
    assert (<[a:=Post.set_Comments cs' post]> (heap e) !! a
            = Some (Post.set_Comments cs' post)) as Hnew
      by (by apply list_lookup_insert_eq).
    do 3 (split; [done|]).
    split.
    { rewrite countComments_forest_size, Hsize. f_equal. lia. }
    do 2 (split; [done|]).
    split; [intros b Hb; by apply list_lookup_insert_ne|].
    split; [apply length_insert|]. do 4 (split; [done|]).
    split; [by exists q|].
    intros content2 author2 tid2 now2.
    eapply (AddComment_reply_found _ _ _ _ _ _ _ a (Post.set_Comments cs' post) q comment);
      first [done | by apply Sprintf_d_not_empty]. }
  case_decide as Hparent.
  - intros [= <- <-]. destruct (Hgen (Post.Comments post ++ [comment])) as (post' & H).
    + rewrite forest_size_app. change (forest_size [comment]) with (tree_size comment + 0)%nat.
      lia.
    + exists [length (Post.Comments post)]. simpl. by rewrite list_lookup_middle.
    + exists a, post, post'. do 2 (split; [done|]). exact H.
  - pose proof (findComment_spec parent (Post.Comments post)) as Hfind.
    destruct (findComment (Post.Comments post) parent) as [p|]; [|done].
    destruct Hfind as (n & Hn & _ & _).
    intros [= <- <-].
    destruct (Hgen (alter_at (Comment.append_child comment) p (Post.Comments post)))
      as (post' & H).
    + apply (forest_size_alter_at _ _ _ n Hn). rewrite tree_size_append_child. lia.
    + exists (p ++ [length (Comment.Children n)]).
      rewrite comment_at_snoc by (by destruct p).
      rewrite (comment_at_alter_at _ _ _ _ Hn). simpl. by rewrite list_lookup_middle.
    + exists a, post, post'. do 2 (split; [done|]). exact H.
Qed.

(** Appending a child under the node at [p]: what every node of the tree
    looks like afterwards. *)
Lemma node_at_append_child child p : ∀ c q m,
  node_at c q = Some m →
  ∃ m', node_at (alter_node (Comment.append_child child) p c) q = Some m' ∧
    comment_static m' = comment_static m ∧
    (q = p → Comment.Children m' = Comment.Children m ++ [child]) ∧
    (q ≠ p → length (Comment.Children m') = length (Comment.Children m)) ∧
    (¬ q `prefix_of` p → m' = m).
Proof.
  induction p as [|j p IH]; intros c q m Hm.
  - destruct q as [|i q]; simpl in *.
    + simplify_eq. eexists. split; [done|]. split; [done|]. split; [done|].
      split; [done|]. intros H. by destruct H.
    + destruct (Comment.Children c !! i) as [ci|] eqn:Hci; [|done].
      rewrite (lookup_app_l_Some _ _ _ _ Hci). by exists m.
  - destruct q as [|i q]; simpl in *.
    + simplify_eq. eexists. split; [done|]. split; [done|]. split; [done|].
      split; [intros _; simpl; apply length_alter|].
      intros H. destruct H. apply prefix_nil.
    + destruct (Comment.Children c !! i) as [ci|] eqn:Hci; [|done].
      destruct (decide (j = i)) as [->|Hji].
      * rewrite list_lookup_alter_eq, Hci. simpl.
        destruct (IH ci q m Hm) as (m' & Hm' & Hst & Heq & Hne & Hoff).
        exists m'. split; [done|]. split; [done|].
        split; [intros [= ->]; by apply Heq|].
        split; [intros Hq; apply Hne; by intros ->|].
        intros Hpre. apply Hoff. intros H. apply Hpre. by apply prefix_cons.
      * rewrite list_lookup_alter_ne, Hci by done. exists m.
        split; [done|]. split; [done|]. split; [by intros [= -> ->]|]. done.
Qed.

Lemma comment_at_append_child child p comments q m :
  comment_at comments q = Some m →
  ∃ m', comment_at (alter_at (Comment.append_child child) p comments) q = Some m' ∧
    comment_static m' = comment_static m ∧
    (q = p → Comment.Children m' = Comment.Children m ++ [child]) ∧
    (q ≠ p → length (Comment.Children m') = length (Comment.Children m)) ∧
    (¬ q `prefix_of` p → m' = m).
Proof.
  intros Hm. destruct q as [|i q]; [done|]. simpl in Hm.
  destruct (comments !! i) as [ci|] eqn:Hci; [|done].
  destruct p as [|j p].
  - simpl. rewrite Hci. by exists m.
  - simpl. destruct (decide (j = i)) as [->|Hji].
    + rewrite list_lookup_alter_eq, Hci. simpl.
      destruct (node_at_append_child child p ci q m Hm) as (m' & Hm' & Hst & Heq & Hne & Hoff).
      exists m'. split; [done|]. split; [done|].
      split; [intros [= ->]; by apply Heq|].
      split; [intros Hq; apply Hne; by intros ->|].
      intros Hpre. apply Hoff. intros H. apply Hpre. by apply prefix_cons.
    + rewrite list_lookup_alter_ne, Hci by done. exists m.
      split; [done|]. split; [done|]. split; [by intros [= -> ->]|]. done.
Qed.

(** Where a successful [AddComment] puts the comment, and what the forest
    of the post looks like afterwards. *)
Lemma AddComment_places (e e' : RedditEngine)
    (content author P parent : string) (tid now : Time) (c : Comment.t) a post post' :
  AddComment content author P parent tid now e = (e', Ok c) →
  posts e !! P = Some a → heap e !! a = Some post → heap e' !! a = Some post' →
  (parent = "" → Post.Comments post' = Post.Comments post ++ [c]) ∧
  (parent ≠ "" → ∃ p n,
     findComment (Post.Comments post) parent = Some p ∧
     comment_at (Post.Comments post) p = Some n ∧ Comment.ID n = parent ∧
     length (Post.Comments post') = length (Post.Comments post) ∧
     comment_at (Post.Comments post') (p ++ [length (Comment.Children n)]) = Some c ∧
     ∀ q m, comment_at (Post.Comments post) q = Some m →
       ∃ m', comment_at (Post.Comments post') q = Some m' ∧
         comment_static m' = comment_static m ∧
         (q = p → Comment.Children m' = Comment.Children m ++ [c]) ∧
         (q ≠ p → length (Comment.Children m') = length (Comment.Children m)) ∧
         (¬ q `prefix_of` p → m' = m)).
Proof.
  intros Hadd Hp Hh Hh'. unfold AddComment in Hadd. rewrite Hp, Hh in Hadd.
  assert (a < length (heap e))%nat as Hlt by (by eapply lookup_lt_Some).
  case_decide as Hparent.
  - injection Hadd as <- <-. simpl in Hh'.
    rewrite list_lookup_insert_eq in Hh' by done. injection Hh' as <-.
    split; [done|]. by intros [].
  - pose proof (findComment_spec parent (Post.Comments post)) as Hfind.
    destruct (findComment (Post.Comments post) parent) as [p|]; [|done].
    destruct Hfind as (n & Hn & Hid & _).
    injection Hadd as <- <-. simpl in Hh'.
    rewrite list_lookup_insert_eq in Hh' by done. injection Hh' as <-.
    split; [done|]. intros _. exists p, n. simpl.
    split; [done|]. split; [done|]. split; [done|].
    assert (p ≠ []) as Hne by (by destruct p).
    split; [destruct p; [done|]; apply length_alter|].
    split.
    + rewrite comment_at_snoc by done.
      rewrite (comment_at_alter_at _ _ _ _ Hn). simpl. by rewrite list_lookup_middle.
    + intros q m Hm. by apply comment_at_append_child.
Qed.

(** X12. A successful [AddComment] adds exactly one node to the comment
    forest of the addressed post, so the post's [countComments] grows by
    one; it allocates nothing and changes no other post, no vote counter,
    no fixed field of the post, no user, subreddit or message.  With an
    empty parent id the comment is appended to the post's top-level
    sequence; otherwise it becomes the last child of the node that
    [findComment] finds, and every comment that was in the forest is
    still at its place with its id, text, author, parent id, time and
    counter: the parent has its children followed by the new comment,
    every other node has as many children as before, and every node that
    is not the parent or one of its ancestors is the same as before.  The
    comment returned has no child and counter 0, sits in the post's tree,
    and can at once be used as a parent: an [AddComment] naming its id as
    parent succeeds. *)
Theorem X12_add_comment_grows_by_one (e e' : RedditEngine)
    (content author P parent : string) (tid now : Time) (c : Comment.t) :
  AddComment content author P parent tid now e = (e', Ok c) →
  ∃ a post post',
    posts e !! P = Some a ∧ heap e !! a = Some post ∧ heap e' !! a = Some post' ∧
    c = Comment.mk (Sprintf_d "comment_" (UnixNano tid)) content author parent now 0 [] ∧
    forest_size (Post.Comments post') = S (forest_size (Post.Comments post)) ∧
    countComments (Post.Comments post') =
      GoInt.wrap (Z.of_nat (forest_size (Post.Comments post)) + 1) ∧
    post_static post' = post_static post ∧ Post.Votes post' = Post.Votes post ∧
    (∀ b, b ≠ a → heap e' !! b = heap e !! b) ∧ length (heap e') = length (heap e) ∧
    users e' = users e ∧ subreddits e' = subreddits e ∧ posts e' = posts e ∧
    directMessages e' = directMessages e ∧
    (∃ q, comment_at (Post.Comments post') q = Some c) ∧
    (∀ content2 author2 tid2 now2, ∃ e'' c2,
       AddComment content2 author2 P (Comment.ID c) tid2 now2 e' = (e'', Ok c2)) ∧
    (parent = "" → Post.Comments post' = Post.Comments post ++ [c]) ∧
    (parent ≠ "" → ∃ p n,
       findComment (Post.Comments post) parent = Some p ∧
       comment_at (Post.Comments post) p = Some n ∧ Comment.ID n = parent ∧
       length (Post.Comments post') = length (Post.Comments post) ∧
       comment_at (Post.Comments post') (p ++ [length (Comment.Children n)]) = Some c ∧
       ∀ q m, comment_at (Post.Comments post) q = Some m →
         ∃ m', comment_at (Post.Comments post') q = Some m' ∧
           comment_static m' = comment_static m ∧
           (q = p → Comment.Children m' = Comment.Children m ++ [c]) ∧
           (q ≠ p → length (Comment.Children m') = length (Comment.Children m)) ∧
           (¬ q `prefix_of` p → m' = m)).
Proof.
  intros Hadd.
  destruct (AddComment_grows _ _ _ _ _ _ _ _ _ Hadd)
    as (a & post & post' & Hp & Hh & Hh' & H4 & H5 & H6 & H7 & H8 & H9 & H10 & H11 & H12 &
        H13 & H14 & H15 & H16).
  exists a, post, post'.
  do 15 (split; [assumption|]). split; [exact H16|].
  exact (AddComment_places _ _ _ _ _ _ _ _ _ _ _ _ Hadd Hp Hh Hh').
Qed.

Lemma X12_add_comment_grows_by_one_witness :
  ∃ a post post',
    posts e_thread !! "post_5" = Some a ∧ heap e_thread !! a = Some post ∧
    forest_size (Post.Comments post') = S (forest_size (Post.Comments post)).
Proof.
  destruct (X12_add_comment_grows_by_one e_thread
              (AddComment "third" "alice" "post_5" "comment_7" 8 8 e_thread).1
              "third" "alice" "post_5" "comment_7" 8 8
              (Comment.mk "comment_8" "third" "alice" "comment_7" 8 0 []))
    as (a & post & post' & Hp & Hh & _ & _ & Hsize & _); [reflexivity|].
  exists a, post, post'. split; [exact Hp|]. split; [exact Hh | exact Hsize].
Defined.

(** ** Nothing is ever removed *)

Lemma extends_refl e : extends e e.
Proof. repeat split; eauto. Qed.

Lemma extends_trans e1 e2 e3 : extends e1 e2 → extends e2 e3 → extends e1 e3.
Proof.
  intros (U1 & S1 & H1 & P1 & D1) (U2 & S2 & H2 & P2 & D2).
  split; [|split; [|split; [|split]]].
  - intros u user Hu. destruct (U1 _ _ Hu) as (user' & Hu' & E1).
    destruct (U2 _ _ Hu') as (user'' & Hu'' & E2). exists user''. split; [done|]. congruence.
  - intros s sub Hs. destruct (S1 _ _ Hs) as (sub' & Hs' & E1 & Pre1).
    destruct (S2 _ _ Hs') as (sub'' & Hs'' & E2 & Pre2). exists sub''.
    split; [done|]. split; [congruence | by etrans].
  - intros a p Ha. destruct (H1 _ _ Ha) as (p' & Ha' & E1 & L1).
    destruct (H2 _ _ Ha') as (p'' & Ha'' & E2 & L2). exists p''.
    split; [done|]. split; [congruence | lia].
  - auto.
  - intros k i m Hm. destruct (D1 _ _ _ Hm) as (m' & Hm' & E1 & Pre1).
    destruct (D2 _ _ _ Hm') as (m'' & Hm'' & E2 & Pre2). exists m''.
    split; [done|]. split; [congruence | by etrans].
Qed.

Lemma extends_set_users U e :
  (∀ u user, users e !! u = Some user →
     ∃ user', U !! u = Some user' ∧ user_static user' = user_static user) →
  extends e (set_users U e).
Proof.
  intros H. destruct (extends_refl e) as (U0 & S0 & H0 & P0 & D0).
  split; [exact H|]. split; [exact S0|]. split; [exact H0|]. split; [exact P0 | exact D0].
Qed.

Lemma extends_set_subreddits S e :
  (∀ s sub, subreddits e !! s = Some sub →
     ∃ sub', S !! s = Some sub' ∧ subreddit_static sub' = subreddit_static sub ∧
             Subreddit.Posts sub `prefix_of` Subreddit.Posts sub') →
  extends e (set_subreddits S e).
Proof.
  intros H. destruct (extends_refl e) as (U0 & S0 & H0 & P0 & D0).
  split; [exact U0|]. split; [exact H|]. split; [exact H0|]. split; [exact P0 | exact D0].
Qed.

Lemma extends_set_heap h e :
  (∀ a p, heap e !! a = Some p →
     ∃ p', h !! a = Some p' ∧ post_static p' = post_static p ∧
           (forest_size (Post.Comments p) ≤ forest_size (Post.Comments p'))%nat) →
  extends e (set_heap h e).
Proof.
  intros H. destruct (extends_refl e) as (U0 & S0 & H0 & P0 & D0).
  split; [exact U0|]. split; [exact S0|]. split; [exact H|]. split; [exact P0 | exact D0].
Qed.

Lemma extends_set_posts P e :
  (∀ id, is_Some (posts e !! id) → is_Some (P !! id)) → extends e (set_posts P e).
Proof.
  intros H. destruct (extends_refl e) as (U0 & S0 & H0 & P0 & D0).
  split; [exact U0|]. split; [exact S0|]. split; [exact H0|]. split; [exact H | exact D0].
Qed.

Lemma extends_set_directMessages D e :
  (∀ k i m, inbox e k !! i = Some m →
     ∃ m', default [] (D !! k) !! i = Some m' ∧ dm_static m' = dm_static m ∧
           DirectMessage.Replies m `prefix_of` DirectMessage.Replies m') →
  extends e (set_directMessages D e).
Proof.
  intros H. destruct (extends_refl e) as (U0 & S0 & H0 & P0 & D0).
  split; [exact U0|]. split; [exact S0|]. split; [exact H0|]. split; [exact P0 | exact H].
Qed.

Lemma extends_insert_user u user user' e :
  users e !! u = Some user → user_static user' = user_static user →
  extends e (set_users (<[u := user']> (users e)) e).
Proof.
  intros Hu Hst. apply extends_set_users. intros v w Hv. rewrite lookup_insert.
  case_decide; [subst; exists user'; split; [done|congruence] | eauto].
Qed.

Lemma extends_insert_subreddit s sub sub' e :
  subreddits e !! s = Some sub → subreddit_static sub' = subreddit_static sub →
  Subreddit.Posts sub `prefix_of` Subreddit.Posts sub' →
  extends e (set_subreddits (<[s := sub']> (subreddits e)) e).
Proof.
  intros Hs Hst Hpre. apply extends_set_subreddits. intros t w Ht. rewrite lookup_insert.
  case_decide; [subst; exists sub'; split; [done|]; split; congruence | eauto].
Qed.

Lemma extends_insert_post a p p' e :
  heap e !! a = Some p → post_static p' = post_static p →
  (forest_size (Post.Comments p) ≤ forest_size (Post.Comments p'))%nat →
  extends e (set_heap (<[a := p']> (heap e)) e).
Proof.
  intros Ha Hst Hle. apply extends_set_heap. intros b q Hb.
  destruct (decide (a = b)) as [<-|Hne].
  - exists p'. rewrite list_lookup_insert_eq by (by eapply lookup_lt_Some).
    split; [done|]. split; congruence.
  - rewrite list_lookup_insert_ne by done. eauto.
Qed.

Lemma extends_updateKarma w v e : extends e (updateKarma w v e).
Proof.
  unfold updateKarma. destruct (users e !! w) as [user|] eqn:Hw; [|apply extends_refl].
  by eapply extends_insert_user.
Qed.

Lemma exec_extends op e : extends e (exec op e).
Proof.
  destruct op; simpl; try apply extends_refl.
  - unfold RegisterUser. destruct (users e !! username) as [user|] eqn:Hu;
      [apply extends_refl|]. simpl. apply extends_set_users.
    intros u user Hu'. rewrite lookup_insert_ne by congruence. eauto.
  - unfold CreateSubreddit. destruct (subreddits e !! name) as [sub|] eqn:Hs;
      [apply extends_refl|]. simpl. apply extends_set_subreddits.
    intros s sub Hs'. rewrite lookup_insert_ne by congruence. eauto.
  - unfold JoinSubreddit. destruct (users e !! username) as [user|] eqn:Hu;
      [|apply extends_refl].
    destruct (subreddits e !! subreddit) as [sub|] eqn:Hs; [|apply extends_refl]. simpl.
    eapply extends_trans;
      [|eapply (extends_insert_subreddit subreddit sub _ (set_users _ e)); [exact Hs|done..]].
    by eapply (extends_insert_user username user).
  - unfold LeaveSubreddit. destruct (users e !! username) as [user|] eqn:Hu;
      [|apply extends_refl].
    destruct (subreddits e !! subreddit) as [sub|] eqn:Hs; [|apply extends_refl]. simpl.
    eapply extends_trans;
      [|eapply (extends_insert_subreddit subreddit sub _ (set_users _ e)); [exact Hs|done..]].
    by eapply (extends_insert_user username user).
  - unfold CreatePost. destruct (subreddits e !! subreddit) as [sub|] eqn:Hs;
      [|apply extends_refl]. simpl.
    set (post := Post.mk _ _ _ _ _ _ _ _).
    apply (extends_trans _ (set_heap (heap e ++ [post]) e)).
    { apply extends_set_heap. intros a p Ha. exists p. split; [by apply lookup_app_l_Some | done]. }
    apply (extends_trans _ (set_posts (<[Post.ID post := length (heap e)]> (posts e))
                              (set_heap (heap e ++ [post]) e))).
    { apply (extends_set_posts _ (set_heap _ e)). intros id His. rewrite lookup_insert.
      by case_decide. }
    apply (extends_insert_subreddit subreddit sub _ (set_posts _ (set_heap _ e)));
      [exact Hs | done |]. simpl. by apply prefix_app_r.
  - unfold AddComment. destruct (posts e !! postID) as [a|] eqn:Hp; [|apply extends_refl].
    destruct (heap e !! a) as [post|] eqn:Hh; [|apply extends_refl].
    case_decide.
    + simpl. eapply extends_insert_post; [done | done |]. simpl.
      rewrite forest_size_app. lia.
    + pose proof (findComment_spec parentCommentID (Post.Comments post)) as Hfind.
      destruct (findComment (Post.Comments post) parentCommentID) as [p|];
        [|apply extends_refl].
      destruct Hfind as (n & Hn & _). simpl.
      eapply extends_insert_post; [done | done |]. simpl.
      rewrite (forest_size_alter_at _ _ _ n Hn); [lia|].
      rewrite tree_size_append_child. simpl. lia.
  - unfold VotePost. destruct (posts e !! postID) as [a|] eqn:Hp; [|apply extends_refl].
    destruct (heap e !! a) as [post|] eqn:Hh; [|apply extends_refl].
    destruct upvote; simpl;
      (eapply extends_trans; [|apply extends_updateKarma]);
      by eapply extends_insert_post.
  - unfold SendDirectMessage. destruct (users e !! from); [|apply extends_refl].
    destruct (users e !! to); [|apply extends_refl]. simpl.
    apply extends_set_directMessages. intros k i m Hm. rewrite lookup_insert.
    case_decide; [subst|by eauto]. simpl. exists m.
    split; [by apply lookup_app_l_Some | done].
  - pose proof (scan_inboxes_Some e originalMsgID order None) as Hscan.
    unfold ReplyToDirectMessage.
    destruct (scan_inboxes e order originalMsgID None) as [[[k0 i0] m0]|];
      [|apply extends_refl]. simpl.
    apply extends_set_directMessages. intros k i m Hm. rewrite lookup_alter.
    case_decide; [subst|by eauto].
    apply inbox_lookup_Some in Hm as (msgs & Hk & Hi). rewrite Hk. simpl.
    destruct (decide (i0 = i)) as [->|Hne].
    + rewrite list_lookup_alter_eq, Hi. simpl. eexists. split; [done|].
      split; [done|]. by apply prefix_app_r.
    + rewrite list_lookup_alter_ne by done. eauto.
Qed.

(** X7. Whatever operations run, nothing is removed and no fixed field
    changes: every user keeps name, password and creation time; every
    subreddit keeps name, description, creator and creation time, and its
    post sequence only gets longer at the end; every post keeps id, title,
    content, author, subreddit and creation time, and its comment forest
    never shrinks; every bound post id stays bound; every message keeps
    its place in its inbox with id, sender, recipient, content and
    creation time, and its reply sequence only gets longer at the end. *)
Theorem X7_nothing_is_removed (ops : list Op) (e : RedditEngine) : extends e (run ops e).
Proof.
  revert e. induction ops as [|op ops IH]; intros e; [apply extends_refl|].
  simpl. eapply extends_trans; [apply exec_extends | apply IH].
Qed.

(** ** The indexes agree with the posts *)

Lemma exec_same_post_fields op e :
  match op with
  | OpCreatePost _ _ _ _ _ _ => True
  | _ => (∀ a, post_id (exec op e) a = post_id e a) ∧
         (∀ a, post_sub (exec op e) a = post_sub e a)
  end.
Proof.
  assert (∀ a p p' (h : list Post.t), h !! a = Some p →
            Post.ID p' = Post.ID p → Post.Subreddit p' = Post.Subreddit p →
            (∀ b, Post.ID <$> <[a := p']> h !! b = Post.ID <$> h !! b) ∧
            (∀ b, Post.Subreddit <$> <[a := p']> h !! b = Post.Subreddit <$> h !! b)) as Hins.
  { intros a p p' h Ha Hid Hsub. split; intros b; (destruct (decide (a = b)) as [<-|Hne];
      [rewrite list_lookup_insert_eq by (by eapply lookup_lt_Some); rewrite Ha; simpl; congruence
      |by rewrite list_lookup_insert_ne]). }
  destruct op; simpl; try done.
  - unfold RegisterUser. by case_match.
  - unfold CreateSubreddit. by case_match.
  - unfold JoinSubreddit. by repeat case_match.
  - unfold LeaveSubreddit. by repeat case_match.
  - unfold AddComment, post_id, post_sub.
    destruct (posts e !! postID) as [a|]; [|done].
    destruct (heap e !! a) as [post|] eqn:Hh; [|done].
    repeat case_match; try done; simpl; by eapply Hins.
  - unfold VotePost, post_id, post_sub.
    destruct (posts e !! postID) as [a|]; [|done].
    destruct (heap e !! a) as [post|] eqn:Hh; [|done].
    destruct upvote; simpl; rewrite updateKarma_heap; simpl; by eapply Hins.
  - unfold SendDirectMessage. by repeat case_match.
  - unfold ReplyToDirectMessage. by repeat case_match.
Qed.

Lemma exec_store_indexed op e :
  ptrs_valid e → store_indexed e → store_indexed (exec op e).
Proof.
  intros Hv (Ha & Hb & Hc).
  pose proof (exec_same_post_refs op e) as Hrefs.
  pose proof (exec_same_post_fields op e) as Hfields.
  assert ((∀ a, post_id (exec op e) a = post_id e a) →
          (∀ a, post_sub (exec op e) a = post_sub e a) →
          (∀ s, sub_posts (exec op e) s = sub_posts e s) →
          posts (exec op e) = posts e → store_indexed (exec op e)) as Hsame.
  { intros Hi Hs Hp Hm. unfold store_indexed.
    setoid_rewrite Hi. setoid_rewrite Hs. setoid_rewrite Hp. rewrite Hm. done. }
  destruct op; try (destruct Hrefs as (Hr1 & Hr2 & _); destruct Hfields as [Hf1 Hf2];
                    by apply Hsame).
  - (* CreateSubreddit *)
    destruct Hfields as [Hf1 Hf2]. simpl in *.
    destruct (subreddits e !! name) as [sub|] eqn:Hs.
    { unfold CreateSubreddit. rewrite Hs. done. }
    assert (posts (CreateSubreddit name description creator now e).1 = posts e) as Hp
      by (unfold CreateSubreddit; by rewrite Hs).
    assert (sub_posts e name = None) as Hnone by (unfold sub_posts; by rewrite Hs).
    unfold store_indexed. setoid_rewrite Hf1. setoid_rewrite Hf2. rewrite Hp.
    setoid_rewrite (CreateSubreddit_sub_posts _ _ _ _ _ _ Hs).
    split; [done|]. split.
    + intros a s Hps. destruct (Hb a s Hps) as (l & Hl & Hin). exists l.
      case_decide; [subst; congruence | done].
    + intros s l a. case_decide; [intros [= <-] Hin; by apply elem_of_nil in Hin | apply Hc].
  - (* CreatePost *)
    simpl. destruct (subreddits e !! subreddit) as [sub|] eqn:Hs;
      [|unfold CreatePost; by rewrite Hs].
    set (post := Post.mk (Sprintf_d "post_" (UnixNano tid)) title content author
                   subreddit now 0 []).
    assert (heap (CreatePost title content author subreddit tid now e).1 = heap e ++ [post])
      as Hh by (unfold CreatePost; by rewrite Hs).
    assert (posts (CreatePost title content author subreddit tid now e).1
            = <[Post.ID post := length (heap e)]> (posts e))
      as Hp by (unfold CreatePost; by rewrite Hs).
    assert (∀ b, (b < length (heap e))%nat →
              post_id (CreatePost title content author subreddit tid now e).1 b = post_id e b ∧
              post_sub (CreatePost title content author subreddit tid now e).1 b = post_sub e b)
      as Hold.
    { intros b Hlt. unfold post_id, post_sub. rewrite Hh. by rewrite lookup_app_l. }
    assert (post_id (CreatePost title content author subreddit tid now e).1 (length (heap e))
            = Some (Post.ID post) ∧
            post_sub (CreatePost title content author subreddit tid now e).1 (length (heap e))
            = Some subreddit) as [Hnid Hnsub].
    { unfold post_id, post_sub. rewrite Hh. by rewrite list_lookup_middle. }
    assert (∀ b s, post_sub e b = Some s → (b < length (heap e))%nat) as Hlt_sub.
    { intros b s. unfold post_sub. destruct (heap e !! b) eqn:Hb'; [|done].
      intros _. by eapply lookup_lt_Some. }
    assert (sub_posts e subreddit = Some (Subreddit.Posts sub)) as Hsp
      by (unfold sub_posts; by rewrite Hs).
    apply ptrs_valid_alt in Hv as [Hv1 Hv2].
    unfold store_indexed. rewrite Hp.
    setoid_rewrite (CreatePost_sub_posts _ _ _ _ _ _ _ _ _ Hs).
    split; [|split].
    + intros id a. rewrite lookup_insert. case_decide; [by intros [= <-]; subst|].
      intros Hid. rewrite (proj1 (Hold a (Hv1 _ _ Hid))). by apply Ha.
    + intros a s Hps. destruct (decide (a = length (heap e))) as [->|Hne].
      * rewrite Hnsub in Hps. injection Hps as <-. rewrite decide_True by done.
        eexists. split; [done|]. apply elem_of_app. right. by left.
      * assert (a < length (heap e))%nat as Hlt.
        { unfold post_sub in Hps. rewrite Hh in Hps.
          destruct ((heap e ++ [post]) !! a) eqn:Hl; [|done].
          apply lookup_lt_Some in Hl. rewrite length_app in Hl. simpl in Hl. lia. }
        rewrite (proj2 (Hold a Hlt)) in Hps. destruct (Hb a s Hps) as (l & Hl & Hin).
        case_decide; [subst|by exists l].
        eexists. split; [done|]. rewrite Hsp in Hl. injection Hl as <-.
        apply elem_of_app. by left.
    + intros s l a. case_decide.
      * subst. intros [= <-] Hin. apply elem_of_app in Hin as [Hin|Hin].
        -- pose proof (Hc _ _ _ Hsp Hin) as Hps.
           by rewrite (proj2 (Hold a (Hlt_sub _ _ Hps))).
        -- by apply list_elem_of_singleton in Hin as ->.
      * intros Hl Hin. pose proof (Hc _ _ _ Hl Hin) as Hps.
        by rewrite (proj2 (Hold a (Hlt_sub _ _ Hps))).
Qed.

Lemma exec_keyed_by_name op e : keyed_by_name e → keyed_by_name (exec op e).
Proof.
  intros [Hu Hs].
  assert (∀ w v e0, keyed_by_name e0 → keyed_by_name (updateKarma w v e0)) as Hk.
  { intros w v e0 [Hu0 Hs0]. split; [|by rewrite updateKarma_subreddits].
    unfold updateKarma. destruct (users e0 !! w) as [user|] eqn:Hw; [|done].
    intros u user'. simpl. rewrite lookup_insert.
    case_decide; [subst; intros [= <-]; simpl; by apply Hu0 | apply Hu0]. }
  destruct op; simpl; try done.
  - unfold RegisterUser. case_match; [done|]. split; [|done].
    intros u user. simpl. rewrite lookup_insert.
    case_decide; [by intros [= <-] | apply Hu].
  - unfold CreateSubreddit. case_match; [done|]. split; [done|].
    intros s sub. simpl. rewrite lookup_insert.
    case_decide; [by intros [= <-] | apply Hs].
  - unfold JoinSubreddit. repeat case_match; try done. split.
    + intros u user. simpl. rewrite lookup_insert.
      case_decide; [subst; intros [= <-]; simpl; by apply Hu | apply Hu].
    + intros s sub. simpl. rewrite lookup_insert.
      case_decide; [subst; intros [= <-]; simpl; by apply Hs | apply Hs].
  - unfold LeaveSubreddit. repeat case_match; try done. split.
    + intros u user. simpl. rewrite lookup_insert.
      case_decide; [subst; intros [= <-]; simpl; by apply Hu | apply Hu].
    + intros s sub. simpl. rewrite lookup_insert.
      case_decide; [subst; intros [= <-]; simpl; by apply Hs | apply Hs].
  - unfold CreatePost. case_match; [|done]. split; [done|].
    intros s sub. simpl. rewrite lookup_insert.
    case_decide; [subst; intros [= <-]; simpl; by apply Hs | apply Hs].
  - unfold AddComment. by repeat case_match.
  - unfold VotePost. repeat case_match; try done; simpl; by apply Hk.
  - unfold SendDirectMessage. by repeat case_match.
  - unfold ReplyToDirectMessage. by repeat case_match.
Qed.

(** X5. In every state the engine can reach: an id bound in [posts] leads
    to a post that bears that id; every allocated post is listed in the
    post sequence of the subreddit it names, which exists; a post listed
    in a subreddit's sequence names that subreddit; and users and
    subreddits are stored under their own names. *)
Theorem X5_indexes_agree (e : RedditEngine) :
  reachable e →
  (∀ id a, posts e !! id = Some a → ∃ p, heap e !! a = Some p ∧ Post.ID p = id) ∧
  (∀ a p, heap e !! a = Some p →
     ∃ sub, subreddits e !! Post.Subreddit p = Some sub ∧ a ∈ Subreddit.Posts sub) ∧
  (∀ s sub a, subreddits e !! s = Some sub → a ∈ Subreddit.Posts sub →
     ∃ p, heap e !! a = Some p ∧ Post.Subreddit p = s) ∧
  (∀ u user, users e !! u = Some user → User.Username user = u) ∧
  (∀ s sub, subreddits e !! s = Some sub → Subreddit.Name sub = s).
Proof.
  intros Hr.
  assert (store_indexed e ∧ keyed_by_name e) as [(Ha & Hb & Hc) [Hu Hs]].
  { induction Hr as [|op e Hr [IH1 IH2]].
    - split; [split; [|split]|split]; unfold post_sub, sub_posts; simpl.
      + intros id a H. by rewrite lookup_empty in H.
      + intros a s H. simpl in H. discriminate.
      + intros s l a H. by rewrite lookup_empty in H.
      + intros u user H. by rewrite lookup_empty in H.
      + intros s sub H. by rewrite lookup_empty in H.
    - split; [|by apply exec_keyed_by_name].
      apply exec_store_indexed; [apply (reachable_refs e Hr) | done]. }
  split; [|split; [|split; [|split]]]; [| | |done|done].
  - intros id a Hid. specialize (Ha id a Hid). unfold post_id in Ha.
    destruct (heap e !! a) as [p|]; [|done]. exists p. split; [done|]. by injection Ha.
  - intros a p Hp. destruct (Hb a (Post.Subreddit p)) as (l & Hl & Hin).
    { unfold post_sub. by rewrite Hp. }
    unfold sub_posts in Hl. destruct (subreddits e !! Post.Subreddit p) as [sub|]; [|done].
    exists sub. split; [done|]. by injection Hl as ->.
  - intros s sub a Hsub Hin. specialize (Hc s (Subreddit.Posts sub) a).
    unfold sub_posts, post_sub in Hc. rewrite Hsub in Hc. specialize (Hc eq_refl Hin).
    destruct (heap e !! a) as [p|]; [|done]. exists p. split; [done|]. by injection Hc.
Qed.

Lemma X5_indexes_agree_witness :
  ∃ p, heap e_stats !! 1%nat = Some p ∧ Post.ID p = "post_7".
Proof.
  destruct (X5_indexes_agree e_stats) as (H & _).
  - apply reachable_run. constructor.
  - apply (H "post_7" 1%nat). by vm_compute.
Defined.

(** ** Sending and reading messages *)

(** X8. [SendDirectMessage] fails with NotFound("sender") when the sender
    is not registered and otherwise with NotFound("recipient") when the
    recipient is not; nothing changes then.  On success the message, with
    no reply, is appended to the end of the recipient's inbox, every other
    inbox is untouched (a user may write to themself), [GetDirectMessages]
    of the recipient returns the old inbox followed by the message, and
    the message can be answered at once. *)
Theorem X8_send_direct_message (from to content : string) (tid now : Time)
    (e : RedditEngine) :
  (users e !! from = None →
   SendDirectMessage from to content tid now e = (e, Err (NotFound "sender"))) ∧
  (is_Some (users e !! from) → users e !! to = None →
   SendDirectMessage from to content tid now e = (e, Err (NotFound "recipient"))) ∧
  (is_Some (users e !! from) → is_Some (users e !! to) →
   ∃ e',
     let dm := DirectMessage.mk (Sprintf_d "dm_" (UnixNano tid)) from to content now [] in
     SendDirectMessage from to content tid now e = (e', Ok dm) ∧
     inbox e' to = inbox e to ++ [dm] ∧
     (∀ k, k ≠ to → inbox e' k = inbox e k) ∧
     GetDirectMessages to e' = Ok (inbox e to ++ [dm]) ∧
     users e' = users e ∧ subreddits e' = subreddits e ∧ posts e' = posts e ∧
     heap e' = heap e ∧
     ∀ order from2 content2 tid2 now2, to ∈ order →
       ∃ e'' reply,
         ReplyToDirectMessage (DirectMessage.ID dm) from2 content2 order tid2 now2 e'
           = (e'', Ok reply)).
Proof.
  split; [|split].
  - intros Hf. unfold SendDirectMessage. by rewrite Hf.
  - intros [uf Hf] Ht. unfold SendDirectMessage. by rewrite Hf, Ht.
  - intros [uf Hf] [ut Ht]. eexists. cbv zeta. unfold SendDirectMessage at 1.
    rewrite Hf, Ht. split; [done|].
    set (dm := DirectMessage.mk _ _ _ _ _ _).
    assert (inbox (set_directMessages (<[to:=inbox e to ++ [dm]]> (directMessages e)) e) to
            = inbox e to ++ [dm]) as Hin
      by (unfold inbox at 1; simpl; by rewrite lookup_insert_eq).
    split; [done|].
    split; [intros k Hk; unfold inbox; simpl; by rewrite lookup_insert_ne|].
    split; [unfold GetDirectMessages; simpl; by rewrite Ht, Hin|].
    do 4 (split; [done|]).
    intros order from2 content2 tid2 now2 Hto. unfold ReplyToDirectMessage.
    set (e' := set_directMessages _ e) in *.
    destruct (scan_inboxes_found e' (DirectMessage.ID dm) order None to Hto)
      as [[[k i] m] ->]; [|by eexists _, _].
    left. rewrite Hin.
    destruct (find_dm (inbox e to ++ [dm]) (DirectMessage.ID dm) 0) eqn:Hfind; [done|].
    rewrite find_dm_None in Hfind.
    by destruct (Hfind (length (inbox e to)) dm (list_lookup_middle _ _ _ _ eq_refl)).
Qed.

Lemma X8_send_direct_message_witness :
  ∃ e' dm, SendDirectMessage "alice" "bob" "again" 12 12 e_alice_dm_bob = (e', Ok dm) ∧
    GetDirectMessages "bob" e' = Ok (inbox e_alice_dm_bob "bob" ++ [dm]).
Proof.
  destruct (X8_send_direct_message "alice" "bob" "again" 12 12 e_alice_dm_bob) as (_ & _ & H).
  destruct H as (e' & Hs & _ & _ & Hg & _);
    [vm_compute; eexists; reflexivity | vm_compute; eexists; reflexivity |].
  exists e', (DirectMessage.mk "dm_12" "alice" "bob" "again" 12 []).
  split; [exact Hs | exact Hg].
Defined.

(** ** Inboxes are well formed *)

Lemma exec_users_kept op e u : is_Some (users e !! u) → is_Some (users (exec op e) !! u).
Proof.
  intros [user Hu]. destruct (exec_extends op e) as (HU & _).
  destruct (HU u user Hu) as (user' & Hu' & _). by exists user'.
Qed.

Lemma dms_wellformed_users e e' :
  (∀ u, is_Some (users e !! u) → is_Some (users e' !! u)) →
  directMessages e' = directMessages e → dms_wellformed e → dms_wellformed e'.
Proof.
  intros Hu Hd Hwf k msgs. rewrite Hd. intros Hk.
  destruct (Hwf k msgs Hk) as (Hne & Hreg & Hm).
  split; [done|]. split; [by apply Hu|].
  intros m Hin. destruct (Hm m Hin) as (Hto & Hfrom & Hr). split; [done|]. split; [by apply Hu | done].
Qed.

Lemma exec_dms_wellformed op e : dms_wellformed e → dms_wellformed (exec op e).
Proof.
  intros Hwf.
  assert (directMessages (exec op e) = directMessages e → dms_wellformed (exec op e)) as Hsame.
  { intros Hd. eapply dms_wellformed_users; [|exact Hd|exact Hwf].
    intros u. apply exec_users_kept. }
  destruct op; try (apply Hsame; simpl;
    unfold RegisterUser, CreateSubreddit, JoinSubreddit, LeaveSubreddit, CreatePost,
      AddComment, VotePost;
    repeat case_match; simpl; rewrite ?updateKarma_directMessages; done).
  - (* SendDirectMessage *)
    simpl. unfold SendDirectMessage.
    destruct (users e !! from) as [uf|] eqn:Hf; [|done].
    destruct (users e !! to) as [ut|] eqn:Ht; [|done]. simpl.
    intros k msgs. simpl. rewrite lookup_insert. case_decide as Hk.
    + subst k. intros [= <-]. split; [by destruct (inbox e to)|]. split; [by rewrite Ht|].
      intros m Hin. apply elem_of_app in Hin as [Hin|Hin].
      * unfold inbox in Hin. destruct (directMessages e !! to) as [old|] eqn:Hold;
          [|by apply elem_of_nil in Hin].
        by apply (Hwf to old Hold).
      * apply list_elem_of_singleton in Hin as ->. simpl. split; [done|].
        split; [by rewrite Hf|]. intros r Hr. by apply elem_of_nil in Hr.
    + apply Hwf.
  - (* ReplyToDirectMessage *)
    simpl. pose proof (scan_inboxes_Some e originalMsgID order None) as Hscan.
    unfold ReplyToDirectMessage.
    destruct (scan_inboxes e order originalMsgID None) as [[[k0 i0] m0]|]; [|done].
    destruct (Hscan k0 i0 m0 eq_refl) as [Hx|Hfind]; [done|].
    apply find_dm_Some in Hfind as (_ & Hm0 & _). rewrite Nat.sub_0_r in Hm0.
    apply inbox_lookup_Some in Hm0 as (msgs0 & Hk0 & Hi0). simpl.
    intros k msgs. simpl. rewrite lookup_alter. case_decide as Hk; [|apply Hwf].
    subst k. rewrite Hk0. simpl. intros [= <-].
    destruct (Hwf k0 msgs0 Hk0) as (Hne & Hreg & Hm).
    split; [|split; [done|]].
    { intros Hnil. apply (f_equal length) in Hnil. rewrite length_alter in Hnil.
      by destruct msgs0. }
    intros m Hin. apply list_elem_of_lookup in Hin as [i Hi].
    destruct (decide (i0 = i)) as [->|Hne'].
    + rewrite list_lookup_alter_eq, Hi0 in Hi. injection Hi as <-.
      destruct (Hm m0 (list_elem_of_lookup_2 _ _ _ Hi0)) as (Hto & Hfrom & Hr).
      simpl. split; [done|]. split; [done|].
      intros r Hin. apply elem_of_app in Hin as [Hin|Hin]; [by apply Hr|].
      by apply list_elem_of_singleton in Hin as ->.
    + rewrite list_lookup_alter_ne in Hi by done.
      apply (Hm m (list_elem_of_lookup_2 _ _ _ Hi)).
Qed.

(** X22. In every state the engine can reach, an inbox that exists is
    non-empty and belongs to a registered user; each of its messages is
    addressed to that user by a registered sender; every reply is
    addressed to the sender of the message it answers and has no reply of
    its own, so a thread is never deeper than one level. *)
Theorem X22_inboxes_wellformed (e : RedditEngine) :
  reachable e →
  ∀ k msgs, directMessages e !! k = Some msgs →
    msgs ≠ [] ∧ is_Some (users e !! k) ∧
    ∀ m, m ∈ msgs →
      DirectMessage.To m = k ∧ is_Some (users e !! DirectMessage.From m) ∧
      ∀ r, r ∈ DirectMessage.Replies m →
        DirectMessage.To r = DirectMessage.From m ∧ DirectMessage.Replies r = [].
Proof.
  intros Hr. change (dms_wellformed e).
  induction Hr as [|op e Hr IH]; [|by apply exec_dms_wellformed].
  intros k msgs H. simpl in H. by rewrite lookup_empty in H.
Qed.

Lemma X22_inboxes_wellformed_witness :
  [DirectMessage.mk "dm_11" "alice" "bob" "hi" 11 []] ≠ [] ∧
  is_Some (users e_stats !! "bob").
Proof.
  destruct (X22_inboxes_wellformed e_stats) with
    (k := "bob") (msgs := [DirectMessage.mk "dm_11" "alice" "bob" "hi" 11 []])
    as (Hne & Hk & _).
  - apply reachable_run. constructor.
  - by vm_compute.
  - by split.
Defined.

(** ** Votes commute *)

Lemma gmap_alter_swap {A} (f g : A → A) (i j : string) (m : gmap string A) :
  (∀ x, f (g x) = g (f x)) → alter f i (alter g j m) = alter g j (alter f i m).
Proof.
  intros Hfg. apply map_eq. intros k. rewrite !lookup_alter.
  repeat case_decide; subst; rewrite ?lookup_alter; repeat case_decide; try done.
  destruct (m !! k); simpl; by rewrite ?Hfg.
Qed.

Lemma list_alter_swap {A} (f g : A → A) (i j : nat) (l : list A) :
  (∀ x, f (g x) = g (f x)) → alter f i (alter g j l) = alter g j (alter f i l).
Proof.
  intros Hfg. apply list_eq. intros k.
  destruct (decide (i = k)) as [->|Hi]; destruct (decide (j = k)) as [->|Hj];
    rewrite ?list_lookup_alter_eq, ?list_lookup_alter_ne, ?list_lookup_alter_eq,
      ?list_lookup_alter_ne by done; try done.
  destruct (l !! k); simpl; by rewrite ?Hfg.
Qed.

Lemma add_Karma_swap v w u :
  User.add_Karma v (User.add_Karma w u) = User.add_Karma w (User.add_Karma v u).
Proof.
  unfold User.add_Karma. simpl. f_equal. unfold GoInt.add.
  rewrite !GoIntFacts.wrap_add_l. f_equal. lia.
Qed.

Lemma cast_swap u1 u2 p : cast u1 (cast u2 p) = cast u2 (cast u1 p).
Proof.
  unfold cast, Post.set_Votes. simpl. f_equal. unfold GoInt.add.
  rewrite !GoIntFacts.wrap_add_l. f_equal. lia.
Qed.

Lemma VotePost_vote_apply postID upvote e :
  VotePost postID upvote e =
    match vote_target e postID with
    | Some (a, author) => (vote_apply a author upvote e, Ok ())
    | None => (e, vote_failure e postID)
    end.
Proof.
  unfold vote_target, vote_failure.
  destruct (posts e !! postID) as [a|] eqn:Hp; [|unfold VotePost; by rewrite Hp].
  destruct (heap e !! a) as [post|] eqn:Hh; [|unfold VotePost; by rewrite Hp, Hh].
  rewrite (VotePost_found _ _ _ _ _ Hp Hh). f_equal.
  unfold vote_apply, updateKarma. simpl.
  assert (<[a:=Post.set_Votes (GoInt.add (Post.Votes post) (vote_delta upvote)) post]> (heap e)
          = alter (cast upvote) a (heap e)) as ->.
  { apply list_eq. intros k. destruct (decide (a = k)) as [<-|Hk].
    - rewrite list_lookup_alter_eq, Hh.
      by rewrite list_lookup_insert_eq by (by eapply lookup_lt_Some).
    - by rewrite list_lookup_alter_ne, list_lookup_insert_ne. }
  destruct (users e !! Post.Author post) as [user|] eqn:Hu;
    unfold set_users, set_heap; simpl; f_equal.
  - apply map_eq. intros k. rewrite lookup_alter, lookup_insert.
    case_decide; [by rewrite Hu | done].
  - apply map_eq. intros k. rewrite lookup_alter. case_decide; [subst; by rewrite Hu | done].
Qed.

Lemma vote_target_vote_apply a author upvote e postID :
  vote_target (vote_apply a author upvote e) postID = vote_target e postID.
Proof.
  unfold vote_target. simpl. destruct (posts e !! postID) as [b|]; [|done].
  destruct (decide (a = b)) as [<-|Hne].
  - rewrite list_lookup_alter_eq. by destruct (heap e !! a).
  - by rewrite list_lookup_alter_ne.
Qed.

Lemma VotePost_outcome postID upvote e :
  (VotePost postID upvote e).2 =
    match posts e !! postID with
    | None => Err "post not found"
    | Some a =>
        match heap e !! a with
        | Some _ => Ok ()
        | None => Panic
        end
    end.
Proof. unfold VotePost. repeat case_match; done. Qed.

Lemma vote_apply_outcome a author upvote e postID up' :
  (VotePost postID up' (vote_apply a author upvote e)).2 = (VotePost postID up' e).2.
Proof.
  rewrite !VotePost_outcome. simpl. destruct (posts e !! postID) as [b|]; [|done].
  destruct (decide (a = b)) as [<-|Hne].
  - rewrite list_lookup_alter_eq. by destruct (heap e !! a).
  - by rewrite list_lookup_alter_ne.
Qed.

Lemma vote_apply_swap a1 w1 u1 a2 w2 u2 e :
  vote_apply a2 w2 u2 (vote_apply a1 w1 u1 e) = vote_apply a1 w1 u1 (vote_apply a2 w2 u2 e).
Proof.
  unfold vote_apply. simpl. f_equal.
  - apply gmap_alter_swap. intros u. apply add_Karma_swap.
  - apply list_alter_swap. intros p. apply cast_swap.
Qed.

Lemma VotePost_swap p1 u1 p2 u2 e :
  (VotePost p2 u2 (VotePost p1 u1 e).1).1 = (VotePost p1 u1 (VotePost p2 u2 e).1).1.
Proof.
  rewrite (VotePost_vote_apply p1 u1 e), (VotePost_vote_apply p2 u2 e).
  destruct (vote_target e p1) as [[a1 w1]|] eqn:H1;
    destruct (vote_target e p2) as [[a2 w2]|] eqn:H2; simpl;
    rewrite !VotePost_vote_apply, ?vote_target_vote_apply, ?H1, ?H2; simpl; try done.
  apply vote_apply_swap.
Qed.

Lemma VotePost_outcome_after p1 u1 p2 u2 e :
  (VotePost p2 u2 (VotePost p1 u1 e).1).2 = (VotePost p2 u2 e).2.
Proof.
  rewrite (VotePost_vote_apply p1 u1 e).
  destruct (vote_target e p1) as [[a1 w1]|]; simpl; [apply vote_apply_outcome | done].
Qed.

(** X9. Votes commute: casting the same votes, on any posts and with any
    authors, in another order leaves the same state; and whether a vote
    succeeds does not depend on the votes cast before it. *)
Theorem X9_votes_commute (votes votes' : list (string * bool)) (e : RedditEngine) :
  votes ≡ₚ votes' →
  cast_all votes e = cast_all votes' e ∧
  ∀ postID upvote,
    (VotePost postID upvote (cast_all votes e)).2 = (VotePost postID upvote e).2.
Proof.
  intros Hperm. split.
  - revert e. unfold cast_all.
    induction Hperm as [|v l l' Hp IH|v w l|l1 l2 l3 Hp1 IH1 Hp2 IH2]; intros e; simpl.
    + done.
    + apply IH.
    + by rewrite VotePost_swap.
    + by rewrite IH1.
  - clear Hperm votes'. intros postID upvote. revert e. unfold cast_all.
    induction votes as [|v l IH]; intros e; simpl; [done|].
    by rewrite IH, VotePost_outcome_after.
Qed.

Lemma X9_votes_commute_witness :
  cast_all [("post_5", true); ("post_7", false); ("post_5", false)] e_stats =
  cast_all [("post_7", false); ("post_5", false); ("post_5", true)] e_stats.
Proof.
  apply (X9_votes_commute [("post_5", true); ("post_7", false); ("post_5", false)]
           [("post_7", false); ("post_5", false); ("post_5", true)] e_stats).
  etrans; [apply perm_swap|]. apply perm_skip, perm_swap.
Defined.

(** X10. A vote on an unknown post id fails with NotFound("post") and
    changes nothing.  A successful vote changes the counter of the voted
    post and the karma of its author and nothing else: every other post,
    the post's comments and fixed fields, every other user, the author's
    joined set and fixed fields, the subreddits, the id map and the
    inboxes are as before. *)
Theorem X10_vote_frame (e : RedditEngine) (postID : string) (upvote : bool) :
  (posts e !! postID = None → VotePost postID upvote e = (e, Err (NotFound "post"))) ∧
  (∀ a post, posts e !! postID = Some a → heap e !! a = Some post →
   ∃ e', VotePost postID upvote e = (e', Ok ()) ∧
     heap e' !! a = Some (cast upvote post) ∧
     Post.Comments (cast upvote post) = Post.Comments post ∧
     post_static (cast upvote post) = post_static post ∧
     (∀ b, b ≠ a → heap e' !! b = heap e !! b) ∧
     length (heap e') = length (heap e) ∧
     (∀ w, w ≠ Post.Author post → users e' !! w = users e !! w) ∧
     (∀ user, users e !! Post.Author post = Some user →
        ∃ user', users e' !! Post.Author post = Some user' ∧
          User.Karma user' = GoInt.add (User.Karma user) (karma_delta upvote) ∧
          User.Subreddits user' = User.Subreddits user ∧
          user_static user' = user_static user) ∧
     (users e !! Post.Author post = None → users e' = users e) ∧
     subreddits e' = subreddits e ∧ posts e' = posts e ∧
     directMessages e' = directMessages e).
Proof.
  split.
  - intros Hp. unfold VotePost. by rewrite Hp.
  - intros a post Hp Hh. eexists. split; [by apply VotePost_found|].
    rewrite updateKarma_heap, updateKarma_subreddits, updateKarma_posts,
      updateKarma_directMessages. simpl.
    split; [apply list_lookup_insert_eq; by eapply lookup_lt_Some|].
    do 2 (split; [done|]).
    split; [intros b Hb; by apply list_lookup_insert_ne|].
    split; [apply length_insert|].
    split; [intros w Hw; by rewrite updateKarma_others|].
    split.
    { intros user Hu. eexists. split; [by apply (updateKarma_author _ _ (set_heap _ e))|].
      done. }
    split; [intros Hu; by rewrite (updateKarma_unregistered _ _ (set_heap _ e))|]. done.
Qed.

Lemma X10_vote_frame_witness :
  ∃ e', VotePost "post_5" false e_alice_post = (e', Ok ()) ∧
    length (heap e') = length (heap e_alice_post).
Proof.
  destruct (X10_vote_frame e_alice_post "post_5" false) as [_ H].
  destruct (H 0%nat (Post.mk "post_5" "H" "C" "alice" "science" 5 0 []))
    as (e' & Hv & _ & _ & _ & _ & Hl & _); [reflexivity | reflexivity |].
  exists e'. split; [exact Hv | exact Hl].
Defined.

(** X13. The counter of a post does not determine the karma of its author:
    an upvote followed by two downvotes brings the counter back to its
    value and leaves a registered author one karma lower (in [int]
    arithmetic; exactly so when the karma fits its type). *)
Theorem X13_counter_restored_karma_lost (e : RedditEngine) (postID : string) (a : ptr)
    (post : Post.t) :
  posts e !! postID = Some a → heap e !! a = Some post → GoInt.in_range (Post.Votes post) →
  ∃ e' post',
    vote_seq postID [true; false; false] e = (e', Ok ()) ∧
    heap e' !! a = Some post' ∧ Post.Votes post' = Post.Votes post ∧
    ∀ user, users e !! Post.Author post = Some user → GoInt.in_range (User.Karma user) →
      ∃ user', users e' !! Post.Author post = Some user' ∧
        User.Karma user' = GoInt.wrap (User.Karma user - 1) ∧
        (GoInt.in_range (User.Karma user - 1) → User.Karma user' = User.Karma user - 1).
Proof.
  intros Hp Hh Hr.
  destruct (vote_seq_effect postID a [true; false; false] e post Hp Hh Hr)
    as (e' & post' & Hrun & _ & Hh' & _ & Hv & _ & _ & Hk).
  exists e', post'. do 2 (split; [done|]).
  split.
  { rewrite Hv. change (2 * upvotes [true; false; false] - downvotes [true; false; false])
      with 0. rewrite Z.add_0_r. by apply GoIntFacts.wrap_in_range. }
  intros user Hu Hku. destruct (Hk user Hu Hku) as (user' & Hu' & Hk').
  exists user'. split; [done|].
  change (upvotes [true; false; false] - downvotes [true; false; false]) with (-1) in Hk'.
  split; [done|]. intros Hr'. rewrite Hk'. by apply GoIntFacts.wrap_in_range.
Qed.

Lemma X13_counter_restored_karma_lost_witness :
  ∃ e' post' user',
    vote_seq "post_5" [true; false; false] e_alice_post = (e', Ok ()) ∧
    heap e' !! 0%nat = Some post' ∧ Post.Votes post' = 0 ∧
    users e' !! "alice" = Some user' ∧ User.Karma user' = -1.
Proof.
  destruct (X13_counter_restored_karma_lost e_alice_post "post_5" 0%nat
              (Post.mk "post_5" "H" "C" "alice" "science" 5 0 []))
    as (e' & post' & Hrun & Hh & Hv & Hk); [reflexivity | reflexivity | by compute |].
  destruct (Hk (User.mk "alice" "pw" 0 0 ∅)) as (user' & Hu & _ & Hexact);
    [reflexivity | by compute |].
  exists e', post', user'. split; [exact Hrun|]. split; [exact Hh|]. split; [exact Hv|].
  split; [exact Hu|]. apply Hexact. by compute.
Defined.

(** ** More on the feed *)

Section SortPostsMore.
Context {A : Type} (CreatedAt : A → Time).

Lemma bubble_sorted count : ∀ l,
  StronglySorted (desc CreatedAt) l → bubble CreatedAt count l = l.
Proof.
  induction count as [|count IH]; intros l Hs; simpl; [by destruct l|].
  destruct l as [|x [|y r]]; [done..|].
  apply StronglySorted_inv in Hs as [Hs Hx].
  apply Forall_cons in Hx as [Hxy _]. unfold desc in Hxy.
  unfold Before. rewrite bool_decide_false by lia. f_equal. by apply IH.
Qed.

Lemma sortPosts_outer_sorted_id count : ∀ i l,
  StronglySorted (desc CreatedAt) l → sortPosts_outer CreatedAt count i l = l.
Proof.
  induction count as [|count IH]; intros i l Hs; simpl; [done|].
  rewrite sortPosts_inner_bubble0, bubble_sorted by done. by apply IH.
Qed.

(** X19. [sortPosts] leaves a slice that is already ordered most recent
    first exactly as it is; so sorting twice is the same as sorting once,
    and the empty and the one-element slice are unchanged. *)
Theorem X19_sortPosts_idempotent (posts : list A) :
  (StronglySorted (desc CreatedAt) posts → sortPosts CreatedAt posts = posts) ∧
  sortPosts CreatedAt (sortPosts CreatedAt posts) = sortPosts CreatedAt posts ∧
  length (sortPosts CreatedAt posts) = length posts ∧
  sortPosts CreatedAt [] = [] ∧ ∀ x, sortPosts CreatedAt [x] = [x].
Proof.
  assert (∀ l, StronglySorted (desc CreatedAt) l → sortPosts CreatedAt l = l) as Hid
    by (intros l Hs; by apply sortPosts_outer_sorted_id).
  split; [apply Hid|]. split; [apply Hid, sortPosts_sorted|].
  split; [apply Permutation_length, sortPosts_perm|]. by split.
Qed.

Context (R : A → A → Prop) (R_key : ∀ x y, R x y → CreatedAt x = CreatedAt y).

Lemma bubble_Forall2 count : ∀ l l',
  Forall2 R l l' → Forall2 R (bubble CreatedAt count l) (bubble CreatedAt count l').
Proof.
  induction count as [|count IH]; intros l l' H; simpl; [by destruct l, l'|].
  destruct H as [|x x' l l' Hx [|y y' r r' Hy Hr]]; [by repeat constructor..|].
  rewrite (R_key _ _ Hx), (R_key _ _ Hy).
  destruct (Before (CreatedAt x') (CreatedAt y'));
    (constructor; [done|]); apply IH; by constructor.
Qed.

Lemma sortPosts_Forall2 l l' :
  Forall2 R l l' → Forall2 R (sortPosts CreatedAt l) (sortPosts CreatedAt l').
Proof.
  intros H. unfold sortPosts. rewrite <- (Forall2_length _ _ _ H).
  generalize (length l - 1)%nat as count. generalize 0%nat as i.
  intros i count. revert i l l' H.
  induction count as [|count IH]; intros i l l' H; simpl; [done|].
  apply IH. rewrite !sortPosts_inner_bubble0, <- (Forall2_length _ _ _ H).
  by apply bubble_Forall2.
Qed.
End SortPostsMore.

Lemma X19_sortPosts_idempotent_witness :
  sortPosts (λ t : Time, t) [3; 2; 1] = [3; 2; 1].
Proof.
  destruct (X19_sortPosts_idempotent (λ t : Time, t) [3; 2; 1]) as [H _].
  apply H. repeat constructor; unfold desc; lia.
Defined.

Lemma resolve_cons h a feed :
  resolve h (a :: feed) =
    match h !! a with
    | Some p =>
        match resolve h feed with
        | Some objs => Some ((a, p) :: objs)
        | None => None
        end
    | None => None
    end.
Proof. unfold resolve. simpl. destruct (h !! a); simpl; [|done]. by destruct (mapM _ feed). Qed.

Lemma resolve_same_entries h h' feed :
  (∀ a, created_in h' a = created_in h a) →
  match resolve h feed, resolve h' feed with
  | Some objs, Some objs' => Forall2 same_entry objs objs'
  | None, None => True
  | _, _ => False
  end.
Proof.
  intros Hc. induction feed as [|a feed IH]; [by constructor|].
  rewrite !resolve_cons. specialize (Hc a). unfold created_in in Hc.
  destruct (h !! a) as [p|], (h' !! a) as [p'|]; try done.
  destruct (resolve h feed), (resolve h' feed); try done.
  constructor; [|done]. split; [done|]. simpl. by injection Hc.
Qed.

Lemma gather_feed_same e e' order : ∀ feed,
  (∀ s, sub_posts e' s = sub_posts e s) →
  gather_feed e' order feed = gather_feed e order feed.
Proof.
  induction order as [|s rest IH]; intros feed Hs; simpl; [done|].
  specialize (Hs s) as Hss. unfold sub_posts in Hss.
  destruct (subreddits e' !! s) as [sub'|], (subreddits e !! s) as [sub|]; try done.
  injection Hss as ->. by apply IH.
Qed.

Lemma GetUserFeed_same e e' u order :
  (is_Some (users e' !! u) ↔ is_Some (users e !! u)) →
  (∀ s, sub_posts e' s = sub_posts e s) →
  (∀ a, created_in (heap e') a = created_in (heap e) a) →
  GetUserFeed u order e' = GetUserFeed u order e.
Proof.
  intros Hu Hs Hc. unfold GetUserFeed.
  destruct (users e' !! u) as [user'|] eqn:Hu', (users e !! u) as [user|] eqn:Hu0;
    [|by destruct (proj1 Hu (mk_is_Some _ _ eq_refl))
     |by destruct (proj2 Hu (mk_is_Some _ _ eq_refl))|done].
  rewrite (gather_feed_same e e') by done.
  destruct (gather_feed e order []) as [feed|]; [|done].
  pose proof (resolve_same_entries (heap e) (heap e') feed Hc) as Hr.
  destruct (resolve (heap e) feed) as [objs|], (resolve (heap e') feed) as [objs'|];
    try done.
  f_equal.
  assert (Forall2 same_entry (sortPosts (λ x, Post.CreatedAt x.2) objs)
            (sortPosts (λ x, Post.CreatedAt x.2) objs')) as Hsorted.
  { apply sortPosts_Forall2; [|done]. by intros x y [_ ?]. }
  symmetry. clear -Hsorted. induction Hsorted as [|x y l l' [Hxy _] _ IH]; [done|].
  rewrite !fmap_cons. by f_equal.
Qed.

(** X11. Votes, comments and direct messages never change a feed: after
    [VotePost], [AddComment], [SendDirectMessage] or
    [ReplyToDirectMessage], whether it succeeded or not, [GetUserFeed]
    returns for every user and every enumeration of the joined set the
    same posts in the same order as before. *)
Theorem X11_feed_unchanged (op : Op) (e : RedditEngine) (u : string) (order : list string) :
  match op with
  | OpVotePost _ _ | OpAddComment _ _ _ _ _ _ | OpSendDirectMessage _ _ _ _ _
  | OpReplyToDirectMessage _ _ _ _ _ _ => True
  | _ => False
  end →
  GetUserFeed u order (exec op e) = GetUserFeed u order e.
Proof.
  intros Hop. pose proof (exec_same_post_refs op e) as Hrefs.
  assert ((∀ a, created_in (heap (exec op e)) a = created_in (heap e) a) ∧
          (is_Some (users (exec op e) !! u) ↔ is_Some (users e !! u))) as [Hc Hu].
  { assert (∀ a p p' (h : list Post.t), h !! a = Some p →
              Post.CreatedAt p' = Post.CreatedAt p →
              ∀ b, created_in (<[a := p']> h) b = created_in h b) as Hins.
    { intros a p p' h Ha Ht b. unfold created_in. destruct (decide (a = b)) as [<-|Hne].
      - rewrite list_lookup_insert_eq by (by eapply lookup_lt_Some). rewrite Ha. simpl.
        by f_equal.
      - by rewrite list_lookup_insert_ne. }
    destruct op; try done; simpl.
    - unfold AddComment. destruct (posts e !! postID) as [a|]; [|done].
      destruct (heap e !! a) as [post|] eqn:Hh; [|done].
      repeat case_match; try done; simpl; (split; [by eapply Hins | done]).
    - unfold VotePost. destruct (posts e !! postID) as [a|]; [|done].
      destruct (heap e !! a) as [post|] eqn:Hh; [|done].
      assert (∀ w v e0, is_Some (users (updateKarma w v e0) !! u) ↔ is_Some (users e0 !! u))
        as Hk.
      { intros w v e0. unfold updateKarma.
        destruct (users e0 !! w) as [user|] eqn:Hw; [|done]. simpl.
        rewrite lookup_insert. case_decide; [subst; by rewrite Hw|done]. }
      destruct upvote; simpl; rewrite updateKarma_heap; simpl;
        (split; [by eapply Hins | apply (Hk _ _ (set_heap _ e))]).
    - unfold SendDirectMessage. by repeat case_match.
    - unfold ReplyToDirectMessage. by repeat case_match. }
  apply GetUserFeed_same; [done | | done].
  destruct op; try done; apply Hrefs.
Qed.

Lemma X11_feed_unchanged_witness :
  GetUserFeed "bob" ["science"; "art"]
    (exec (OpVotePost "post_5" true) (run feed_ops NewRedditEngine))
  = Ok [1; 0; 2]%nat.
Proof.
  rewrite (X11_feed_unchanged (OpVotePost "post_5" true) (run feed_ops NewRedditEngine)
             "bob" ["science"; "art"] I).
  exact GetUserFeed_science_first.
Defined.

Lemma reachable_store_indexed e : reachable e → store_indexed e.
Proof.
  induction 1 as [|op e Hr IH].
  - split; [|split]; unfold post_sub, sub_posts; simpl.
    + intros id a H. by rewrite lookup_empty in H.
    + intros a s H. simpl in H. discriminate.
    + intros s l a H. by rewrite lookup_empty in H.
  - apply exec_store_indexed; [apply (reachable_refs e Hr) | done].
Qed.

Lemma joined_posts_elem_2 e order s l a :
  s ∈ order → sub_posts e s = Some l → a ∈ l → a ∈ joined_posts e order.
Proof.
  unfold joined_posts. induction order as [|s' rest IH]; intros Hs Hl Ha.
  - by apply elem_of_nil in Hs.
  - rewrite fmap_cons. simpl. apply elem_of_app.
    apply elem_of_cons in Hs as [<-|Hs]; [left; by rewrite Hl | right; by apply IH].
Qed.

(** X20. In every reachable state the feed of a registered user holds
    exactly the posts whose subreddit the user has joined: a post is in
    the feed if and only if it is allocated and the subreddit it names is
    in the user's joined set. *)
Theorem X20_feed_membership (e : RedditEngine) (u : string) (user : User.t)
    (order : list string) :
  reachable e → users e !! u = Some user → order ≡ₚ elements (User.Subreddits user) →
  ∃ feed, GetUserFeed u order e = Ok feed ∧
    ∀ a, a ∈ feed ↔
         ∃ p, heap e !! a = Some p ∧ Post.Subreddit p ∈ User.Subreddits user.
Proof.
  intros Hr Hu Hperm.
  destruct (reachable_refs e Hr) as [Hv Ho].
  destruct (GetUserFeed_spec e u user order (reachable_joined_exist e Hr) Hv Ho Hu Hperm)
    as (feed & Hfeed & Hp & _).
  destruct (reachable_store_indexed e Hr) as (_ & Hb & Hc).
  exists feed. split; [done|]. intros a. rewrite Hp. split.
  - intros Ha. apply joined_posts_elem in Ha as (s & l & Hs & Hl & Hin).
    pose proof (Hc s l a Hl Hin) as Hps. unfold post_sub in Hps.
    destruct (heap e !! a) as [p|]; [|done]. exists p. split; [done|].
    injection Hps as ->. apply elem_of_elements. by rewrite <- Hperm.
  - intros (p & Hp' & Hin). destruct (Hb a (Post.Subreddit p)) as (l & Hl & Hal).
    { unfold post_sub. by rewrite Hp'. }
    apply (joined_posts_elem_2 e order (Post.Subreddit p) l); [|done..].
    rewrite Hperm. by apply elem_of_elements.
Qed.

Lemma X20_feed_membership_witness :
  ∃ feed, GetUserFeed "bob" ["science"; "art"] (run feed_ops NewRedditEngine) = Ok feed ∧
    ∀ a, a ∈ feed ↔
         ∃ p, heap (run feed_ops NewRedditEngine) !! a = Some p ∧
              Post.Subreddit p ∈
                User.Subreddits (User.mk "bob" "pw" 0 1 ({["art"]} ∪ ({["science"]} ∪ ∅))).
Proof.
  apply (X20_feed_membership (run feed_ops NewRedditEngine) "bob"
           (User.mk "bob" "pw" 0 1 ({["art"]} ∪ ({["science"]} ∪ ∅))) ["science"; "art"]).
  - apply reachable_run. constructor.
  - by vm_compute.
  - vm_compute. apply perm_swap || reflexivity.
Defined.


(** * The HTTP server over the engine *)

Section HandlersFacts.
Variable TrimSpace : string → string.
Variable sort_Slice : list UserKarma.t → (UserKarma.t → UserKarma.t → bool) → list UserKarma.t.

Local Abbreviation serve := (serve TrimSpace sort_Slice).
Local Abbreviation serve_each := (serve_each TrimSpace sort_Slice).

Lemma serve_each_cons r rs s :
  serve_each (r :: rs) s =
    ((serve_each rs (serve r s).1).1, (serve r s).2 :: (serve_each rs (serve r s).1).2).
Proof.
  simpl. destruct (serve r s) as [s' resp]. simpl.
  by destruct (serve_each rs s').
Qed.

Lemma serve_all_cons r rs s :
  serve_all TrimSpace sort_Slice (r :: rs) s = serve_all TrimSpace sort_Slice rs (serve r s).1.
Proof. unfold serve_all. by rewrite serve_each_cons. Qed.

(** What a request does to the engine: nothing, or one operation that the
    handlers can issue. *)
Lemma serve_engine r s :
  engine (serve r s).1 = engine s ∨
  ∃ op, http_op op ∧ engine (serve r s).1 = exec op (engine s).
Proof.
  destruct r; simpl.
  - unfold handleRegister. destruct req as [req|]; [|by left].
    destruct (RegisterRequest.Username req) as [username|].
    + case_decide; [by left|]. right.
      exists (OpRegisterUser username (RegisterRequest.Password req) now). split; [done|].
      simpl. by destruct (RegisterUser _ _ _ _) as [e' [[]| |]].
    + right.
      exists (OpRegisterUser (Sprintf_d "user" (AddUint64_1 (userCounter s)))
                (RegisterRequest.Password req) now). split; [done|].
      simpl. by destruct (RegisterUser _ _ _ _) as [e' [[]| |]].
  - unfold handleCreateSubreddit. destruct req as [req|]; [|by left]. right.
    exists (OpCreateSubreddit (CreateSubredditRequest.Name req)
              (CreateSubredditRequest.Description req) username now). split; [done|].
    simpl. by destruct (CreateSubreddit _ _ _ _ _) as [e' [[]| |]].
  - right. exists (OpJoinSubreddit username name). split; [done|].
    unfold handleJoinSubreddit. simpl. by destruct (JoinSubreddit _ _ _) as [e' [[]| |]].
  - right. exists (OpLeaveSubreddit username name). split; [done|].
    unfold handleLeaveSubreddit. simpl. by destruct (LeaveSubreddit _ _ _) as [e' [[]| |]].
  - unfold handleCreatePost. destruct req as [req|]; [|by left]. right.
    exists (OpCreatePost (CreatePostRequest.Title req) (CreatePostRequest.Content req) username
              (CreatePostRequest.Subreddit req) tid now). split; [done|].
    simpl. by destruct (CreatePost _ _ _ _ _ _ _) as [e' [a| |]].
  - left. unfold handleGetPosts. destruct (GetUserFeed _ _ _); [|done..].
    by destruct (resolve _ _).
  - unfold handleVotePost. destruct req as [req|]; [|by left]. right.
    exists (OpVotePost id (VoteRequest.Upvote req)). split; [done|].
    simpl. by destruct (VotePost _ _ _) as [e' [[]| |]].
  - unfold handleAddComment. destruct req as [req|]; [|by left]. right.
    exists (OpAddComment (CommentRequest.Content req) username id "" tid now). split; [done|].
    simpl. by destruct (AddComment _ _ _ _ _ _ _) as [e' [c| |]].
  - unfold handleSendMessage. destruct req as [req|]; [|by left]. right.
    exists (OpSendDirectMessage username (MessageRequest.To req) (MessageRequest.Content req)
              tid now). split; [done|].
    simpl. by destruct (SendDirectMessage _ _ _ _ _ _) as [e' [m| |]].
  - left. unfold handleGetMessages. by destruct (GetDirectMessages _ _).
  - by left.
  - left. unfold handleGetComments. destruct (posts _ !! _); [|done].
    by destruct (heap _ !! _).
  - left. unfold handleGetStats_response. by destruct (handleGetStats _ _ _ _ _).
Qed.

Lemma serve_all_run rs : ∀ s,
  ∃ ops, Forall http_op ops ∧ (length ops ≤ length rs)%nat ∧
         engine (serve_all TrimSpace sort_Slice rs s) = run ops (engine s).
Proof.
  induction rs as [|r rs IH]; intros s.
  - by exists [].
  - rewrite serve_all_cons.
    destruct (IH (serve r s).1) as (ops & Hops & Hlen & Heq).
    destruct (serve_engine r s) as [Hr|(op & Hop & Hr)].
    + exists ops. split; [done|]. split; [simpl; lia|]. by rewrite Heq, Hr.
    + exists (op :: ops). split; [by constructor|]. split; [simpl; lia|].
      by rewrite Heq, Hr.
Qed.

(** X14: Whatever requests the server has answered, its engine is in the
    state that a run of engine operations leaves, at most one operation per
    request and each of them one that a handler can issue: comments are
    added with an empty parent id and no message is ever replied to.  So
    the engine behind a server started on a new engine is in a reachable
    state. *)
Theorem X14_requests_run_engine (rs : list Request) (s : APIServer) :
  (∃ ops, Forall http_op ops ∧ (length ops ≤ length rs)%nat ∧
          engine (serve_all TrimSpace sort_Slice rs s) = run ops (engine s)) ∧
  reachable (engine (serve_all TrimSpace sort_Slice rs (NewAPIServer NewRedditEngine))).
Proof.
  split; [apply serve_all_run|].
  destruct (serve_all_run rs (NewAPIServer NewRedditEngine)) as (ops & _ & _ & ->).
  apply reachable_run. constructor.
Qed.
End HandlersFacts.


(** ** Comments and messages over HTTP stay flat *)

Lemma flat_set_users u e : flat e → flat (set_users u e).
Proof. done. Qed.

Lemma flat_set_subreddits u e : flat e → flat (set_subreddits u e).
Proof. done. Qed.

Lemma flat_set_posts u e : flat e → flat (set_posts u e).
Proof. done. Qed.

Lemma flat_updateKarma u v e : flat e → flat (updateKarma u v e).
Proof. unfold updateKarma. by destruct (users e !! u). Qed.

(** An operation that a handler can issue keeps a flat store flat. *)
Lemma exec_flat op e : http_op op → flat e → flat (exec op e).
Proof.
  intros Hop He. destruct op; simpl in *; try done.
  - unfold RegisterUser. by destruct (users e !! username).
  - unfold CreateSubreddit. by destruct (subreddits e !! name).
  - unfold JoinSubreddit. destruct (users e !! username); [|done].
    by destruct (subreddits e !! subreddit).
  - unfold LeaveSubreddit. destruct (users e !! username); [|done].
    by destruct (subreddits e !! subreddit).
  - unfold CreatePost. destruct (subreddits e !! subreddit); [|done]. simpl.
    destruct He as [Hc Hm]. split; [|done]. simpl. intros a p c Ha Hin.
    apply lookup_app_Some in Ha as [Ha|[_ Ha]]; [by eapply Hc|].
    apply list_lookup_singleton_Some in Ha as [_ <-]. simpl in Hin. by apply elem_of_nil in Hin.
  - subst parentCommentID. unfold AddComment.
    destruct (posts e !! postID) as [a|]; [|done].
    destruct (heap e !! a) as [post|] eqn:Hpost; [|done].
    rewrite decide_True by done. simpl.
    destruct He as [Hc Hm]. split; [|done]. simpl. intros b p c Hb Hin.
    destruct (decide (a = b)) as [<-|Hab].
    + rewrite list_lookup_insert_eq in Hb by by eapply lookup_lt_Some.
      simplify_eq/=. apply elem_of_app in Hin as [Hin|Hin]; [by eapply Hc|].
      by apply list_elem_of_singleton in Hin as ->.
    + rewrite list_lookup_insert_ne in Hb by done. by eapply Hc.
  - unfold VotePost. destruct (posts e !! postID) as [a|]; [|done].
    destruct (heap e !! a) as [post|] eqn:Hpost; [|done].
    assert (Hins : ∀ v, flat (set_heap (<[a := Post.set_Votes v post]> (heap e)) e)).
    { intros v. destruct He as [Hc Hm]. split; [|done]. simpl. intros b p c Hb Hin.
      destruct (decide (a = b)) as [<-|Hab].
      - rewrite list_lookup_insert_eq in Hb by by eapply lookup_lt_Some.
        simplify_eq/=. by eapply Hc.
      - rewrite list_lookup_insert_ne in Hb by done. by eapply Hc. }
    destruct upvote; simpl; by apply flat_updateKarma.
  - unfold SendDirectMessage. destruct (users e !! from); [|done].
    destruct (users e !! to); [|done]. simpl.
    destruct He as [Hc Hm]. split; [done|]. intros k i m.
    unfold inbox at 1. simpl. rewrite lookup_insert. case_decide as Hk.
    + subst k. simpl. intros Hi.
      apply lookup_app_Some in Hi as [Hi|[_ Hi]]; [by eapply Hm|].
      by apply list_lookup_singleton_Some in Hi as [_ <-].
    + apply Hm.
Qed.

Lemma run_flat ops : ∀ e, Forall http_op ops → flat e → flat (run ops e).
Proof.
  induction ops as [|op ops IH]; intros e Hops He; [done|].
  inversion_clear Hops. simpl. apply IH; [done|]. by apply exec_flat.
Qed.

Lemma convertComment_eq c :
  convertComment c =
    CommentResponse.mk (Comment.ID c) (Comment.Content c) (Comment.Author c)
      (Comment.CreatedAt c) (Comment.Votes c) (convert_loop (Comment.Children c) []).
Proof. by destruct c. Qed.

Lemma convert_loop_spec cs : ∀ acc, convert_loop cs acc = acc ++ (convertComment <$> cs).
Proof.
  induction cs as [|c cs IH]; intros acc; simpl; [by rewrite app_nil_r|].
  by rewrite IH, <-app_assoc.
Qed.

Section FlatHTTP.
Variable TrimSpace : string → string.
Variable sort_Slice : list UserKarma.t → (UserKarma.t → UserKarma.t → bool) → list UserKarma.t.

(** X15: Through the HTTP interface no comment ever gets a child and no
    message a reply: from a store without either (a new engine is one), any
    sequence of requests leaves every comment forest a plain list, so the
    comment count of a post is the length of its list, and every message
    without replies.  The comments a GET returns then all have an empty
    children list. *)
Theorem X15_http_keeps_comments_flat (rs : list Request) (s : APIServer) :
  flat (engine s) →
  let s' := serve_all TrimSpace sort_Slice rs s in
  flat (engine s') ∧
  (∀ a p, heap (engine s') !! a = Some p →
     forest_size (Post.Comments p) = length (Post.Comments p)) ∧
  (∀ id st msg cs c, (handleGetComments id s').2 = SuccessResponse st msg (DataComments cs) →
     c ∈ cs → CommentResponse.Children c = []).
Proof.
  intros Hs s'.
  assert (Hflat : flat (engine s')).
  { destruct (serve_all_run TrimSpace sort_Slice rs s) as (ops & Hops & _ & Heq).
    unfold s'. rewrite Heq. by apply run_flat. }
  split; [done|]. destruct Hflat as [Hc Hm]. split.
  - intros a p Hp. specialize (Hc a p).
    induction (Post.Comments p) as [|c cs IH]; [done|].
    rewrite forest_size_cons. simpl. rewrite IH.
    + rewrite tree_size_eq, (Hc c Hp) by by left. done.
    + intros c' Hp' Hin. apply Hc; [done|]. by right.
  - intros id st msg cs c. unfold handleGetComments.
    destruct (posts (engine s') !! id) as [a|]; [|done].
    destruct (heap (engine s') !! a) as [post|] eqn:Hpost; [|done].
    simpl. intros [= _ _ <-]. rewrite convert_loop_spec. simpl.
    intros (c0 & -> & Hin)%list_elem_of_fmap.
    rewrite convertComment_eq. simpl. by rewrite (Hc a post c0 Hpost Hin).
Qed.
End FlatHTTP.


Lemma NewRedditEngine_flat : flat NewRedditEngine.
Proof.
  split.
  - intros a p c H. simpl in H. discriminate.
  - intros k i m. unfold inbox. simpl. rewrite lookup_empty. simpl. discriminate.
Qed.

Lemma X15_http_keeps_comments_flat_witness :
  flat (engine (serve_all TrimSpace_ascii merge_sort_Slice http_session
                  (NewAPIServer NewRedditEngine))).
Proof.
  apply (X15_http_keeps_comments_flat TrimSpace_ascii merge_sort_Slice http_session
           (NewAPIServer NewRedditEngine)).
  exact NewRedditEngine_flat.
Defined.

(** ** Registration through the client *)

Lemma Sprintf_d_inj prefix a b : Sprintf_d prefix a = Sprintf_d prefix b → a = b.
Proof. unfold Sprintf_d. intros H%(inj (String.app prefix)). by apply (inj pretty). Qed.

Lemma auto_name_0 c : auto_name c 0 = Sprintf_d "user" (c + 1).
Proof. unfold auto_name. f_equal. Qed.

Lemma auto_name_S c i : auto_name (c + 1) i = auto_name c (S i).
Proof. unfold auto_name. f_equal. lia. Qed.

Lemma auto_name_inj c i j : auto_name c i = auto_name c j → i = j.
Proof. unfold auto_name. intros H%Sprintf_d_inj. lia. Qed.

Section Registration.
Variable TrimSpace : string → string.
Variable sort_Slice : list UserKarma.t → (UserKarma.t → UserKarma.t → bool) → list UserKarma.t.

Lemma handleRegister_auto username password now s :
  0 <= userCounter s → userCounter s + 1 < 2 ^ 64 →
  users (engine s) !! auto_name (userCounter s) 0 = None →
  handleRegister TrimSpace (Some (APIClient_Register username password)) now s =
    (mkAPIServer
       (set_users (<[auto_name (userCounter s) 0 :=
                       auto_user (userCounter s) 0 (username, password, now)]>
                     (users (engine s))) (engine s))
       (userCounter s + 1),
     registered_response (auto_name (userCounter s) 0)).
Proof.
  intros H0 H1 Hfree. rewrite auto_name_0 in *.
  unfold handleRegister, APIClient_Register, AddUint64_1. simpl.
  rewrite Z.mod_small by lia. unfold RegisterUser. by rewrite Hfree.
Qed.

(** X16: [APIClient.Register] leaves its [username] argument out of the
    body, so the server names the account itself.  When the counter does
    not run over and the names it will produce are free, the registrations
    of any callers all succeed; the [i]-th to arrive creates the account
    [user<c+i>] ([c] the counter before) with that caller's password, the
    counter advances by the number of callers, and no other account and
    nothing else in the store changes, whatever names the callers passed. *)
Theorem X16_client_registrations (callers : list (string * string * Time)) (s : APIServer) :
  0 <= userCounter s →
  userCounter s + Z.of_nat (length callers) < 2 ^ 64 →
  (∀ i, (i < length callers)%nat →
        users (engine s) !! auto_name (userCounter s) i = None) →
  let out := serve_each TrimSpace sort_Slice (registrations callers) s in
  userCounter out.1 = userCounter s + Z.of_nat (length callers) ∧
  out.2 = (λ i, registered_response (auto_name (userCounter s) i))
            <$> seq 0 (length callers) ∧
  (∀ i caller, callers !! i = Some caller →
     users (engine out.1) !! auto_name (userCounter s) i
       = Some (auto_user (userCounter s) i caller)) ∧
  (∀ u, (∀ i, (i < length callers)%nat → u ≠ auto_name (userCounter s) i) →
     users (engine out.1) !! u = users (engine s) !! u) ∧
  subreddits (engine out.1) = subreddits (engine s) ∧
  posts (engine out.1) = posts (engine s) ∧
  directMessages (engine out.1) = directMessages (engine s) ∧
  heap (engine out.1) = heap (engine s).
Proof.
  revert s. induction callers as [|[[username password] now] callers IH]; intros s H0 Hn Hfree.
  - simpl. split; [lia|]. done.
  - cbn [length] in Hn, Hfree |- *.
    change (registrations ((username, password, now) :: callers))
      with (PostRegister (Some (APIClient_Register username password)) now
              :: registrations callers).
    cbn zeta. rewrite serve_each_cons.
    change (serve TrimSpace sort_Slice
              (PostRegister (Some (APIClient_Register username password)) now) s)
      with (handleRegister TrimSpace (Some (APIClient_Register username password)) now s).
    rewrite handleRegister_auto by first [lia | apply Hfree; lia].
    set (c := userCounter s) in *.
    set (s1 := mkAPIServer _ (c + 1)).
    destruct (IH s1) as (Hc & Hr & Hu & Ho & Hs & Hp & Hd & Hh).
    { simpl. lia. }
    { simpl. lia. }
    { intros i Hi. simpl. rewrite auto_name_S.
      rewrite lookup_insert_ne by (intros E%auto_name_inj; lia).
      apply Hfree. lia. }
    cbn [fst snd]. simpl in Hc, Hr, Hu, Ho, Hs, Hp, Hd, Hh.
    split; [rewrite Hc; lia|]. split.
    { rewrite Hr. cbn [seq fmap list_fmap]. f_equal.
      rewrite <-fmap_S_seq, <-list_fmap_compose.
      apply list_fmap_ext. intros i j _. simpl. by rewrite auto_name_S. }
    split.
    { intros [|i] caller Hcaller; simpl in Hcaller.
      - simplify_eq. rewrite Ho.
        + by rewrite lookup_insert_eq.
        + intros i Hi. rewrite auto_name_S. intros E%auto_name_inj. lia.
      - rewrite <-auto_name_S. rewrite (Hu i caller Hcaller).
        unfold auto_user. by rewrite auto_name_S. }
    split.
    { intros u Hu'. rewrite Ho.
      - rewrite lookup_insert_ne; [done|]. intros E. by apply (Hu' 0%nat); [lia|].
      - intros i Hi. rewrite auto_name_S. apply Hu'. lia. }
    by rewrite Hs, Hp, Hd, Hh.
Qed.

End Registration.

Lemma X16_client_registrations_witness :
  users (engine (serve_all TrimSpace_ascii merge_sort_Slice
                   (registrations [("alice", "pw1", 1); ("bob", "pw2", 2)])
                   (NewAPIServer NewRedditEngine))) !! "alice" = None.
Proof.
  destruct (X16_client_registrations TrimSpace_ascii merge_sort_Slice
              [("alice", "pw1", 1); ("bob", "pw2", 2)]
              (NewAPIServer NewRedditEngine)) as (_ & _ & _ & H & _).
  - simpl. lia.
  - simpl. lia.
  - intros i _. apply lookup_empty.
  - unfold serve_all. rewrite H; [apply lookup_empty|].
    intros [|[|i]] Hi; [by vm_compute..|simpl in Hi; lia].
Defined.


(** ** What the responses tell *)

Section Responses.
Variable TrimSpace : string → string.
Variable sort_Slice : list UserKarma.t → (UserKarma.t → UserKarma.t → bool) → list UserKarma.t.

(** X18: What a response tells about the server.  After an error response
    (its status is always "error") the engine is as before, and so is the
    whole server after an aborted handler or a GET request.  The counter of
    generated names moves only on a registration without user name, and it
    moves on every such registration, also on one that fails because the
    generated name is taken.  No request is ever answered that a parent
    comment was not found. *)
Theorem X18_error_responses (r : Request) (s : APIServer) :
  let s' := (serve TrimSpace sort_Slice r s).1 in
  let resp := (serve TrimSpace sort_Slice r s).2 in
  (∀ st msg, resp = ErrorResponse st msg → st = "error" ∧ engine s' = engine s) ∧
  (∀ st msg d, resp = SuccessResponse st msg d → st = "success") ∧
  (resp = Aborted → s' = s) ∧
  (is_get r = true → s' = s) ∧
  (userCounter s' ≠ userCounter s →
     ∃ password now, r = PostRegister (Some (RegisterRequest.mk None password)) now ∧
       userCounter s' = AddUint64_1 (userCounter s)) ∧
  (∀ password now, r = PostRegister (Some (RegisterRequest.mk None password)) now →
     userCounter s' = AddUint64_1 (userCounter s)) ∧
  (∀ st, resp ≠ ErrorResponse st ("Failed to add comment: " +:+ NotFound "parent comment")).
Proof.
  destruct s as [e c].
  destruct r; cbn zeta; cbn [serve];
    unfold handleRegister, handleCreateSubreddit, handleJoinSubreddit, handleLeaveSubreddit,
      handleCreatePost, handleGetPosts, handleVotePost, handleAddComment, handleSendMessage,
      handleGetMessages, handleGetUsers, handleGetComments, handleGetStats_response,
      invalid_request, RegisterUser, CreateSubreddit, JoinSubreddit, LeaveSubreddit,
      CreatePost, VotePost, AddComment, SendDirectMessage, set_engine.
  all: repeat (case_match; simplify_eq/=).
  all: repeat split; intros; simplify_eq/=; try done.
  - destruct t as [[u|] password]; simplify_eq/=. by exists password, now.
  - destruct t as [[u|] password]; simplify_eq/=. by exists password, now.
  - match goal with
    | H : (?l ++ [_]) !! length ?l = None |- _ => by rewrite list_lookup_middle in H
    end.
Qed.
End Responses.

Lemma X18_error_responses_witness :
  engine (serve TrimSpace_ascii merge_sort_Slice (PostVote "post_9" "alice" None)
            (NewAPIServer NewRedditEngine)).1 = NewRedditEngine.
Proof.
  destruct (X18_error_responses TrimSpace_ascii merge_sort_Slice
              (PostVote "post_9" "alice" None) (NewAPIServer NewRedditEngine)) as [H _].
  destruct (H "error" "Invalid request format") as [_ He]; [reflexivity|].
  exact He.
Defined.


(** ** The comments a GET returns *)

Lemma response_size_eq c :
  response_size c = S (responses_size (CommentResponse.Children c)).
Proof. by destruct c. Qed.

Lemma convertComment_Children c :
  CommentResponse.Children (convertComment c) = convertComment <$> Comment.Children c.
Proof. rewrite convertComment_eq. simpl. apply convert_loop_spec. Qed.

Lemma convertComment_size c : response_size (convertComment c) = tree_size c.
Proof.
  induction c as [c IH] using comment_tree_ind.
  rewrite response_size_eq, tree_size_eq, convertComment_Children. f_equal.
  induction IH as [|c' cs Hc' _ IHcs]; [done|].
  rewrite fmap_cons, forest_size_cons. simpl. by rewrite Hc', IHcs.
Qed.

(** X17: [handleGetComments], which reads [engine.posts] itself, answers
    as the engine's [GetComments] does (with its own wording of the error),
    and leaves the server as it is.  The payload is the comment forest
    converted node by node: the same number of top-level comments, which is
    the count in the message, the same children under every node and so
    the same number of nodes, with id, content, author, time and votes
    copied. *)
Theorem X17_get_comments_response (postID : string) (s : APIServer) :
  handleGetComments postID s =
    (s, match GetComments postID (engine s) with
        | Ok comments =>
            SuccessResponse "success"
              ("Retrieved " +:+ show_len comments +:+ " comments for post " +:+ postID)
              (DataComments (convertComment <$> comments))
        | Err _ => ErrorResponse "error" "Post not found"
        | Panic => Aborted
        end) ∧
  (∀ cs, responses_size (convertComment <$> cs) = forest_size cs) ∧
  (∀ c, CommentResponse.Children (convertComment c) = convertComment <$> Comment.Children c ∧
        CommentResponse.ID (convertComment c) = Comment.ID c ∧
        CommentResponse.Content (convertComment c) = Comment.Content c ∧
        CommentResponse.Author (convertComment c) = Comment.Author c ∧
        CommentResponse.CreatedAt (convertComment c) = Comment.CreatedAt c ∧
        CommentResponse.Votes (convertComment c) = Comment.Votes c).
Proof.
  split; [|split].
  - unfold handleGetComments, GetComments.
    destruct (posts (engine s) !! postID) as [a|]; [|done].
    destruct (heap (engine s) !! a) as [post|]; [|done].
    rewrite convert_loop_spec. simpl. unfold show_len, GoInt.len. by rewrite length_fmap.
  - induction cs as [|c cs IH]; [done|].
    rewrite fmap_cons, forest_size_cons. simpl. by rewrite convertComment_size, IH.
  - intros c. split; [apply convertComment_Children|]. by rewrite convertComment_eq.
Qed.

(** ** No handler aborts *)

Section NeverAborts.
Variable TrimSpace : string → string.
Variable sort_Slice : list UserKarma.t → (UserKarma.t → UserKarma.t → bool) → list UserKarma.t.

Lemma serve_reachable r s :
  reachable (engine s) → reachable (engine (serve TrimSpace sort_Slice r s).1).
Proof.
  intros Hs. destruct (serve_engine TrimSpace sort_Slice r s) as [->|(op & _ & ->)]; [done|].
  by constructor.
Qed.

Lemma serve_no_abort r s :
  reachable (engine s) → enumerates r (engine s) →
  (serve TrimSpace sort_Slice r s).2 ≠ Aborted.
Proof.
  intros Hs Hr. pose proof (reachable_refs _ Hs) as [Hv Ho].
  pose proof (reachable_joined_exist _ Hs) as Hj.
  destruct s as [e c]. simpl in *.
  destruct r; cbn [serve].
  - unfold handleRegister, RegisterUser. repeat (case_match; simplify_eq/=); done.
  - unfold handleCreateSubreddit, CreateSubreddit. repeat (case_match; simplify_eq/=); done.
  - unfold handleJoinSubreddit, JoinSubreddit. repeat (case_match; simplify_eq/=); done.
  - unfold handleLeaveSubreddit, LeaveSubreddit. repeat (case_match; simplify_eq/=); done.
  - unfold handleCreatePost, CreatePost. repeat (case_match; simplify_eq/=); try done.
    match goal with
    | H : (?l ++ [_]) !! length ?l = None |- _ => by rewrite list_lookup_middle in H
    end.
  - unfold handleGetPosts. simpl.
    destruct (users e !! username) as [user|] eqn:Hu.
    + destruct (GetUserFeed_spec e username user order Hj Hv Ho Hu (Hr user Hu))
        as (feed & Hfeed & Hperm & _).
      rewrite Hfeed.
      destruct (resolve (heap e) feed) as [objs|] eqn:Hres; [done|].
      destruct (resolve_valid (heap e) feed) as (objs' & Hobjs & _); [|congruence].
      intros a Ha. rewrite Hperm in Ha. by eapply joined_posts_valid.
    + unfold GetUserFeed. by rewrite Hu.
  - unfold handleVotePost, VotePost. simpl.
    destruct req as [req|]; [|done].
    destruct (posts e !! id) as [a|] eqn:Ha; [|done].
    destruct (lookup_lt_is_Some_2 (heap e) a) as [post ->]; [by eapply (proj1 Hv)|].
    by destruct (VoteRequest.Upvote req).
  - unfold handleAddComment, AddComment. simpl.
    destruct req as [req|]; [|done].
    destruct (posts e !! id) as [a|] eqn:Ha; [|done].
    destruct (lookup_lt_is_Some_2 (heap e) a) as [post ->]; [by eapply (proj1 Hv)|].
    done.
  - unfold handleSendMessage, SendDirectMessage. repeat (case_match; simplify_eq/=); done.
  - unfold handleGetMessages, GetDirectMessages. repeat (case_match; simplify_eq/=); done.
  - done.
  - unfold handleGetComments. simpl.
    destruct (posts e !! id) as [a|] eqn:Ha; [|done].
    by destruct (lookup_lt_is_Some_2 (heap e) a) as [post ->]; [by eapply (proj1 Hv)|].
  - unfold handleGetStats_response, handleGetStats. simpl.
    destruct Hr as (Hps & _ & _).
    pose proof (http_posts_loop_spec (heap e) ps (map_to_list_ptrs_valid e ps Hv Hps) 0 0 0)
      as Hloop.
    change (GoInt.wrap 0) with 0 in Hloop. rewrite Hloop.
    by destruct (posts_totals _ _ _ _ _) as [[? ?] ?].
Qed.

(** X21: No handler ever aborts.  On a server whose engine is in a
    reachable state (a new engine is one), every request of a sequence is
    answered with an error or a success response, one response per request,
    provided each feed and statistics request ranges over the map it reads;
    and the engine stays in a reachable state. *)
Theorem X21_no_handler_aborts (rs : list Request) (s : APIServer) :
  reachable (engine s) → session TrimSpace sort_Slice rs s →
  let s' := (serve_each TrimSpace sort_Slice rs s).1 in
  let resps := (serve_each TrimSpace sort_Slice rs s).2 in
  (Aborted ∉ resps) ∧ length resps = length rs ∧ reachable (engine s').
Proof.
  revert s. induction rs as [|r rs IH]; intros s Hs Hrs.
  - simpl. split; [apply not_elem_of_nil|done].
  - destruct Hrs as [Hr Hrs]. cbn zeta. rewrite serve_each_cons. cbn [fst snd].
    destruct (IH (serve TrimSpace sort_Slice r s).1) as (Hno & Hlen & Hreach);
      [by apply serve_reachable|done|].
    split; [|split; [simpl; by rewrite Hlen|done]].
    rewrite not_elem_of_cons. split; [|done].
    intros E. by apply (serve_no_abort r s Hs Hr).
Qed.
End NeverAborts.

Lemma http_session_enumerated :
  session TrimSpace_ascii merge_sort_Slice http_session (NewAPIServer NewRedditEngine).
Proof.
  repeat split.
  - intros user. vm_compute. intros [= <-]. reflexivity.
  - vm_compute. reflexivity.
Qed.

Lemma X21_no_handler_aborts_witness :
  Aborted ∉ (serve_each TrimSpace_ascii merge_sort_Slice http_session
               (NewAPIServer NewRedditEngine)).2.
Proof.
  apply (X21_no_handler_aborts TrimSpace_ascii merge_sort_Slice http_session
           (NewAPIServer NewRedditEngine)).
  - constructor.
  - exact http_session_enumerated.
Defined.


(** * Printing a comment tree *)

Lemma tree_height_eq c : tree_height c = S (forest_height (Comment.Children c)).
Proof. by destruct c. Qed.

Lemma outline_in_eq d c : outline_in d c = (d, c) :: outline (S d) (Comment.Children c).
Proof. by destruct c. Qed.

Lemma outline_cons d c cs : outline d (c :: cs) = outline_in d c ++ outline d cs.
Proof. done. Qed.

Lemma forest_height_cons c cs :
  forest_height (c :: cs) = Nat.max (tree_height c) (forest_height cs).
Proof. done. Qed.

Lemma outline_in_length c : ∀ d, length (outline_in d c) = tree_size c.
Proof.
  induction c as [c IH] using comment_tree_ind. intros d.
  rewrite outline_in_eq, tree_size_eq. simpl. f_equal.
  generalize (S d). induction IH as [|c' cs Hc' _ IHcs]; intros k; [done|].
  rewrite outline_cons, length_app, forest_size_cons. by rewrite Hc', IHcs.
Qed.

Lemma outline_length cs d : length (outline d cs) = forest_size cs.
Proof.
  induction cs as [|c cs IH]; [done|].
  by rewrite outline_cons, length_app, forest_size_cons, outline_in_length, IH.
Qed.

Section PrintCommentTreeFacts.
Variable Repeat : string → Z → option string.

(** What the proofs take from [strings.Repeat]: it panics on a negative
    count, and for every count up to [limit], the longest padding that
    the run can build, it returns that many copies.  [limit] is below the
    largest [int]. *)
Variable limit : Z.
Hypothesis Repeat_negative : ∀ count, count < 0 → Repeat "  " count = None.
Hypothesis Repeat_copies : ∀ count,
  0 <= count <= limit → Repeat "  " count = Some (copies "  " (Z.to_nat count)).
Hypothesis limit_int : limit < GoInt.int_max.

Lemma PrintCommentTree_in_eq c indent out :
  PrintCommentTree_in Repeat c indent out =
    match Repeat "  " indent with
    | None => (out, Panic)
    | Some pad =>
        PrintCommentTree Repeat (Comment.Children c) (GoInt.add indent 1)
          (out ++ [comment_line pad c])
    end.
Proof.
  destruct c as [i ct au pa cr v ch]. simpl. destruct (Repeat "  " indent) as [pad|]; [|done].
  generalize (out ++ [comment_line pad (Comment.mk i ct au pa cr v ch)]).
  induction ch as [|c ch IH]; intros o; [done|].
  simpl.
  destruct (PrintCommentTree_in Repeat c (GoInt.add indent 1) o) as [o' [[]| |]]; [|done..].
  apply IH.
Qed.

Lemma PrintCommentTree_forest cs :
  Forall (λ c, ∀ indent out, 0 <= indent →
            indent + Z.of_nat (tree_height c) <= limit + 1 →
            PrintCommentTree_in Repeat c indent out =
              (out ++ (outline_line <$> outline_in (Z.to_nat indent) c), Ok ())) cs →
  ∀ indent out, 0 <= indent →
    indent + Z.of_nat (forest_height cs) <= limit + 1 →
    PrintCommentTree Repeat cs indent out =
      (out ++ (outline_line <$> outline (Z.to_nat indent) cs), Ok ()).
Proof.
  induction 1 as [|c cs Hc _ IH]; intros indent out H0 Hh.
  - simpl. by rewrite app_nil_r.
  - rewrite forest_height_cons in Hh. cbn [PrintCommentTree].
    rewrite Hc by lia. rewrite IH by lia.
    by rewrite outline_cons, fmap_app, app_assoc.
Qed.

Lemma PrintCommentTree_in_spec c : ∀ indent out,
  0 <= indent → indent + Z.of_nat (tree_height c) <= limit + 1 →
  PrintCommentTree_in Repeat c indent out =
    (out ++ (outline_line <$> outline_in (Z.to_nat indent) c), Ok ()).
Proof.
  induction c as [c IH] using comment_tree_ind. intros indent out H0 Hh.
  rewrite tree_height_eq in Hh.
  rewrite PrintCommentTree_in_eq, Repeat_copies by lia.
  unfold GoInt.add. rewrite GoIntFacts.wrap_in_range
    by (unfold GoInt.in_range, GoInt.int_min, GoInt.int_max in *; lia).
  rewrite (PrintCommentTree_forest _ IH) by lia.
  rewrite outline_in_eq, fmap_cons, <-app_assoc. simpl.
  by replace (Z.to_nat (indent + 1)) with (S (Z.to_nat indent)) by lia.
Qed.

(** X23: As long as [strings.Repeat] can build the padding of the deepest
    comment (the indent, not negative, plus the depth of the forest stays
    within what [Repeat] returns), [PrintCommentTree] returns after one
    [Printf] per comment of the forest, replies included, so as many as
    [countComments] counts: every comment is followed by its replies, in
    their order, before its next sibling, and its line begins with two
    spaces per level below the top, on top of the indent.  With a
    negative indent it panics on the first comment, having written
    nothing. *)
Theorem X23_print_comment_tree (comments : list Comment.t) (indent : Z) (out : list string) :
  (0 <= indent → indent + Z.of_nat (forest_height comments) <= limit + 1 →
   PrintCommentTree Repeat comments indent out =
     (out ++ (outline_line <$> outline (Z.to_nat indent) comments), Ok ())) ∧
  length (outline (Z.to_nat indent) comments) = forest_size comments ∧
  countComments comments =
    GoInt.wrap (Z.of_nat (length (outline (Z.to_nat indent) comments))) ∧
  (indent < 0 → comments ≠ [] →
   PrintCommentTree Repeat comments indent out = (out, Panic)).
Proof.
  split; [|split; [|split]].
  - apply PrintCommentTree_forest, Forall_forall. intros c _. apply PrintCommentTree_in_spec.
  - apply outline_length.
  - by rewrite outline_length, countComments_forest_size.
  - intros Hneg Hne. destruct comments as [|c cs]; [done|].
    cbn [PrintCommentTree]. by rewrite PrintCommentTree_in_eq, Repeat_negative.
Qed.
End PrintCommentTreeFacts.

Lemma X23_print_comment_tree_witness :
  PrintCommentTree (Repeat_upto 1000) thread_example 0 [] =
    ([comment_line "" (Comment.mk "comment_1" "First" "alice" "" 1 0
                         [Comment.mk "comment_2" "Second" "bob" "comment_1" 2 0 []]);
      comment_line "  " (Comment.mk "comment_2" "Second" "bob" "comment_1" 2 0 []);
      comment_line "" (Comment.mk "comment_3" "Third" "carol" "" 3 0 [])], Ok ()).
Proof.
  destruct (X23_print_comment_tree (Repeat_upto 1000) 1000) with
    (comments := thread_example) (indent := 0) (out := @nil string) as [H _].
  - intros count Hc. unfold Repeat_upto. rewrite decide_True; [done|]. by left.
  - intros count Hc. unfold Repeat_upto. rewrite decide_False; [done|]. lia.
  - by vm_compute.
  - rewrite H; [reflexivity|lia|by vm_compute].
Defined.
